(** * MARC21 extractor and download manager: model and verified properties

    Shallow embedding of [src/parser.ts] (class [Marc21Parser]) and of the
    download manager (class [DownloadManager]), together with the
    properties of the specification that are stated about them.

    Modelling conventions.
    - A JavaScript string is a [string]: a sequence of code units below
      256.  White space is the white space of [trim] and of [\s] among
      these code units; [toLowerCase] is the ASCII one.
    - [undefined]/[null] for an optional property is [None]; the
      truthiness test [if (x)] on a string is [negb (x =? "")].
    - A JavaScript object used as a dictionary is a [gmap string _] over
      its own properties; a read [object[key]] that finds no own property
      finds, for the names of [objectPrototypeNames], the member
      inherited from [Object.prototype].  An object whose enumeration
      order matters is an association list in enumeration order.
    - Collaborators that the repository treats as black boxes (the XML
      fragment parser, the HTTP client, the file system, the clock) are
      Section variables. *)

From Stdlib Require Import ZArith Ascii String List Lia Permutation Sorted.
From stdpp Require Import base option list gmap strings pretty.

Local Open Scope string_scope.

(** [String.append] is unfolded by [simpl] again in this file. *)
#[local] Arguments String.append !s1 s2 : simpl nomatch.

(* ===================================================================== *)
(** * JavaScript string primitives used by the sources *)
(* ===================================================================== *)

Module Js.

Fixpoint take (n : nat) (s : string) : string :=
  match n, s with
  | S n', String c s' => String c (take n' s')
  | _, _ => EmptyString
  end.

Fixpoint drop (n : nat) (s : string) : string :=
  match n, s with
  | S n', String _ s' => drop n' s'
  | S _, EmptyString => EmptyString
  | O, _ => s
  end.

(** [s.substring(a, b)]: both indices are clamped to the length and
    swapped when [a > b]. *)
Definition substring (a b : nat) (s : string) : string :=
  take (Nat.max a b - Nat.min a b) (drop (Nat.min a b) s).

(** [s.substring(a)] *)
Definition substringFrom (a : nat) (s : string) : string := drop a s.

Fixpoint startsWith (needle s : string) : bool :=
  match needle, s with
  | EmptyString, _ => true
  | String a needle', String b s' => Ascii.eqb a b && startsWith needle' s'
  | String _ _, EmptyString => false
  end.

(** First position [>= pos] (counted from the start of the whole
    string, of which [s] is the suffix at [pos]) where [needle] occurs. *)
Fixpoint findFrom (needle s : string) (pos : nat) : option nat :=
  if startsWith needle s then Some pos
  else match s with
       | EmptyString => None
       | String _ s' => findFrom needle s' (S pos)
       end.

(** [s.indexOf(needle, from)], with [None] for [-1]. *)
Definition indexOf (needle s : string) (from : nat) : option nat :=
  findFrom needle (drop from s) (Nat.min from (String.length s)).

Fixpoint findLast (needle s : string) (pos : nat) : option nat :=
  match s with
  | EmptyString => if startsWith needle s then Some pos else None
  | String _ s' =>
      match findLast needle s' (S pos) with
      | Some i => Some i
      | None => if startsWith needle s then Some pos else None
      end
  end.

(** [s.lastIndexOf(needle)], with [None] for [-1]. *)
Definition lastIndexOf (needle s : string) : option nat :=
  findLast needle s 0.

(** [s.includes(needle)] *)
Definition includes (needle s : string) : bool :=
  match indexOf needle s 0 with Some _ => true | None => false end.

(** White space of [String.prototype.trim] and of the class [\s]: among
    the code units below 256 these are TAB, LF, VT, FF, CR, the space and
    the no-break space U+00A0. *)
Definition isSpace (c : ascii) : bool :=
  let n := nat_of_ascii c in
  (((9 <=? n) && (n <=? 13)) || (n =? 32) || (n =? 160))%nat.

Fixpoint trimStart (s : string) : string :=
  match s with
  | String c s' => if isSpace c then trimStart s' else s
  | EmptyString => EmptyString
  end.

Fixpoint trimEnd (s : string) : string :=
  match s with
  | EmptyString => EmptyString
  | String c s' =>
      match trimEnd s' with
      | EmptyString => if isSpace c then EmptyString else String c EmptyString
      | r => String c r
      end
  end.

(** [s.trim()] *)
Definition trim (s : string) : string := trimEnd (trimStart s).

Definition lowerChar (c : ascii) : ascii :=
  let n := nat_of_ascii c in
  if ((65 <=? n) && (n <=? 90))%nat then ascii_of_nat (n + 32) else c.

(** [s.toLowerCase()] *)
Fixpoint toLowerCase (s : string) : string :=
  match s with
  | EmptyString => EmptyString
  | String c s' => String (lowerChar c) (toLowerCase s')
  end.

(** The names of the members of [Object.prototype].  A read
    [object[key]] on a plain object that has no own property [key] finds
    the inherited member for these names, a function (the prototype
    object itself for [__proto__]): a truthy value. *)
Definition objectPrototypeNames : list string :=
  ["constructor"; "__defineGetter__"; "__defineSetter__"; "hasOwnProperty";
   "__lookupGetter__"; "__lookupSetter__"; "isPrototypeOf";
   "propertyIsEnumerable"; "toString"; "valueOf"; "__proto__";
   "toLocaleString"].

Definition inheritedName (key : string) : bool :=
  existsb (String.eqb key) objectPrototypeNames.

(** Truthiness of a string and of an optional string. *)
Definition truthy (s : string) : bool := negb (String.eqb s "").

Definition truthyOpt (o : option string) : bool :=
  match o with Some s => truthy s | None => false end.

(** Concatenation of a list of strings, in order. *)
Definition concat (l : list string) : string :=
  fold_right String.append EmptyString l.

End Js.

(* ===================================================================== *)
(** * Record boundary scanner ([processXmlFile] and its two copies) *)
(* ===================================================================== *)

Definition openTag : string := "<marc:record>".
Definition closeTag : string := "</marc:record>".

Section Scanner.

(** The three scanners of [parser.ts] ([processXmlFile],
    [processXmlFileForExtraction], [extractAllCategoriesInSinglePass])
    run the same ['data'] handler and differ only in the per-record
    callback, here [onRecord], which acts on the state [St] that the
    callback mutates. *)
Context {St : Type}.
Variable onRecord : string -> St -> St.

(** The [while (recordEnd !== -1)] loop of the ['data'] handler.  The
    loop state is [recordStart], the callback state and [recordCount];
    [recordEnd] is recomputed at the head of each iteration exactly as
    the source recomputes it at the end of the previous one.  [fuel]
    bounds the number of iterations. *)
Fixpoint scanLoop (fuel : nat) (buffer : string) (recordStart : nat)
    (st : St) (recordCount : nat) : option (nat * St * nat) :=
  match Js.indexOf closeTag buffer recordStart with
  | None => Some (recordStart, st, recordCount)
  | Some recordEnd =>
      match fuel with
      | O => None
      | S fuel' =>
          let recordXml :=
            Js.substring recordStart (recordEnd + String.length closeTag) buffer in
          let '(st', recordCount') :=
            match Js.lastIndexOf openTag recordXml with
            | Some recordStartTag =>
                let completeRecord := Js.substringFrom recordStartTag recordXml in
                (onRecord completeRecord st, S recordCount)
            | None => (st, recordCount)
            end in
          scanLoop fuel' buffer (recordEnd + String.length closeTag) st' recordCount'
      end
  end.

(** One ['data'] event: append the chunk, run the loop, keep the
    remainder. *)
Definition onData (chunk : string) (s : string * St * nat)
    : option (string * St * nat) :=
  let '(buffer0, st, recordCount) := s in
  let buffer := buffer0 ++ chunk in
  match scanLoop (String.length buffer) buffer 0 st recordCount with
  | Some (recordStart, st', recordCount') =>
      Some (Js.substringFrom recordStart buffer, st', recordCount')
  | None => None
  end.

(** The whole stream: the file arrives as a list of chunks. *)
Fixpoint onChunks (chunks : list string) (s : string * St * nat)
    : option (string * St * nat) :=
  match chunks with
  | [] => Some s
  | chunk :: rest =>
      match onData chunk s with
      | Some s' => onChunks rest s'
      | None => None
      end
  end.

(** Result at ['end']: final buffer, callback state, record count. *)
Definition scanStream (chunks : list string) (st0 : St)
    : option (string * St * nat) :=
  onChunks chunks (EmptyString, st0, 0).

End Scanner.

(** What a scan hands to its per-record callback: the scanner run with a
    callback that only records its argument, in dispatch order. *)
Definition recordFragment (fragment : string) (seen : list string) : list string :=
  seen ++ [fragment].

Definition dispatchedFragments (chunks : list string)
    : option (string * list string * nat) :=
  scanStream recordFragment chunks [].

(* ===================================================================== *)
(** * FieldTree: the parsed record ([types.ts]) *)
(* ===================================================================== *)

(** [SubField]: [$.code] and the text [_].  An element without text has no
    [_] property; the sources only ever test [subField._] for truthiness,
    so the absent text is the empty string here. *)
Record SubField := mkSubField {
  code : string;
  text : string
}.

(** [DataField]: [$] (the attributes, of which only [tag] is read) may be
    missing, which the sources guard against with [!dataField.$];
    ['marc:subfield'] after the array normalisation done at every use. *)
Record DataField := mkDataField {
  attrs : option string;
  subfields : list SubField
}.

(** [MarcRecord]: ['marc:datafield'] after the array normalisation; the
    absent property is the empty list (the sources return the same value
    for both). *)
Record MarcRecord := mkMarcRecord {
  datafields : list DataField
}.

(** The test [subField.$.code === c && subField._] *)
Definition qualifies (c : string) (sf : SubField) : bool :=
  String.eqb (code sf) c && Js.truthy (text sf).

Definition hasTag (t : string) (df : DataField) : bool :=
  match attrs df with
  | Some tag => String.eqb tag t
  | None => false
  end.

(* ===================================================================== *)
(** * Book Record Mapper ([convertToBookRecord]) *)
(* ===================================================================== *)

(** A page number as [parseInt] returns it.  Up to [2^53] the double is
    the integer that the digits denote; a longer run of digits is rounded
    to a double that is not computed here, and is kept as the run. *)
Inductive PageNumber :=
  | Pages (n : N)
  | RoundedFrom (run : string).

Record BookRecord := mkBookRecord {
  title : string;
  language : option string;
  authors : list string;
  nbPages : option PageNumber;
  publicationDate : option string;
  bookUrl : string;
  ISBN : option string;
  description : option string;
  publisher : string;
  licence : option string;
  thumnail : option string
}.

Definition defaultBookRecord : BookRecord :=
  {| title := ""; language := None; authors := []; nbPages := None;
     publicationDate := None; bookUrl := ""; ISBN := None;
     description := None; publisher := ""; licence := None;
     thumnail := None |}.

Definition setTitle (v : string) (b : BookRecord) : BookRecord :=
  {| title := v; language := language b; authors := authors b;
     nbPages := nbPages b; publicationDate := publicationDate b;
     bookUrl := bookUrl b; ISBN := ISBN b; description := description b;
     publisher := publisher b; licence := licence b; thumnail := thumnail b |}.

Definition setLanguage (v : string) (b : BookRecord) : BookRecord :=
  {| title := title b; language := Some v; authors := authors b;
     nbPages := nbPages b; publicationDate := publicationDate b;
     bookUrl := bookUrl b; ISBN := ISBN b; description := description b;
     publisher := publisher b; licence := licence b; thumnail := thumnail b |}.

Definition pushAuthor (v : string) (b : BookRecord) : BookRecord :=
  {| title := title b; language := language b; authors := authors b ++ [v];
     nbPages := nbPages b; publicationDate := publicationDate b;
     bookUrl := bookUrl b; ISBN := ISBN b; description := description b;
     publisher := publisher b; licence := licence b; thumnail := thumnail b |}.

Definition setNbPages (v : PageNumber) (b : BookRecord) : BookRecord :=
  {| title := title b; language := language b; authors := authors b;
     nbPages := Some v; publicationDate := publicationDate b;
     bookUrl := bookUrl b; ISBN := ISBN b; description := description b;
     publisher := publisher b; licence := licence b; thumnail := thumnail b |}.

Definition setPublicationDate (v : string) (b : BookRecord) : BookRecord :=
  {| title := title b; language := language b; authors := authors b;
     nbPages := nbPages b; publicationDate := Some v;
     bookUrl := bookUrl b; ISBN := ISBN b; description := description b;
     publisher := publisher b; licence := licence b; thumnail := thumnail b |}.

Definition setBookUrl (v : string) (b : BookRecord) : BookRecord :=
  {| title := title b; language := language b; authors := authors b;
     nbPages := nbPages b; publicationDate := publicationDate b;
     bookUrl := v; ISBN := ISBN b; description := description b;
     publisher := publisher b; licence := licence b; thumnail := thumnail b |}.

Definition setISBN (v : string) (b : BookRecord) : BookRecord :=
  {| title := title b; language := language b; authors := authors b;
     nbPages := nbPages b; publicationDate := publicationDate b;
     bookUrl := bookUrl b; ISBN := Some v; description := description b;
     publisher := publisher b; licence := licence b; thumnail := thumnail b |}.

Definition setDescription (v : string) (b : BookRecord) : BookRecord :=
  {| title := title b; language := language b; authors := authors b;
     nbPages := nbPages b; publicationDate := publicationDate b;
     bookUrl := bookUrl b; ISBN := ISBN b; description := Some v;
     publisher := publisher b; licence := licence b; thumnail := thumnail b |}.

Definition setPublisher (v : string) (b : BookRecord) : BookRecord :=
  {| title := title b; language := language b; authors := authors b;
     nbPages := nbPages b; publicationDate := publicationDate b;
     bookUrl := bookUrl b; ISBN := ISBN b; description := description b;
     publisher := v; licence := licence b; thumnail := thumnail b |}.

Definition setLicence (v : string) (b : BookRecord) : BookRecord :=
  {| title := title b; language := language b; authors := authors b;
     nbPages := nbPages b; publicationDate := publicationDate b;
     bookUrl := bookUrl b; ISBN := ISBN b; description := description b;
     publisher := publisher b; licence := Some v; thumnail := thumnail b |}.

Definition setThumnail (v : string) (b : BookRecord) : BookRecord :=
  {| title := title b; language := language b; authors := authors b;
     nbPages := nbPages b; publicationDate := publicationDate b;
     bookUrl := bookUrl b; ISBN := ISBN b; description := description b;
     publisher := publisher b; licence := licence b; thumnail := Some v |}.

(** A [for (const subField of subFields)] loop whose body ends in [break]
    once the guard holds: the first qualifying subfield, if any. *)
Definition firstQualifying (c : string) (subFields : list SubField) : option SubField :=
  List.find (qualifies c) subFields.

(** case '020' *)
Definition case020 (subFields : list SubField) (b : BookRecord) : BookRecord :=
  if negb (Js.truthyOpt (ISBN b)) then
    match firstQualifying "a" subFields with
    | Some sf => setISBN (Js.trim (text sf)) b
    | None => b
    end
  else b.

(** case '100' / case '700' *)
Definition authorStep (b : BookRecord) (sf : SubField) : BookRecord :=
  if qualifies "a" sf then
    let author := Js.trim (text sf) in
    if Js.truthy author && negb (existsb (String.eqb author) (authors b))
    then pushAuthor author b else b
  else b.

Definition caseAuthors (subFields : list SubField) (b : BookRecord) : BookRecord :=
  fold_left authorStep subFields b.

(** case '245': the loop keeps the last [a] and the last [b] text. *)
Definition titleStep (acc : string * string) (sf : SubField) : string * string :=
  if qualifies "a" sf then (Js.trim (text sf), snd acc)
  else if qualifies "b" sf then (fst acc, Js.trim (text sf))
  else acc.

Definition case245 (subFields : list SubField) (b : BookRecord) : BookRecord :=
  let '(title, subtitle) := fold_left titleStep subFields ("", "") in
  setTitle (if Js.truthy subtitle then title ++ ": " ++ subtitle else title) b.

(** case '260' *)
Definition publicationStep (b : BookRecord) (sf : SubField) : BookRecord :=
  if qualifies "b" sf then setPublisher (Js.trim (text sf)) b
  else if qualifies "c" sf then setPublicationDate (Js.trim (text sf)) b
  else b.

Definition case260 (subFields : list SubField) (b : BookRecord) : BookRecord :=
  fold_left publicationStep subFields b.

(** The match of [/(\d+)\s*(?:p\.?|pages?)/i]: its first group.  Both
    alternatives begin with the letter p, so the leftmost match is the
    first maximal run of digits that is followed, after optional white
    space, by [p] or [P]; the group is that whole run.  The scanner keeps
    the run read so far. *)
Inductive PageScan :=
  | NoRun
  | InDigits (run : string)
  | InSpaces (run : string).

Definition digitValue (c : ascii) : option nat :=
  let n := nat_of_ascii c in
  if ((48 <=? n) && (n <=? 57))%nat then Some (n - 48) else None.

Definition isLetterP (c : ascii) : bool :=
  Ascii.eqb c "p"%char || Ascii.eqb c "P"%char.

Fixpoint pageScan (st : PageScan) (s : string) : option string :=
  match s with
  | EmptyString => None
  | String c s' =>
      match st, digitValue c with
      | NoRun, Some _ => pageScan (InDigits (String c EmptyString)) s'
      | NoRun, None => pageScan NoRun s'
      | InDigits run, Some _ => pageScan (InDigits (run ++ String c EmptyString)) s'
      | InSpaces _, Some _ => pageScan (InDigits (String c EmptyString)) s'
      | InDigits run, None =>
          if isLetterP c then Some run
          else if Js.isSpace c then pageScan (InSpaces run) s'
          else pageScan NoRun s'
      | InSpaces run, None =>
          if isLetterP c then Some run
          else if Js.isSpace c then pageScan (InSpaces run) s'
          else pageScan NoRun s'
      end
  end.

(** The integer that a run of digits denotes in base ten. *)
Definition digitsValue (run : string) : N :=
  fold_left (fun n c => (10 * n + N.of_nat (default 0%nat (digitValue c)))%N)
            (list_ascii_of_string run) 0%N.

(** [parseInt(run, 10)] of a run of digits: exact up to [2^53]. *)
Definition parseInt (run : string) : PageNumber :=
  if (digitsValue run <=? 9007199254740992)%N then Pages (digitsValue run)
  else RoundedFrom run.

Definition pageMatch (physicalDesc : string) : option PageNumber :=
  parseInt <$> pageScan NoRun physicalDesc.

(** case '300' *)
Definition case300 (subFields : list SubField) (b : BookRecord) : BookRecord :=
  match firstQualifying "a" subFields with
  | Some sf =>
      match pageMatch (Js.trim (text sf)) with
      | Some n => setNbPages n b
      | None => b
      end
  | None => b
  end.

(** case '520' *)
Definition case520 (subFields : list SubField) (b : BookRecord) : BookRecord :=
  match firstQualifying "a" subFields with
  | Some sf => setDescription (Js.trim (text sf)) b
  | None => b
  end.

(** case '540' *)
Definition licenceStep (b : BookRecord) (sf : SubField) : BookRecord :=
  if (String.eqb (code sf) "a" || String.eqb (code sf) "f") && Js.truthy (text sf) then
    if negb (Js.truthyOpt (licence b)) then setLicence (Js.trim (text sf)) b else b
  else b.

Definition case540 (subFields : list SubField) (b : BookRecord) : BookRecord :=
  fold_left licenceStep subFields b.

(** case '546' *)
Definition case546 (subFields : list SubField) (b : BookRecord) : BookRecord :=
  match firstQualifying "a" subFields with
  | Some sf => setLanguage (Js.trim (text sf)) b
  | None => b
  end.

(** case '856': the collecting loop keeps the last [u] text, trimmed, and
    the last [z] text, trimmed and lower-cased. *)
Definition urlStep (acc : string * string) (sf : SubField) : string * string :=
  if qualifies "u" sf then (Js.trim (text sf), snd acc)
  else if qualifies "z" sf then (fst acc, Js.toLowerCase (Js.trim (text sf)))
  else acc.

Definition collectUrl (subFields : list SubField) : string * string :=
  fold_left urlStep subFields ("", "").

Definition isThumbnail (url description : string) : bool :=
  let urlLower := Js.toLowerCase url in
  Js.includes "thumbnail" description ||
  Js.includes "cover" description ||
  Js.includes "image" description ||
  Js.includes "thumbnail" urlLower ||
  Js.includes "cover" urlLower ||
  Js.includes "image" urlLower ||
  Js.includes "thumb" urlLower.

Definition case856 (subFields : list SubField) (b : BookRecord) : BookRecord :=
  let '(url, description) := collectUrl subFields in
  if Js.truthy url then
    if isThumbnail url description && negb (Js.truthyOpt (thumnail b)) then
      setThumnail url b
    else if negb (Js.truthy (bookUrl b)) then setBookUrl url b
    else b
  else b.

(** The body of the loop over the data fields: the guard on [$] and the
    [switch (tag)]. *)
Definition applyDataField (b : BookRecord) (df : DataField) : BookRecord :=
  match attrs df with
  | None => b
  | Some tag =>
      let subFields := subfields df in
      if String.eqb tag "020" then case020 subFields b
      else if String.eqb tag "100" || String.eqb tag "700" then caseAuthors subFields b
      else if String.eqb tag "245" then case245 subFields b
      else if String.eqb tag "260" then case260 subFields b
      else if String.eqb tag "300" then case300 subFields b
      else if String.eqb tag "520" then case520 subFields b
      else if String.eqb tag "540" then case540 subFields b
      else if String.eqb tag "546" then case546 subFields b
      else if String.eqb tag "856" then case856 subFields b
      else b
  end.

Definition convertToBookRecord (record : MarcRecord) : BookRecord :=
  fold_left applyDataField (datafields record) defaultBookRecord.

(* ===================================================================== *)
(** * Category Tally Engine *)
(* ===================================================================== *)

Module CounterCell.
(** The value type of [CategoryCounter]. *)
Record t := mk { count : Z; code : option string }.
End CounterCell.

(** [CategoryCounter]: the own properties of the counter object in
    enumeration order ([Object.entries]). *)
Definition CategoryCounter := list (string * CounterCell.t).

Module CategoryData.
Record t := mk {
  name : string;
  code : option string;
  count : Z;
  field : string
}.
End CategoryData.

Record ParseOptions := mkParseOptions {
  progressInterval : option nat;
  minCount : option Z
}.

(** [Object.entries] lists the own keys that are array indices first,
    in ascending numeric order, and then the other keys in the order of
    their creation.  An array index is the canonical decimal numeral of
    an integer below [2^32 - 1]. *)
Fixpoint decimalValue (acc : N) (s : string) : option N :=
  match s with
  | EmptyString => Some acc
  | String c s' =>
      match digitValue c with
      | Some d => decimalValue (10 * acc + N.of_nat d)%N s'
      | None => None
      end
  end.

Definition arrayIndex (key : string) : option N :=
  match key with
  | EmptyString => None
  | String c rest =>
      if Ascii.eqb c "0"%char && negb (String.eqb rest "") then None
      else match decimalValue 0%N key with
           | Some n => if (n <? 4294967295)%N then Some n else None
           | None => None
           end
  end.

(** The place of a new own property in the enumeration. *)
Fixpoint insertIndexed (i : N) (entry : string * CounterCell.t)
    (counter : CategoryCounter) : CategoryCounter :=
  match counter with
  | [] => [entry]
  | (k, cell) :: rest =>
      match arrayIndex k with
      | Some j =>
          if (j <? i)%N then (k, cell) :: insertIndexed i entry rest
          else entry :: counter
      | None => entry :: counter
      end
  end.

Definition insertEntry (entry : string * CounterCell.t) (counter : CategoryCounter)
    : CategoryCounter :=
  match arrayIndex (fst entry) with
  | Some i => insertIndexed i entry counter
  | None => (counter ++ [entry])%list
  end.

(** [counter[term].count++] on an own property. *)
Fixpoint increment (term : string) (counter : CategoryCounter) : CategoryCounter :=
  match counter with
  | [] => []
  | (k, cell) :: rest =>
      if String.eqb k term
      then (k, CounterCell.mk (CounterCell.count cell + 1) (CounterCell.code cell)) :: rest
      else (k, cell) :: increment term rest
  end.

Definition hasOwnKey (term : string) (counter : CategoryCounter) : bool :=
  existsb (String.eqb term) (List.map fst counter).

(** The bodies of [extractSubjectTerms] and [extractKeywords] for one
    term: [if (!counter[term]) counter[term] = {count: 0}] and then
    [counter[term].count++].  For a term that is no own key but the name
    of a member of [Object.prototype], the read finds that member: no
    cell is created, and the increment is written on the member, not in
    the counter. *)
Definition bump (term : string) (counter : CategoryCounter) : CategoryCounter :=
  if hasOwnKey term counter then increment term counter
  else if Js.inheritedName term then counter
  else insertEntry (term, CounterCell.mk 1 None) counter.

Definition tallyStep (counter : CategoryCounter) (sf : SubField) : CategoryCounter :=
  if qualifies "a" sf then
    let term := Js.trim (text sf) in
    if Js.truthy term then bump term counter else counter
  else counter.

Definition extractSubjectTerms (subFields : list SubField) (counter : CategoryCounter)
    : CategoryCounter :=
  fold_left tallyStep subFields counter.

Definition extractKeywords (subFields : list SubField) (counter : CategoryCounter)
    : CategoryCounter :=
  fold_left tallyStep subFields counter.

Record ParserState := mkParserState {
  subjectTerms : CategoryCounter;
  keywords : CategoryCounter;
  totalRecords : nat
}.

Definition tallyField (ps : ParserState) (df : DataField) : ParserState :=
  match attrs df with
  | None => ps
  | Some tag =>
      if String.eqb tag "650" then
        mkParserState (extractSubjectTerms (subfields df) (subjectTerms ps))
                      (keywords ps) (totalRecords ps)
      else if String.eqb tag "653" then
        mkParserState (subjectTerms ps)
                      (extractKeywords (subfields df) (keywords ps)) (totalRecords ps)
      else ps
  end.

Definition extractCategories (record : MarcRecord) (ps : ParserState) : ParserState :=
  fold_left tallyField (datafields record) ps.

(** [Array.prototype.sort(compareFn)] belongs to the engine.  ECMAScript
    requires it to be stable; it is computed here by stable insertion: an
    element moves behind another one only when [compareFn] on the pair is
    positive. *)
Fixpoint insertSorted {A : Type} (compareFn : A -> A -> Z) (x : A) (l : list A) : list A :=
  match l with
  | [] => [x]
  | y :: l' =>
      if (0 <? compareFn x y)%Z then y :: insertSorted compareFn x l'
      else x :: l
  end.

Definition jsSort {A : Type} (compareFn : A -> A -> Z) (l : list A) : list A :=
  fold_right (insertSorted compareFn) [] l.

Definition toCategoryData (field : string) (entry : string * CounterCell.t)
    : CategoryData.t :=
  CategoryData.mk (fst entry) (CounterCell.code (snd entry))
                  (CounterCell.count (snd entry)) field.

(** [this.options.minCount || 0] *)
Definition minCountOf (options : ParseOptions) : Z :=
  match minCount options with
  | Some n => n
  | None => 0%Z
  end.

(** The comparator [(a, b) => b.count - a.count] *)
Definition byCountDescending (a b : CategoryData.t) : Z :=
  (CategoryData.count b - CategoryData.count a)%Z.

Definition convertToSortedArray (options : ParseOptions)
    (counter : CategoryCounter) (field : string) : list CategoryData.t :=
  jsSort byCountDescending
    (List.filter (fun category => (minCountOf options <=? CategoryData.count category)%Z)
       (List.map (toCategoryData field) counter)).

Record CategoryResults := mkCategoryResults {
  res_subjectTerms : list CategoryData.t;
  res_keywords : list CategoryData.t;
  res_totalRecords : nat;
  res_processingTime : Z
}.

(** [generateResults]; [now] is the value of [Date.now()] at the call. *)
Definition generateResults (options : ParseOptions) (startTime now : Z)
    (ps : ParserState) : CategoryResults :=
  {| res_subjectTerms := convertToSortedArray options (subjectTerms ps) "650";
     res_keywords := convertToSortedArray options (keywords ps) "653";
     res_totalRecords := totalRecords ps;
     res_processingTime := (now - startTime)%Z |}.

(* ===================================================================== *)
(** * Single-criterion extraction and the multi-category matcher *)
(* ===================================================================== *)

Module ExtractOptions.
Record t := mk { field : string; name : string }.
End ExtractOptions.

Module BulkExtractItem.
Record t := mk { name : string; count : Z; field : string }.
End BulkExtractItem.

(** The inner loop of both match predicates: some subfield [a] with text
    whose trimmed value is [name]. *)
Definition subfieldNamed (name : string) (sf : SubField) : bool :=
  qualifies "a" sf && String.eqb (Js.trim (text sf)) name.

Definition recordMatchesCriteria (record : MarcRecord) (options : ExtractOptions.t)
    : bool :=
  existsb (fun dataField =>
             hasTag (ExtractOptions.field options) dataField &&
             existsb (subfieldNamed (ExtractOptions.name options)) (subfields dataField))
          (datafields record).

Definition recordMatchesCategoryFilter (record : MarcRecord) (field name : string)
    : bool :=
  existsb (fun dataField =>
             hasTag field dataField &&
             existsb (subfieldNamed name) (subfields dataField))
          (datafields record).

(** The key [`${category.field}:${category.name}`] *)
Definition categoryKey (category : BulkExtractItem.t) : string :=
  BulkExtractItem.field category ++ ":" ++ BulkExtractItem.name category.

(** The validation that [bulkExtractRecords] performs before the scan:
    [['650', '653'].includes(category.field)]. *)
Definition validField (category : BulkExtractItem.t) : bool :=
  String.eqb (BulkExtractItem.field category) "650" ||
  String.eqb (BulkExtractItem.field category) "653".

Definition initBuckets (categories : list BulkExtractItem.t)
    : gmap string (list BookRecord) :=
  fold_left (fun buckets category => <[categoryKey category := []]> buckets)
            categories ∅.

Section Extraction.

(** The XML parser of one isolated fragment ([parseString] of xml2js with
    the options of the sources): [None] is the [err] branch. *)
Variable parseFragment : string -> option MarcRecord.

(** [processRecord] *)
Definition processRecord (recordXml : string) (ps : ParserState) : ParserState :=
  match parseFragment recordXml with
  | None => ps
  | Some record =>
      let ps' := extractCategories record ps in
      mkParserState (subjectTerms ps') (keywords ps') (S (totalRecords ps'))
  end.

(** [processXmlFile]: the scan whose callback is [processRecord]; the
    result is the remaining buffer, the parser state and [recordCount]. *)
Definition processXmlFile (chunks : list string) (ps : ParserState)
    : option (string * ParserState * nat) :=
  scanStream processRecord chunks ps.

(** [parseFile] up to [generateResults]: [resetCounters], then the scan. *)
Definition tallyFile (chunks : list string) : option ParserState :=
  match processXmlFile chunks (mkParserState [] [] 0) with
  | Some (_, ps, _) => Some ps
  | None => None
  end.

Definition processRecordForExtraction (options : ExtractOptions.t)
    (recordXml : string) (matchingRecords : list BookRecord) : list BookRecord :=
  match parseFragment recordXml with
  | None => matchingRecords
  | Some record =>
      if recordMatchesCriteria record options
      then matchingRecords ++ [convertToBookRecord record]
      else matchingRecords
  end.

(** [extractRecords]: the [matchingRecords] of its result (the other
    properties are the two options, the length of this list and clock
    readings). *)
Definition extractRecords (chunks : list string) (options : ExtractOptions.t)
    : option (list BookRecord) :=
  match scanStream (processRecordForExtraction options) chunks [] with
  | Some (_, matchingRecords, _) => Some matchingRecords
  | None => None
  end.

Definition matchCategory (record : MarcRecord)
    (buckets : gmap string (list BookRecord)) (category : BulkExtractItem.t)
    : gmap string (list BookRecord) :=
  if recordMatchesCategoryFilter record (BulkExtractItem.field category)
                                 (BulkExtractItem.name category)
  then
    let bookRecord := convertToBookRecord record in
    let key := categoryKey category in
    match buckets !! key with
    | Some bucket => <[key := (bucket ++ [bookRecord])%list]> buckets
    | None => buckets
    end
  else buckets.

Definition processRecordForAllCategories (categories : list BulkExtractItem.t)
    (recordXml : string) (buckets : gmap string (list BookRecord))
    : gmap string (list BookRecord) :=
  match parseFragment recordXml with
  | None => buckets
  | Some record => fold_left (matchCategory record) categories buckets
  end.

Definition extractAllCategoriesInSinglePass (chunks : list string)
    (categories : list BulkExtractItem.t)
    : option (gmap string (list BookRecord)) :=
  match scanStream (processRecordForAllCategories categories) chunks
                   (initBuckets categories) with
  | Some (_, buckets, _) => Some buckets
  | None => None
  end.

End Extraction.

(* ===================================================================== *)
(** * Download Index *)
(* ===================================================================== *)

Inductive DownloadState := pending | downloading | error | done.

Module IndexEntry.
Record t := mk {
  record : BookRecord;
  downloadState : DownloadState;
  filePath : option string;
  errorMessage : option string;
  downloadedAt : option string
}.
End IndexEntry.

(** [DownloadIndex]: the index object, keyed by sanitized ISBN. *)
Abbreviation DownloadIndex := (gmap string IndexEntry.t).

Definition isTransient (entry : IndexEntry.t) : bool :=
  match IndexEntry.downloadState entry with
  | downloading | error => true
  | pending | done => false
  end.

(** The body of the reset loop of [loadOrCreateIndex] on one entry. *)
Definition resetEntry (entry : IndexEntry.t) : IndexEntry.t :=
  if isTransient entry then
    IndexEntry.mk (IndexEntry.record entry) pending (IndexEntry.filePath entry)
      (if Js.truthyOpt (IndexEntry.errorMessage entry) then None
       else IndexEntry.errorMessage entry)
      (IndexEntry.downloadedAt entry)
  else entry.

(** The reset loop: the index after it, and [resetCount]. *)
Definition resetTransientStates (index : DownloadIndex) : DownloadIndex * nat :=
  (resetEntry <$> index,
   length (List.filter (fun kv => isTransient (snd kv)) (map_to_list index))).

(** [loadOrCreateIndex]: [persisted] is [None] when [index.json] does not
    exist, [Some None] when reading or parsing it fails, and otherwise the
    parsed index. *)
Definition loadOrCreateIndex (persisted : option (option DownloadIndex)) : DownloadIndex :=
  match persisted with
  | Some (Some index) => fst (resetTransientStates index)
  | Some None => ∅
  | None => ∅
  end.

Definition isAlphaNumeric (c : ascii) : bool :=
  let n := nat_of_ascii c in
  (((48 <=? n) && (n <=? 57)) || ((65 <=? n) && (n <=? 90)) ||
   ((97 <=? n) && (n <=? 122)))%nat.

(** [isbn.replace(/[^a-zA-Z0-9]/g, '')] *)
Fixpoint sanitizeISBN (isbn : string) : string :=
  match isbn with
  | EmptyString => EmptyString
  | String c rest =>
      if isAlphaNumeric c then String c (sanitizeISBN rest) else sanitizeISBN rest
  end.

Definition withRecord (record : BookRecord) (entry : IndexEntry.t) : IndexEntry.t :=
  IndexEntry.mk record (IndexEntry.downloadState entry) (IndexEntry.filePath entry)
                (IndexEntry.errorMessage entry) (IndexEntry.downloadedAt entry).

(** The body of the loop of [processJsonFile] over [matchingRecords].
    The test [!this.index[isbn]] also finds a member inherited from
    [Object.prototype]: for such a key that is no own key, no entry is
    created, and the record is written on the inherited member, not in
    the index. *)
Definition ingestRecord (index : DownloadIndex) (record : BookRecord) : DownloadIndex :=
  match ISBN record with
  | Some rawIsbn =>
      if Js.truthy rawIsbn && Js.truthy (bookUrl record) then
        let isbn := sanitizeISBN rawIsbn in
        match index !! isbn with
        | Some entry => <[isbn := withRecord record entry]> index
        | None =>
            if Js.inheritedName isbn then index
            else <[isbn := IndexEntry.mk record pending None None None]> index
        end
      else index
  | None => index
  end.

(** [processJsonFile]: [content] is [None] when the file cannot be read or
    parsed (the [catch] branch), otherwise its [matchingRecords]. *)
Definition processJsonFile (content : option (list BookRecord)) (index : DownloadIndex)
    : DownloadIndex :=
  match content with
  | Some matchingRecords => fold_left ingestRecord matchingRecords index
  | None => index
  end.

(* ===================================================================== *)
(** * Download Manager: fetch with redirects *)
(* ===================================================================== *)

Module DownloadResult.
Record t := mk {
  isbn : string;
  success : bool;
  filePath : option string;
  errorMessage : option string;
  downloadTime : option Z;
  fileSize : option nat
}.
End DownloadResult.

(** What one [client.get] yields: a response (status code and message,
    [Location] header), the ['error'] event, the ['timeout'] event, or an
    exception thrown while the request is set up. *)
Inductive HttpOutcome :=
  | Response (statusCode : option nat) (statusMessage : string)
             (location : option string)
  | RequestError (message : string)
  | RequestTimeout
  | Thrown (message : string).

(** What piping the body into the write stream yields: ['finish'] (with
    the size when [stat] succeeds), ['error'], or neither of the two
    events (the response breaks off and the stream is never ended). *)
Inductive WriteOutcome :=
  | Finished (size : option nat)
  | WriteFailed (message : string)
  | NoEvent.

(** How the promise of a fetch ends: it is resolved with a result, or it
    is never settled. *)
Inductive Settlement :=
  | Settled (result : DownloadResult.t)
  | NeverSettled.

Definition maxRedirects : nat := 10.

Definition isRedirectStatus (statusCode : option nat) : bool :=
  match statusCode with
  | Some n => negb (n =? 0)%nat &&
              ((n =? 301) || (n =? 302) || (n =? 307) || (n =? 308))%nat
  | None => false
  end.

Definition showStatus (statusCode : option nat) : string :=
  match statusCode with
  | Some n => pretty n
  | None => "undefined"
  end.

Definition failure (isbn message : string) : DownloadResult.t :=
  DownloadResult.mk isbn false None (Some message) None None.

Section Fetch.

(** The network, the resolution of a [Location] against the current URL
    ([new URL(location, url).toString()], [None] when [new URL] throws),
    the file system behind the write stream (destination path, then URL
    whose body is piped) and the clock at completion. *)
Variable httpGet : string -> HttpOutcome.
Variable resolveUrl : string -> string -> option string.
Variable pipeToFile : string -> string -> WriteOutcome.
Variable now : Z.

(** [downloadWithRedirects].  The recursion of the source is on
    [redirectCount + 1], cut off by the test against [maxRedirects];
    [hops] is the structural measure of that recursion and [None] is its
    exhaustion.  The response callback runs outside the [try]: when
    [new URL(location, url)] throws there, and when the write stream
    emits neither ['finish'] nor ['error'], nothing resolves the
    promise, and the [await] on it never comes back. *)
Fixpoint downloadWithRedirectsFrom (hops : nat) (urlString filePath isbn : string)
    (startTime : Z) (redirectCount : nat) : option Settlement :=
  if (maxRedirects <? redirectCount)%nat then
    Some (Settled (failure isbn "Too many redirects (maximum 10)"))
  else
    match httpGet urlString with
    | Response statusCode statusMessage location =>
        if isRedirectStatus statusCode then
          match location with
          | Some target =>
              if Js.truthy target then
                match resolveUrl target urlString with
                | Some redirectUrl =>
                    match hops with
                    | S hops' =>
                        downloadWithRedirectsFrom hops' redirectUrl
                          filePath isbn startTime (S redirectCount)
                    | O => None
                    end
                | None => Some NeverSettled
                end
              else Some (Settled (failure isbn
                                    ("HTTP " ++ showStatus statusCode ++
                                     ": Redirect without location header")))
          | None => Some (Settled (failure isbn
                                     ("HTTP " ++ showStatus statusCode ++
                                      ": Redirect without location header")))
          end
        else if match statusCode with Some 200 => true | _ => false end then
          match pipeToFile filePath urlString with
          | Finished size =>
              Some (Settled (DownloadResult.mk isbn true (Some filePath) None
                               (Some (now - startTime)%Z) size))
          | WriteFailed message =>
              Some (Settled (failure isbn ("Write error: " ++ message)))
          | NoEvent => Some NeverSettled
          end
        else Some (Settled (failure isbn ("HTTP " ++ showStatus statusCode ++ ": " ++
                                          statusMessage)))
    | RequestError message =>
        Some (Settled (failure isbn ("Request error: " ++ message)))
    | RequestTimeout => Some (Settled (failure isbn "Request timeout"))
    | Thrown message => Some (Settled (failure isbn ("Download error: " ++ message)))
    end.

Definition downloadWithRedirects (urlString filePath isbn : string)
    (startTime : Z) (redirectCount : nat) : option Settlement :=
  downloadWithRedirectsFrom (S maxRedirects - redirectCount)
    urlString filePath isbn startTime redirectCount.

End Fetch.

(** [updateIndexEntry]; [timestamp] is [new Date().toISOString()]. *)
Definition updateIndexEntry (timestamp : string) (isbn : string)
    (result : DownloadResult.t) (index : DownloadIndex) : DownloadIndex :=
  match index !! isbn with
  | Some entry =>
      if DownloadResult.success result then
        <[isbn := IndexEntry.mk (IndexEntry.record entry) done
                    (DownloadResult.filePath result) None (Some timestamp)]> index
      else
        <[isbn := IndexEntry.mk (IndexEntry.record entry) error
                    (IndexEntry.filePath entry)
                    (DownloadResult.errorMessage result)
                    (IndexEntry.downloadedAt entry)]> index
  | None => index
  end.

(* ===================================================================== *)
(** * Notions used to state the properties *)
(* ===================================================================== *)

(** Two runs of the scanner, with callbacks acting on states of types [A]
    and [B], end alike: same remaining buffer, same record count, related
    callback states (or both exhaust their fuel). *)
Definition related {A B : Type} (R : A -> B -> Prop) {T : Type}
    (x : option (T * A * nat)) (y : option (T * B * nat)) : Prop :=
  match x, y with
  | Some (t1, a, n1), Some (t2, b, n2) => t1 = t2 /\ n1 = n2 /\ R a b
  | None, None => True
  | _, _ => False
  end.

(** The text rebuilt from a list of (skipped text, fragment) pairs. *)
Definition interleaved (parts : list (string * string)) : string :=
  Js.concat (List.map (fun part => fst part ++ snd part) parts).

(** A fragment runs from an opening marker to a closing marker. *)
Definition wellFormedFragment (fragment : string) : Prop :=
  exists body, fragment = openTag ++ body ++ closeTag.

(** A text occurs in another. *)
Definition occursIn (needle s : string) : Prop :=
  exists before after, s = before ++ needle ++ after.

(** The text ends with the closing marker and holds it nowhere before. *)
Definition endsAtFirstClose (s : string) : Prop :=
  (exists x, s = x ++ closeTag) /\
  forall a b, s = a ++ closeTag ++ b -> b = "".

(** What one turn of the scanner's loop takes off the buffer: the text up
    to and including the next closing marker.  Either it holds an opening
    marker, and the text from its last opening marker on is dispatched,
    the text in front of that being skipped; or it holds none, and the
    whole of it is skipped. *)
Inductive Segment :=
  | Dispatched (skipped fragment : string)
  | Skipped (text : string).

Definition segmentText (segment : Segment) : string :=
  match segment with
  | Dispatched skipped fragment => skipped ++ fragment
  | Skipped text => text
  end.

Definition segmentFragment (segment : Segment) : option string :=
  match segment with
  | Dispatched _ fragment => Some fragment
  | Skipped _ => None
  end.

Definition validSegment (segment : Segment) : Prop :=
  endsAtFirstClose (segmentText segment) /\
  match segment with
  | Dispatched skipped fragment =>
      (exists rest, fragment = openTag ++ rest) /\
      forall a b, fragment = a ++ openTag ++ b -> a = ""
  | Skipped text => ~ occursIn openTag text
  end.

(** A stand-in for the fragment parser in the examples: the text between
    the two markers becomes subfield [a] of a single field 650. *)
Definition sampleParseFragment (fragment : string) : option MarcRecord :=
  Some (mkMarcRecord
          [mkDataField (Some "650")
             [mkSubField "a"
                (Js.substring (String.length openTag)
                              (String.length fragment - String.length closeTag)
                              fragment)]]).

Definition sampleChunks : list string :=
  ["<marc:collection><marc:record>Education</marc:re";
   "cord><marc:record>History</marc:record><marc:record>Education</marc:record><marc:rec"].

Definition sampleCategories : list BulkExtractItem.t :=
  [BulkExtractItem.mk "Education" 2 "650"; BulkExtractItem.mk "History" 1 "650";
   BulkExtractItem.mk "Education" 0 "653"].

(** FieldTree Decoder, in the words of the specification:
    [SubfieldValues(fieldTag, code)] is the sequence, in document order, of
    the texts of the subfields with that code (and a text) under the data
    fields with that tag. *)
Definition subfieldValues (tag c : string) (record : MarcRecord) : list string :=
  List.flat_map
    (fun dataField =>
       if hasTag tag dataField
       then List.map text (List.filter (qualifies c) (subfields dataField))
       else [])
    (datafields record).

(** The last element of a list of texts, trimmed. *)
Definition lastTrimmed (values : list string) : option string :=
  Js.trim <$> last values.

(** A marker occurs in a text ignoring case: some span of the text equals
    the marker up to the case of its letters. *)
Definition occursIgnoringCase (marker s : string) : Prop :=
  exists before span after,
    s = before ++ span ++ after /\
    Js.toLowerCase span = Js.toLowerCase marker.

(** The URL and description that a field 856 occurrence pairs: the
    trimmed text of its last subfield [u], and of its last subfield [z]
    (each the empty string when there is none). *)
Definition pairedUrl (subFields : list SubField) : string :=
  default "" (lastTrimmed (List.map text (List.filter (qualifies "u") subFields))).

Definition pairedDescription (subFields : list SubField) : string :=
  default "" (lastTrimmed (List.map text (List.filter (qualifies "z") subFields))).

(** The classification that [case856] computes for an occurrence. *)
Definition classifiedAsThumbnail (subFields : list SubField) : bool :=
  isThumbnail (fst (collectUrl subFields)) (snd (collectUrl subFields)).

(** A record with a repeated field 520. *)
Definition repeatedDescriptionRecord : MarcRecord :=
  mkMarcRecord
    [mkDataField (Some "020") [mkSubField "a" "9780472057627"];
     mkDataField (Some "020") [mkSubField "a" "9780000000000"];
     mkDataField (Some "520") [mkSubField "a" "First summary"];
     mkDataField (Some "520") [mkSubField "a" "Second summary"]].

(** A field 856 occurrence whose description, not its URL, holds the
    marker "thumb". *)
Definition thumbDescriptionField : list SubField :=
  [mkSubField "u" "http://example.org/book.pdf"; mkSubField "z" "Thumb view"].

(** A field 856 occurrence whose URL holds the marker "cover". *)
Definition coverUrlField : list SubField :=
  [mkSubField "u" "http://example.org/Cover.png"; mkSubField "z" "Front"].



(** A record that passes the guard of [processJsonFile]. *)
Definition ingestible (record : BookRecord) : bool :=
  Js.truthyOpt (ISBN record) && Js.truthy (bookUrl record).

Definition sampleBook (isbn url : string) : BookRecord :=
  {| title := "Atlas"; language := None; authors := []; nbPages := None;
     publicationDate := None; bookUrl := url; ISBN := Some isbn;
     description := None; publisher := ""; licence := None; thumnail := None |}.

Definition sampleIndex : DownloadIndex :=
  <["9780472057627" :=
      IndexEntry.mk (sampleBook "9780472057627" "http://example.org/a.pdf") error
                    None (Some "Request timeout") None]>
  (<["9780000000001" :=
      IndexEntry.mk (sampleBook "9780000000001" "http://example.org/b.pdf") done
                    (Some "pdfs/9780000000001.pdf") None
                    (Some "2025-01-01T00:00:00.000Z")]> ∅).




(** A network for the examples: ["loop"] redirects to itself for ever;
    any other URL of fewer than ten characters redirects to itself
    extended by one character; the others answer 200. *)
Definition sampleHttpGet (url : string) : HttpOutcome :=
  if String.eqb url "loop" then Response (Some 301) "Moved Permanently" (Some "loop")
  else if (String.length url <? 10)%nat
       then Response (Some 302) "Found" (Some (url ++ "a"))
       else Response (Some 200) "OK" None.

Definition sampleResolveUrl (target base : string) : option string := Some target.

Definition samplePipeToFile (filePath url : string) : WriteOutcome :=
  Finished (Some 1024).


(** The text that each occurrence of a field offers to a first-wins loop:
    for every data field with the tag, in document order, the text of its
    first subfield with the code (and a text), when it has one. *)
Definition firstPerOccurrence (tag c : string) (record : MarcRecord) : list string :=
  List.flat_map
    (fun dataField =>
       if hasTag tag dataField
       then match firstQualifying c (subfields dataField) with
            | Some sf => [text sf]
            | None => []
            end
       else [])
    (datafields record).

(* ===================================================================== *)
(** * Further model: the rest of the parser and of the download manager *)
(* ===================================================================== *)

(** [counter[term]]'s count, and 0 when the counter has no such key. *)
Fixpoint counterCount (term : string) (counter : CategoryCounter) : Z :=
  match counter with
  | [] => 0%Z
  | (k, cell) :: rest =>
      if String.eqb k term then CounterCell.count cell else counterCount term rest
  end.

(** How many of the texts are, once trimmed, the given name. *)
Definition occurrences (name : string) (values : list string) : nat :=
  length (List.filter (fun v => String.eqb (Js.trim v) name) values).

(** The records that the fragment parser makes of the fragments it
    accepts, in order. *)
Definition parsedRecords (parseFragment : string -> option MarcRecord)
    (fragments : list string) : list MarcRecord :=
  omap parseFragment fragments.

Section ParseFile.

Variable parseFragment : string -> option MarcRecord.


End ParseFile.

(** What the tally keeps true of a counter: no key twice, no empty key,
    no key that is the name of a member of [Object.prototype], every
    count at least 1, and no [code] (the sources never set it). *)
Definition counterInvariant (counter : CategoryCounter) : Prop :=
  List.NoDup (List.map fst counter) /\
  Forall (fun kv => fst kv <> "" /\ (1 <= CounterCell.count (snd kv))%Z /\
                    CounterCell.code (snd kv) = None /\
                    Js.inheritedName (fst kv) = false) counter.

(** The tags that the switch of [convertToBookRecord] has a case for. *)
Definition mappedTags : list string :=
  ["020"; "100"; "700"; "245"; "260"; "300"; "520"; "540"; "546"; "856"].

(** A data field that the mapper looks at: it has attributes and its tag
    is one of the cases. *)
Definition relevantField (df : DataField) : bool :=
  match attrs df with
  | Some tag => existsb (String.eqb tag) mappedTags
  | None => false
  end.

(** The title that one field 245 occurrence gives: its last subfield [a]
    and its last subfield [b], trimmed, joined by ": " when the second is
    not empty. *)
Definition titleOf (subFields : list SubField) : string :=
  let main :=
    default "" (lastTrimmed (List.map text (List.filter (qualifies "a") subFields))) in
  let subtitle :=
    default "" (lastTrimmed (List.map text (List.filter (qualifies "b") subFields))) in
  if Js.truthy subtitle then main ++ ": " ++ subtitle else main.

(** The test of [case '540'] on a subfield. *)
Definition qualifiesLicence (sf : SubField) : bool :=
  (String.eqb (code sf) "a" || String.eqb (code sf) "f") && Js.truthy (text sf).

(** The trimmed texts that the fields 540 offer as licence, in document
    order. *)
Definition licenceValues (record : MarcRecord) : list string :=
  List.flat_map
    (fun dataField =>
       if hasTag "540" dataField
       then List.map (fun sf => Js.trim (text sf))
                     (List.filter qualifiesLicence (subfields dataField))
       else [])
    (datafields record).

(** What a slot guarded by [if (!slot)] ends with when it is offered the
    values in order: the first non-empty one; the empty string when all
    of them are empty; nothing when there is none. *)
Definition firstFilled (values : list string) : option string :=
  match List.find Js.truthy values with
  | Some v => Some v
  | None => match values with [] => None | _ :: _ => Some "" end
  end.

(** The trimmed subfield [a] texts of the fields 100 and 700. *)
Definition authorNames (record : MarcRecord) : list string :=
  (List.map Js.trim (subfieldValues "100" "a" record)
   ++ List.map Js.trim (subfieldValues "700" "a" record))%list.

(** [firstFilled], for a slot that already holds [current]. *)
Definition offered (current : option string) (values : list string) : option string :=
  if Js.truthyOpt current then current
  else match List.find Js.truthy values with
       | Some v => Some v
       | None => match values with [] => current | _ :: _ => Some "" end
       end.

(* ===================================================================== *)
(** * Download Manager: one item, the queue, the retry sweep *)
(* ===================================================================== *)

(** What [existsSync] and [stat] find at a path: no file, a file of some
    size, or a file on which [stat] throws. *)
Inductive FileProbe :=
  | Absent
  | Present (size : nat)
  | StatFails (message : string).

(** How [downloadFile] ends: its promise resolves with a result, or it
    rejects, or it is never settled (the index is what the call has made
    of it); [OutOfHops] is the exhaustion of the measure of
    [downloadWithRedirectsFrom]. *)
Inductive Attempt :=
  | Resolved (index : DownloadIndex) (result : DownloadResult.t)
  | Rejected (message : string)
  | Unsettled (index : DownloadIndex)
  | OutOfHops.

Definition withState (state : DownloadState) (entry : IndexEntry.t) : IndexEntry.t :=
  IndexEntry.mk (IndexEntry.record entry) state (IndexEntry.filePath entry)
                (IndexEntry.errorMessage entry) (IndexEntry.downloadedAt entry).

(** [Object.keys(this.index)]: the own keys of the index.  The order is
    that of the map, not the insertion order of the engine; the queue
    properties below are shown not to depend on it. *)
Definition objectKeys (index : DownloadIndex) : list string :=
  (map_to_list index).*1.

Definition hasState (state : DownloadState) (index : DownloadIndex) (isbn : string)
    : bool :=
  match index !! isbn with
  | Some entry =>
      match IndexEntry.downloadState entry, state with
      | pending, pending | downloading, downloading
      | error, error | done, done => true
      | _, _ => false
      end
  | None => false
  end.

(** The filter of [executeDownloads]:
    [entry.downloadState === 'pending' && entry.record.bookUrl]. *)
Definition isQueued (index : DownloadIndex) (isbn : string) : bool :=
  match index !! isbn with
  | Some entry =>
      match IndexEntry.downloadState entry with
      | pending => Js.truthy (bookUrl (IndexEntry.record entry))
      | _ => false
      end
  | None => false
  end.

(** The queue that [executeDownloads] builds. *)
Definition pendingDownloads (index : DownloadIndex) : list string :=
  List.filter (isQueued index) (objectKeys index).

Record DownloadProgress := mkDownloadProgress {
  total : nat;
  completed : nat;
  failed : nat;
  pendingCount : nat;
  downloadingCount : nat
}.

Definition stateIs (state : DownloadState) (entry : IndexEntry.t) : bool :=
  match IndexEntry.downloadState entry, state with
  | pending, pending | downloading, downloading
  | error, error | done, done => true
  | _, _ => false
  end.

(** [getProgress] ([pendingCount] and [downloadingCount] are its
    [pending] and [downloading]). *)
Definition getProgress (index : DownloadIndex) : DownloadProgress :=
  let entries := (map_to_list index).*2 in
  {| total := length entries;
     completed := length (List.filter (stateIs done) entries);
     failed := length (List.filter (stateIs error) entries);
     pendingCount := length (List.filter (stateIs pending) entries);
     downloadingCount := length (List.filter (stateIs downloading) entries) |}.

(** Where a worker's run leaves the manager: the index, what is left of
    [this.downloadQueue], and whether the worker has returned ([false]:
    it never gets past a download whose promise is never settled). *)
Record WorkerRun := mkWorkerRun {
  finalIndex : DownloadIndex;
  remainingQueue : list string;
  returns : bool
}.

Section Download.

Variable httpGet : string -> HttpOutcome.
Variable resolveUrl : string -> string -> option string.
Variable pipeToFile : string -> string -> WriteOutcome.
Variable probeFile : string -> FileProbe.

(** [join(this.options.destinationFolder, filename)] *)
Variable joinPath : string -> string -> string.
Variable destinationFolder : string.

(** [downloadFile]; [startTime] and [now] are the readings of
    [Date.now()] at its start and at its completion.  For a key that is
    no own key of the index, [this.index[isbn]] is [undefined], or, for
    the name of a member of [Object.prototype], that member, on which
    reading [record.bookUrl] throws. *)
Definition downloadFile (startTime now : Z) (index : DownloadIndex) (isbn : string)
    : Attempt :=
  match index !! isbn with
  | None =>
      if Js.inheritedName isbn
      then Rejected "Cannot read properties of undefined (reading 'bookUrl')"
      else Resolved index (failure isbn "No download URL available")
  | Some entry =>
      if negb (Js.truthy (bookUrl (IndexEntry.record entry))) then
        Resolved index (failure isbn "No download URL available")
      else
        let filePath := joinPath destinationFolder (isbn ++ ".pdf") in
        let fetch :=
          match downloadWithRedirects httpGet resolveUrl pipeToFile now
                  (bookUrl (IndexEntry.record entry)) filePath isbn startTime 0 with
          | Some (Settled result) =>
              Resolved (<[isbn := withState downloading entry]> index) result
          | Some NeverSettled =>
              Unsettled (<[isbn := withState downloading entry]> index)
          | None => OutOfHops
          end in
        match probeFile filePath with
        | StatFails message => Rejected message
        | Present size =>
            if (0 <? size)%nat then
              Resolved index
                (DownloadResult.mk isbn true (Some filePath) None
                   (Some (now - startTime)%Z) None)
            else fetch
        | Absent => fetch
        end
  end.

(** The body of the loop of [processDownloadQueue] after the dequeue, as
    far as it gets: the [try] block, and the [catch] that only logs;
    [timestamp] is the time stamp that [updateIndexEntry] reads.  (The
    counter [currentDownloads] is written here and read nowhere.) *)
Definition processItem (startTime now : Z) (timestamp : string)
    (index : DownloadIndex) (isbn : string) : DownloadIndex :=
  match downloadFile startTime now index isbn with
  | Resolved index' result => updateIndexEntry timestamp isbn result index'
  | Rejected _ => index
  | Unsettled index' => index'
  | OutOfHops => index
  end.

(** Whether the [await] on [downloadFile] ever comes back. *)
Definition itemSettles (startTime now : Z) (index : DownloadIndex) (isbn : string)
    : bool :=
  match downloadFile startTime now index isbn with
  | Unsettled _ => false
  | _ => true
  end.

(** [processDownloadQueue] run by one worker.  The loop ends on the empty
    queue, and also, by [if (!isbn) break], when the key it dequeues is
    the empty string; it never gets past an item whose download is
    never settled.  [startTime], [now] and [timestamp] give the clock
    readings of the successive items: those of the first item at [0]. *)
Fixpoint processDownloadQueue (startTime now : nat -> Z) (timestamp : nat -> string)
    (downloadQueue : list string) (index : DownloadIndex) : WorkerRun :=
  match downloadQueue with
  | [] => mkWorkerRun index [] true
  | isbn :: rest =>
      if Js.truthy isbn then
        if itemSettles (startTime 0) (now 0) index isbn then
          processDownloadQueue (fun i => startTime (S i)) (fun i => now (S i))
            (fun i => timestamp (S i)) rest
            (processItem (startTime 0) (now 0) (timestamp 0) index isbn)
        else
          mkWorkerRun (processItem (startTime 0) (now 0) (timestamp 0) index isbn)
                      rest false
      else mkWorkerRun index rest true
  end.

(** [executeDownloads] with [concurrency] 1: the queue is built from the
    index and a single worker runs it. *)
Definition executeDownloads (startTime now : nat -> Z) (timestamp : nat -> string)
    (index : DownloadIndex) : WorkerRun :=
  match pendingDownloads index with
  | [] => mkWorkerRun index [] true
  | downloadQueue =>
      processDownloadQueue startTime now timestamp downloadQueue index
  end.

(** [retryFailedDownloads]; [downloadQueue] is [this.downloadQueue] as it
    is when the sweep starts. *)
Definition retryFailedDownloads (startTime now : nat -> Z) (timestamp : nat -> string)
    (downloadQueue : list string) (index : DownloadIndex) : WorkerRun :=
  let failedDownloads := List.filter (hasState error index) (objectKeys index) in
  match failedDownloads with
  | [] => mkWorkerRun index downloadQueue true
  | _ :: _ =>
      let index' :=
        fold_left (fun idx isbn => alter (withState pending) isbn idx)
                  failedDownloads index in
      processDownloadQueue startTime now timestamp failedDownloads index'
  end.

End Download.

(** A file system for the examples: only the PDF of ISBN 9780000000001
    is there. *)
Definition sampleProbeFile (path : string) : FileProbe :=
  if String.eqb path "pdfs/9780000000001.pdf" then Present 2048 else Absent.

Definition sampleJoinPath (folder name : string) : string := folder ++ "/" ++ name.

(** The index key of a record that ingestion takes. *)
Definition recordKey (record : BookRecord) : string :=
  sanitizeISBN (default "" (ISBN record)).

(** What ingestion of a record leaves under its key, given what was
    there: nothing when there was nothing and the key is the name of a
    member of [Object.prototype]. *)
Definition mergedEntry (key : string) (record : BookRecord)
    (previous : option IndexEntry.t) : option IndexEntry.t :=
  match previous with
  | Some entry => Some (withRecord record entry)
  | None =>
      if Js.inheritedName key then None
      else Some (IndexEntry.mk record pending None None None)
  end.

(* ===================================================================== *)
(** * Bulk extraction ([parser.ts], [bulkExtractRecords]) *)
(* ===================================================================== *)

(** One element of the parsed categories file, before validation.  The
    source tests [name] and [field] for truthiness only, so an absent
    property is the empty string; [count] is [None] unless
    [typeof category.count === 'number']. *)
Module RawCategory.
Record t := mk { name : string; count : option Z; field : string }.
End RawCategory.

(** What reading and parsing the categories file gives: [readFile] or
    [JSON.parse] throws with a message, or the parsed value is not an
    array, or it is an array of category objects. *)
Inductive CategoriesFile :=
  | Unreadable (message : string)
  | NotAnArray
  | CategoryArray (items : list RawCategory.t).

Module BulkExtractFileResult.
Record t := mk {
  field : string;
  name : string;
  count : Z;
  expectedCount : Z;
  actualMatches : nat;
  outputFile : string;
  processingTime : Z
}.
End BulkExtractFileResult.

Module BulkExtractResults.
Record t := mk {
  totalItems : nat;
  successfulExtractions : nat;
  failedExtractions : nat;
  fileResults : list BulkExtractFileResult.t;
  totalProcessingTime : Z
}.
End BulkExtractResults.

(** The promise of [bulkExtractRecords]: rejected with a message, or
    resolved with the results. *)
Inductive BulkOutcome :=
  | BulkFailed (message : string)
  | BulkDone (results : BulkExtractResults.t).

Definition doubleQuote : string := String "034"%char EmptyString.

Definition missingPropertiesMessage : string :=
  "Each category must have " ++ doubleQuote ++ "name" ++ doubleQuote ++ ", "
  ++ doubleQuote ++ "field" ++ doubleQuote ++ ", and "
  ++ doubleQuote ++ "count" ++ doubleQuote ++ " properties".

Definition invalidFieldMessage (field : string) : string :=
  "Invalid field " ++ doubleQuote ++ field ++ doubleQuote ++ ". Must be "
  ++ doubleQuote ++ "650" ++ doubleQuote ++ " or " ++ doubleQuote ++ "653" ++ doubleQuote.

Definition bulkFailure (message : string) : BulkOutcome :=
  BulkFailed ("Bulk extraction failed: " ++ message).

(** The validation loop: the first category that fails a test throws.  On
    success the categories are returned with their numeric counts. *)
Fixpoint validateCategories (items : list RawCategory.t)
    : string + list BulkExtractItem.t :=
  match items with
  | [] => inr []
  | category :: rest =>
      match RawCategory.count category with
      | Some count =>
          if Js.truthy (RawCategory.name category) &&
             Js.truthy (RawCategory.field category)
          then
            if String.eqb (RawCategory.field category) "650" ||
               String.eqb (RawCategory.field category) "653"
            then
              match validateCategories rest with
              | inr categories =>
                  inr (BulkExtractItem.mk (RawCategory.name category) count
                                          (RawCategory.field category) :: categories)
              | inl message => inl message
              end
            else inl (invalidFieldMessage (RawCategory.field category))
          else inl missingPropertiesMessage
      | None => inl missingPropertiesMessage
      end
  end.

(** [category.name.replace(/[^a-zA-Z0-9]/g, '_')] *)
Fixpoint sanitizeName (name : string) : string :=
  match name with
  | EmptyString => EmptyString
  | String c rest =>
      String (if isAlphaNumeric c then c else "_"%char) (sanitizeName rest)
  end.

(** A category that passes every test of the validation loop. *)
Definition wellFormedCategory (category : RawCategory.t) : bool :=
  Js.truthy (RawCategory.name category) &&
  (String.eqb (RawCategory.field category) "650" ||
   String.eqb (RawCategory.field category) "653") &&
  match RawCategory.count category with Some _ => true | None => false end.

Section Bulk.

Variable parseFragment : string -> option MarcRecord.
(** [path.join]; [destinationPath] is [resolve(options.destinationFolder)]. *)
Variable joinPath : string -> string -> string.
Variable destinationPath : string.
(** Whether the [i]-th [writeFile], to the given path, succeeds. *)
Variable writeSucceeds : nat -> string -> bool.
(** The clock: the time measured for the [i]-th category and for the run. *)
Variable itemProcessingTime : nat -> Z.
Variable totalTime : Z.

Definition outputPathFor (category : BulkExtractItem.t) (matches : nat) : string :=
  joinPath destinationPath
           (sanitizeName (BulkExtractItem.name category) ++ "_" ++ pretty matches
            ++ ".json").

(** The body of the write loop for category number [i]: the file result,
    and whether the file was written. *)
Definition writeCategory (i : nat) (category : BulkExtractItem.t)
    (categoryBuckets : gmap string (list BookRecord))
    : BulkExtractFileResult.t * bool :=
  let matchingRecords := default [] (categoryBuckets !! categoryKey category) in
  let outputPath := outputPathFor category (length matchingRecords) in
  if writeSucceeds i outputPath then
    (BulkExtractFileResult.mk (BulkExtractItem.field category)
       (BulkExtractItem.name category) (BulkExtractItem.count category)
       (BulkExtractItem.count category) (length matchingRecords) outputPath
       (itemProcessingTime i), true)
  else
    (BulkExtractFileResult.mk (BulkExtractItem.field category)
       (BulkExtractItem.name category) (BulkExtractItem.count category)
       (BulkExtractItem.count category) 0 "" (itemProcessingTime i), false).

(** [for (let i = 0; i < categories.length; i++)], from index [i] on; the
    state is [fileResults], [successfulExtractions], [failedExtractions]. *)
Fixpoint writeLoop (i : nat) (categories : list BulkExtractItem.t)
    (categoryBuckets : gmap string (list BookRecord))
    (state : list BulkExtractFileResult.t * nat * nat)
    : list BulkExtractFileResult.t * nat * nat :=
  match categories with
  | [] => state
  | category :: rest =>
      let '(fileResults, successfulExtractions, failedExtractions) := state in
      let '(fileResult, written) := writeCategory i category categoryBuckets in
      writeLoop (S i) rest categoryBuckets
        (if written
         then ((fileResults ++ [fileResult])%list, S successfulExtractions,
               failedExtractions)
         else ((fileResults ++ [fileResult])%list, successfulExtractions,
               S failedExtractions))
  end.

(** [bulkExtractRecords]: [xmlChunks] are the chunks that the read stream
    of the XML file delivers, and [streamError] is the message of its
    ['error'] event when it raises one (the file cannot be opened or
    read): the scan then rejects, and the outer handler rethrows. *)
Definition bulkExtractRecords (jsonFile : CategoriesFile) (xmlChunks : list string)
    (streamError : option string) : option BulkOutcome :=
  match jsonFile with
  | Unreadable message => Some (bulkFailure message)
  | NotAnArray =>
      Some (bulkFailure "JSON file must contain an array of category objects")
  | CategoryArray items =>
      match validateCategories items with
      | inl message => Some (bulkFailure message)
      | inr categories =>
          match extractAllCategoriesInSinglePass parseFragment xmlChunks categories with
          | None => None
          | Some categoryBuckets =>
              match streamError with
              | Some message => Some (bulkFailure message)
              | None =>
                  let '(fileResults, successfulExtractions, failedExtractions) :=
                    writeLoop 0 categories categoryBuckets ([], 0, 0) in
                  Some (BulkDone
                          (BulkExtractResults.mk (length categories)
                             successfulExtractions failedExtractions fileResults
                             totalTime))
              end
          end
      end
  end.

End Bulk.

Definition sampleCategoriesFile : CategoriesFile :=
  CategoryArray [RawCategory.mk "Education" (Some 2%Z) "650";
                 RawCategory.mk "History" (Some 1%Z) "650"].

(* ===================================================================== *)
(** * Download Manager: the input folder ([processInputFolder]) *)
(* ===================================================================== *)

Section InputFolder.

(** [path.extname] *)
Variable extname : string -> string.

(** The files that [processInputFolder] hands to [processJsonFile]. *)
Definition jsonFiles (files : list (string * option (list BookRecord)))
    : list (string * option (list BookRecord)) :=
  List.filter (fun file => String.eqb (extname (fst file)) ".json") files.

(** [processInputFolder]: [folder] is the message of a failing [readdir]
    or the directory listing, each name with what reading and parsing
    that file gives ([None] when either throws).  The index is returned as
    it is before [saveIndex], which catches its own errors. *)
Definition processInputFolder
    (folder : string + list (string * option (list BookRecord)))
    (index : DownloadIndex) : string + DownloadIndex :=
  match folder with
  | inl message => inl ("Failed to process input folder: " ++ message)
  | inr files =>
      if (length (jsonFiles files) =? 0)%nat
      then inl ("Failed to process input folder: " ++
                "No JSON files found in input folder")
      else inr (fold_left (fun index file => processJsonFile (snd file) index)
                          (jsonFiles files) index)
  end.

(** The records of the readable JSON files of a folder, in directory
    order. *)
Definition folderRecords (files : list (string * option (list BookRecord)))
    : list BookRecord :=
  List.flat_map (fun file => default [] (snd file)) (jsonFiles files).

End InputFolder.

(** A stand-in for [path.extname] in the examples: the text from the last
    dot on. *)
Definition sampleExtname (file : string) : string :=
  match Js.lastIndexOf "." file with
  | Some i => Js.substringFrom i file
  | None => ""
  end.

(* ===================================================================== *)
(** * Page counts (field 300) *)
(* ===================================================================== *)

(** The page counts that the occurrences of field 300 give: for each
    occurrence, the match in the first subfield [a] with a text, when that
    text has one. *)
Definition pageCounts (record : MarcRecord) : list PageNumber :=
  omap (fun physicalDesc => pageMatch (Js.trim physicalDesc))
       (firstPerOccurrence "300" "a" record).

(** The regular expression [/(\d+)\s*(?:p\.?|pages?)/i] read as a
    backtracking search.  Both alternatives of the group begin with the
    letter p and need nothing after it, so a match at a position is a
    run of digits, then white space, then [p] or [P]. *)
Definition isDigit (c : ascii) : bool :=
  match digitValue c with Some _ => true | None => false end.

(** [\s*] followed by the letter. *)
Fixpoint spacesThenP (s : string) : bool :=
  match s with
  | EmptyString => false
  | String c s' =>
      if isLetterP c then true
      else if Js.isSpace c then spacesThenP s' else false
  end.

(** The rest of [\d+], taken greedily, after the digits [run] read so
    far; then the remainder of the pattern.  The result is the group. *)
Fixpoint digitsThen (run : string) (s : string) : option string :=
  match s with
  | EmptyString => None
  | String c s' =>
      match digitValue c with
      | Some _ => digitsThen (run ++ String c EmptyString) s'
      | None => if spacesThenP s then Some run else None
      end
  end.

(** A match that starts at the first character. *)
Definition matchAt (s : string) : option string :=
  match s with
  | EmptyString => None
  | String c s' =>
      match digitValue c with
      | Some _ => digitsThen (String c EmptyString) s'
      | None => None
      end
  end.

(** The first position with a match, from left to right. *)
Fixpoint firstMatch (s : string) : option string :=
  match matchAt s with
  | Some run => Some run
  | None =>
      match s with
      | EmptyString => None
      | String _ s' => firstMatch s'
      end
  end.

Definition allChars (p : ascii -> bool) (s : string) : bool :=
  forallb p (list_ascii_of_string s).

(** The text [s] has a match of the expression after [before]: a
    non-empty run of digits, white space and the letter. *)
Definition pagePatternAt (before run spaces : string) (letter : ascii)
    (after s : string) : Prop :=
  s = before ++ run ++ spaces ++ String letter after /\
  run <> "" /\
  allChars isDigit run = true /\
  allChars Js.isSpace spaces = true /\
  isLetterP letter = true.

(** An entry without its completion time. *)
Definition forgetTime (entry : IndexEntry.t) : IndexEntry.t :=
  IndexEntry.mk (IndexEntry.record entry) (IndexEntry.downloadState entry)
                (IndexEntry.filePath entry) (IndexEntry.errorMessage entry) None.

Definition sampleQueuedIndex : DownloadIndex :=
  <["9781111111111" :=
      IndexEntry.mk (sampleBook "9781111111111" "http://example.org/c.pdf") pending
                    None None None]> sampleIndex.

(* ===================================================================== *)
(** * Download Manager: the whole run ([startDownload]) *)
(* ===================================================================== *)

(** How [startDownload] ends: it throws, it returns (with the index as it
    is then), or it never returns, a download being never settled (with
    the index as it is left). *)
Inductive RunEnd :=
  | Throws (message : string)
  | Ends (index : DownloadIndex)
  | NeverEnds (index : DownloadIndex).

Section StartDownload.

Variable extname : string -> string.
Variable resolveUrl : string -> string -> option string.
Variable joinPath : string -> string -> string.
Variable destinationFolder : string.

(** The network, the file system and the clock as the first run of the
    queue finds them, and (primed) as the retry sweep finds them. *)
Variable httpGet : string -> HttpOutcome.
Variable pipeToFile : string -> string -> WriteOutcome.
Variable probeFile : string -> FileProbe.
Variable startTime : nat -> Z.
Variable now : nat -> Z.
Variable timestamp : nat -> string.
Variable httpGet' : string -> HttpOutcome.
Variable pipeToFile' : string -> string -> WriteOutcome.
Variable probeFile' : string -> FileProbe.
Variable startTime' : nat -> Z.
Variable now' : nat -> Z.
Variable timestamp' : nat -> string.

(** [startDownload] with [concurrency] 1: [mkdirError] is the message of
    a failing [mkdir], [persisted] what [index.json] holds and [folder]
    the input folder. *)
Definition startDownload (mkdirError : option string)
    (persisted : option (option DownloadIndex))
    (folder : string + list (string * option (list BookRecord)))
    : RunEnd :=
  match mkdirError with
  | Some message =>
      Throws ("Download process failed: " ++
              "Failed to create destination folder: " ++ message)
  | None =>
      match processInputFolder extname folder (loadOrCreateIndex persisted) with
      | inl message => Throws ("Download process failed: " ++ message)
      | inr index =>
          let first :=
            executeDownloads httpGet resolveUrl pipeToFile probeFile
              joinPath destinationFolder startTime now timestamp index in
          if returns first then
            let second :=
              retryFailedDownloads httpGet' resolveUrl pipeToFile' probeFile'
                joinPath destinationFolder startTime' now' timestamp'
                (remainingQueue first) (finalIndex first) in
            if returns second then Ends (finalIndex second)
            else NeverEnds (finalIndex second)
          else NeverEnds (finalIndex first)
      end
  end.

End StartDownload.

(* ===================================================================== *)
(** * Facts about the string primitives *)
(* ===================================================================== *)

Module JsFacts.

Lemma append_nil_r (s : string) : s ++ "" = s.
Proof. induction s as [|c s IH]; simpl; [reflexivity | now rewrite IH]. Qed.

Lemma append_assoc (a b c : string) : (a ++ b) ++ c = a ++ (b ++ c).
Proof. induction a as [|x a IH]; simpl; [reflexivity | now rewrite IH]. Qed.

Lemma length_append (a b : string) :
  String.length (a ++ b) = String.length a + String.length b.
Proof. induction a as [|x a IH]; simpl; [reflexivity | now rewrite IH]. Qed.

Lemma take_drop (n : nat) (s : string) : Js.take n s ++ Js.drop n s = s.
Proof.
  revert s; induction n as [|n IH]; intros [|c s]; simpl; try reflexivity.
  now rewrite IH.
Qed.

Lemma drop_nil (n : nat) : Js.drop n "" = "".
Proof. now destruct n. Qed.

Lemma drop_drop (m n : nat) (s : string) :
  Js.drop n (Js.drop m s) = Js.drop (m + n) s.
Proof.
  revert s; induction m as [|m IH]; intros s; simpl; [reflexivity|].
  destruct s as [|c s]; [apply drop_nil | apply IH].
Qed.

Lemma length_drop (n : nat) (s : string) :
  String.length (Js.drop n s) = String.length s - n.
Proof.
  revert s; induction n as [|n IH]; intros [|c s]; simpl; try reflexivity.
  apply IH.
Qed.

Lemma drop_append_length (a b : string) : Js.drop (String.length a) (a ++ b) = b.
Proof. induction a as [|x a IH]; simpl; [reflexivity | exact IH]. Qed.

Lemma drop_append_le (n : nat) (a b : string) :
  n <= String.length a -> Js.drop n (a ++ b) = Js.drop n a ++ b.
Proof.
  revert a; induction n as [|n IH]; intros a Hn; [reflexivity|].
  destruct a as [|x a]; simpl in *; [lia | apply IH; lia].
Qed.

Lemma startsWith_spec (needle s : string) :
  Js.startsWith needle s = true <-> exists rest, s = needle ++ rest.
Proof.
  revert s; induction needle as [|a needle IH]; intros s; simpl.
  - split; [intros _; now exists s | reflexivity].
  - destruct s as [|b s].
    + split; [discriminate | intros [rest H]; discriminate].
    + rewrite andb_true_iff, Ascii.eqb_eq, IH. split.
      * intros [-> [rest ->]]. now exists rest.
      * intros [rest H]. injection H as -> ->. split; [reflexivity | now exists rest].
Qed.

Lemma startsWith_length (needle s : string) :
  Js.startsWith needle s = true -> String.length needle <= String.length s.
Proof.
  intros H. apply startsWith_spec in H as [rest ->].
  rewrite length_append. lia.
Qed.

Lemma findFrom_some (needle s : string) (pos i : nat) :
  Js.findFrom needle s pos = Some i ->
  pos <= i /\ (i - pos) + String.length needle <= String.length s /\
  Js.startsWith needle (Js.drop (i - pos) s) = true.
Proof.
  revert pos; induction s as [|c s IH]; intros pos; simpl.
  - destruct (Js.startsWith needle "") eqn:E; [|discriminate].
    intros [= <-]. rewrite Nat.sub_diag. simpl.
    split; [lia | split; [apply startsWith_length in E; simpl in E; lia | exact E]].
  - destruct (Js.startsWith needle (String c s)) eqn:E.
    + intros [= <-]. rewrite Nat.sub_diag. simpl.
      split; [lia | split; [apply startsWith_length in E; simpl in E; lia | exact E]].
    + intros H. apply IH in H as (Hle & Hlen & Hst).
      replace (i - pos) with (S (i - S pos)) by lia. simpl.
      split; [lia | split; [lia | exact Hst]].
Qed.

Lemma findFrom_none_shift (needle s : string) (p q : nat) :
  Js.findFrom needle s p = None -> Js.findFrom needle s q = None.
Proof.
  revert p q; induction s as [|c s IH]; intros p q; simpl.
  - now destruct (Js.startsWith needle "").
  - destruct (Js.startsWith needle (String c s)); [discriminate|].
    apply IH.
Qed.

Lemma indexOf_some (needle s : string) (from i : nat) :
  from <= String.length s ->
  Js.indexOf needle s from = Some i ->
  from <= i /\ i + String.length needle <= String.length s /\
  Js.startsWith needle (Js.drop i s) = true.
Proof.
  unfold Js.indexOf. intros Hfrom H.
  rewrite Nat.min_l in H by exact Hfrom.
  apply findFrom_some in H as (Hle & Hlen & Hst).
  rewrite length_drop in Hlen. rewrite drop_drop in Hst.
  replace (from + (i - from)) with i in Hst by lia.
  split; [exact Hle | split; [lia | exact Hst]].
Qed.

Lemma indexOf_none_drop (needle s : string) (from : nat) :
  Js.indexOf needle s from = None ->
  Js.indexOf needle (Js.drop from s) 0 = None.
Proof.
  unfold Js.indexOf. simpl. apply findFrom_none_shift.
Qed.

Lemma findLast_some (needle s : string) (pos j : nat) :
  Js.findLast needle s pos = Some j ->
  pos <= j /\ Js.startsWith needle (Js.drop (j - pos) s) = true.
Proof.
  revert pos; induction s as [|c s IH]; intros pos; simpl.
  - destruct (Js.startsWith needle "") eqn:E; [|discriminate].
    intros [= <-]. rewrite Nat.sub_diag. split; [lia | exact E].
  - destruct (Js.findLast needle s (S pos)) as [k|] eqn:F.
    + intros [= <-]. apply IH in F as (Hle & Hst).
      replace (k - pos) with (S (k - S pos)) by lia. simpl.
      split; [lia | exact Hst].
    + destruct (Js.startsWith needle (String c s)) eqn:E; [|discriminate].
      intros [= <-]. rewrite Nat.sub_diag. split; [lia | exact E].
Qed.

Lemma lastIndexOf_some (needle s : string) (j : nat) :
  Js.lastIndexOf needle s = Some j ->
  Js.startsWith needle (Js.drop j s) = true.
Proof.
  unfold Js.lastIndexOf. intros H. apply findLast_some in H as [_ H].
  now rewrite Nat.sub_0_r in H.
Qed.

Lemma substring_le (a b : nat) (s : string) :
  a <= b -> Js.substring a b s = Js.take (b - a) (Js.drop a s).
Proof.
  intros H. unfold Js.substring.
  now rewrite Nat.max_r, Nat.min_l by exact H.
Qed.

Lemma concat_app (l1 l2 : list string) :
  Js.concat (l1 ++ l2)%list = Js.concat l1 ++ Js.concat l2.
Proof.
  induction l1 as [|x l1 IH]; simpl; [reflexivity|].
  now rewrite IH, append_assoc.
Qed.

Lemma findFrom_step (needle s : string) (pos : nat) :
  Js.findFrom needle s pos
  = if Js.startsWith needle s then Some pos
    else match s with
         | EmptyString => None
         | String _ s' => Js.findFrom needle s' (S pos)
         end.
Proof. destruct s; reflexivity. Qed.

Lemma findFrom_shift (needle s : string) (p q : nat) :
  Js.findFrom needle s (p + q) = (fun i => p + i) <$> Js.findFrom needle s q.
Proof.
  revert q; induction s as [|c s IH]; intros q; simpl.
  - now destruct (Js.startsWith needle "").
  - destruct (Js.startsWith needle (String c s)); [reflexivity|].
    rewrite <- IH. f_equal. lia.
Qed.

Lemma startsWith_append (needle s t : string) :
  Js.startsWith needle s = true -> Js.startsWith needle (s ++ t) = true.
Proof.
  rewrite !startsWith_spec. intros [rest ->]. exists (rest ++ t).
  now rewrite append_assoc.
Qed.

Lemma startsWith_append_long (needle s t : string) :
  String.length needle <= String.length s ->
  Js.startsWith needle (s ++ t) = Js.startsWith needle s.
Proof.
  revert s; induction needle as [|a needle IH]; intros s Hlen; [reflexivity|].
  destruct s as [|b s]; simpl in *; [lia|].
  rewrite IH by lia. reflexivity.
Qed.

Lemma findFrom_append (needle s t : string) (pos i : nat) :
  Js.findFrom needle s pos = Some i -> Js.findFrom needle (s ++ t) pos = Some i.
Proof.
  revert pos; induction s as [|c s IH]; intros pos.
  - rewrite (findFrom_step needle "" pos), (findFrom_step needle ("" ++ t) pos).
    destruct (Js.startsWith needle "") eqn:E; [|discriminate].
    intros H. now rewrite (startsWith_append _ _ t E).
  - rewrite (findFrom_step needle (String c s) pos),
      (findFrom_step needle (String c s ++ t) pos).
    destruct (Js.startsWith needle (String c s)) eqn:E.
    + intros H. now rewrite (startsWith_append _ _ t E).
    + intros H. pose proof (findFrom_some _ _ _ _ H) as (_ & Hlen & _).
      rewrite startsWith_append_long, E by (simpl; lia).
      simpl. now apply IH.
Qed.

Lemma drop_append_ge (p : string) (n : nat) (s : string) :
  Js.drop (String.length p + n) (p ++ s) = Js.drop n s.
Proof. induction p as [|c p IH]; simpl; [reflexivity | exact IH]. Qed.

Lemma take_append_le (n : nat) (s t : string) :
  n <= String.length s -> Js.take n (s ++ t) = Js.take n s.
Proof.
  revert s; induction n as [|n IH]; intros s Hn; simpl.
  - now destruct (s ++ t), s.
  - destruct s as [|c s]; simpl in *; [lia|]. rewrite IH by lia. reflexivity.
Qed.

Lemma length_take (n : nat) (s : string) :
  n <= String.length s -> String.length (Js.take n s) = n.
Proof.
  revert s; induction n as [|n IH]; intros s Hn; simpl.
  - now destruct s.
  - destruct s as [|c s]; simpl in *; [lia|]. rewrite IH by lia. reflexivity.
Qed.

Lemma indexOf_append (needle s t : string) (from i : nat) :
  from <= String.length s ->
  Js.indexOf needle s from = Some i -> Js.indexOf needle (s ++ t) from = Some i.
Proof.
  unfold Js.indexOf. intros Hfrom H.
  rewrite drop_append_le by exact Hfrom.
  rewrite Nat.min_l in * by (rewrite ?length_append; lia).
  now apply findFrom_append.
Qed.

Lemma indexOf_prefix (needle p s : string) (from : nat) :
  from <= String.length s ->
  Js.indexOf needle (p ++ s) (String.length p + from)
  = (fun i => String.length p + i) <$> Js.indexOf needle s from.
Proof.
  unfold Js.indexOf. intros Hfrom.
  rewrite drop_append_ge, length_append.
  rewrite !Nat.min_l by lia. apply findFrom_shift.
Qed.

Lemma substring_append (a b : nat) (s t : string) :
  a <= b -> b <= String.length s ->
  Js.substring a b (s ++ t) = Js.substring a b s.
Proof.
  intros Hab Hb. rewrite !substring_le by exact Hab.
  rewrite drop_append_le by lia.
  apply take_append_le. rewrite length_drop. lia.
Qed.

Lemma substring_prefix (a b : nat) (p s : string) :
  a <= b ->
  Js.substring (String.length p + a) (String.length p + b) (p ++ s)
  = Js.substring a b s.
Proof.
  intros Hab. rewrite !substring_le by lia.
  rewrite drop_append_ge. f_equal. lia.
Qed.

End JsFacts.

(* ===================================================================== *)
(** * Facts about the scanner *)
(* ===================================================================== *)

Section ScannerFacts.

Import JsFacts.

Lemma closeTag_length : String.length closeTag = 14.
Proof. reflexivity. Qed.

(** The loop never exhausts a fuel of the length of the buffer: every
    iteration moves [recordStart] past one closing marker. *)
Lemma scanLoop_total {St : Type} (onRecord : string -> St -> St)
    (fuel : nat) (buffer : string) (recordStart : nat) (st : St) (n : nat) :
  recordStart <= String.length buffer ->
  String.length buffer - recordStart <= fuel ->
  is_Some (scanLoop onRecord fuel buffer recordStart st n).
Proof.
  revert recordStart st n.
  induction fuel as [|fuel IH]; intros recordStart st n Hle Hfuel; simpl.
  - destruct (Js.indexOf closeTag buffer recordStart) as [recordEnd|] eqn:E;
      [|eauto].
    apply indexOf_some in E as (H1 & H2 & _); [|exact Hle].
    rewrite closeTag_length in H2. lia.
  - destruct (Js.indexOf closeTag buffer recordStart) as [recordEnd|] eqn:E;
      [|eauto].
    apply indexOf_some in E as (H1 & H2 & _); [|exact Hle].
    rewrite closeTag_length in *.
    destruct (Js.lastIndexOf openTag _); apply IH; lia.
Qed.

(** Two callbacks that preserve a relation between their states are
    driven through the same iterations by the same buffer. *)
Context {A B : Type} (R : A -> B -> Prop).
Context (f : string -> A -> A) (g : string -> B -> B).
Hypothesis callbacks_related :
  forall fragment a b, R a b -> R (f fragment a) (g fragment b).

Lemma scanLoop_related (fuel : nat) (buffer : string) (recordStart : nat)
    (a : A) (b : B) (n : nat) :
  R a b ->
  related R (scanLoop f fuel buffer recordStart a n)
            (scanLoop g fuel buffer recordStart b n).
Proof.
  revert recordStart a b n.
  induction fuel as [|fuel IH]; intros recordStart a b n HR; simpl.
  - destruct (Js.indexOf closeTag buffer recordStart); simpl; auto.
  - destruct (Js.indexOf closeTag buffer recordStart); simpl; auto.
    destruct (Js.lastIndexOf openTag _); apply IH; auto.
Qed.

Lemma onData_related (chunk buffer : string) (a : A) (b : B) (n : nat) :
  R a b ->
  related R (onData f chunk (buffer, a, n)) (onData g chunk (buffer, b, n)).
Proof.
  intros HR. unfold onData.
  pose proof (scanLoop_related (String.length (buffer ++ chunk))
                (buffer ++ chunk) 0 a b n HR) as H.
  destruct (scanLoop f _ _ _ _ _) as [[[r1 a'] n1]|],
           (scanLoop g _ _ _ _ _) as [[[r2 b'] n2]|]; simpl in *; try tauto.
  destruct H as (-> & -> & H). auto.
Qed.

Lemma onChunks_related (chunks : list string) (buffer : string)
    (a : A) (b : B) (n : nat) :
  R a b ->
  related R (onChunks f chunks (buffer, a, n)) (onChunks g chunks (buffer, b, n)).
Proof.
  revert buffer a b n.
  induction chunks as [|chunk chunks IH]; intros buffer a b n HR; cbn [onChunks].
  - simpl; auto.
  - pose proof (onData_related chunk buffer a b n HR) as H.
    destruct (onData f chunk _) as [[[r1 a'] n1]|],
             (onData g chunk _) as [[[r2 b'] n2]|]; simpl in *; try tauto.
    destruct H as (-> & -> & H). apply IH, H.
Qed.

Lemma scanStream_related (chunks : list string) (a : A) (b : B) :
  R a b ->
  related R (scanStream f chunks a) (scanStream g chunks b).
Proof. apply onChunks_related. Qed.

End ScannerFacts.

Section ScannerTotal.

Import JsFacts.
Context {St : Type} (onRecord : string -> St -> St).

Lemma onData_total (chunk : string) (s : string * St * nat) :
  is_Some (onData onRecord chunk s).
Proof.
  destruct s as [[buffer st] n]. unfold onData.
  destruct (scanLoop_total onRecord (String.length (buffer ++ chunk))
              (buffer ++ chunk) 0 st n) as [[[r st'] n'] ->]; [lia | lia |].
  eauto.
Qed.

Lemma onChunks_total (chunks : list string) (s : string * St * nat) :
  is_Some (onChunks onRecord chunks s).
Proof.
  revert s; induction chunks as [|chunk chunks IH]; intros s; cbn [onChunks];
    [eauto|].
  destruct (onData_total chunk s) as [s' ->]. apply IH.
Qed.

(** The scanner returns on every stream of chunks. *)
Lemma scanStream_total (chunks : list string) (st0 : St) :
  is_Some (scanStream onRecord chunks st0).
Proof. apply onChunks_total. Qed.

End ScannerTotal.

Section ScannerDispatch.

Context {St : Type} (onRecord : string -> St -> St).

(** Any callback is run on the dispatched fragments, in dispatch order,
    and on nothing else. *)
Lemma scanStream_dispatch (chunks : list string) (st0 : St) :
  scanStream onRecord chunks st0
  = (fun r => (r.1.1, fold_left (fun st fragment => onRecord fragment st) r.1.2 st0, r.2))
      <$> dispatchedFragments chunks.
Proof.
  unfold dispatchedFragments.
  pose proof (scanStream_related
                (fun st seen => st = fold_left (fun st f => onRecord f st) seen st0)
                onRecord recordFragment) as H.
  specialize (H (fun fragment st seen E =>
                   eq_trans (f_equal (onRecord fragment) E)
                     (eq_sym (fold_left_app (fun st f => onRecord f st)
                                seen [fragment] st0)))).
  specialize (H chunks st0 [] eq_refl).
  destruct (scanStream onRecord chunks st0) as [[[t1 st] n1]|],
           (scanStream recordFragment chunks []) as [[[t2 seen] n2]|];
    simpl in *; try tauto.
  destruct H as (-> & -> & ->). reflexivity.
Qed.

End ScannerDispatch.

Section ScannerPartition.

Import JsFacts.

Lemma take_split (k : nat) (s needle rest : string) :
  k <= String.length s ->
  Js.drop k s = needle ++ rest ->
  Js.take (k + String.length needle) s = Js.take k s ++ needle.
Proof.
  revert s; induction k as [|k IH]; intros s Hk H; simpl in *.
  - subst s. clear Hk. induction needle as [|c needle IHn]; simpl.
    + now destruct rest.
    + now rewrite IHn.
  - destruct s as [|c s]; simpl in *; [lia|].
    rewrite IH; [reflexivity | lia | exact H].
Qed.

Lemma drop_append_split (j : nat) (x z : string) :
  Js.drop j (x ++ z) = Js.drop j x ++ Js.drop (j - String.length x) z.
Proof.
  revert j; induction x as [|c x IH]; intros j; simpl.
  - rewrite Nat.sub_0_r. now destruct j.
  - destruct j as [|j]; simpl; [reflexivity | apply IH].
Qed.

(** An opening marker found in a text that ends with the closing marker
    lies wholly in front of that closing marker. *)
Lemma open_before_close (y rest : string) :
  y ++ closeTag = openTag ++ rest -> exists body, rest = body ++ closeTag.
Proof.
  unfold openTag, closeTag. intros H.
  do 13 (destruct y as [|? y]; simpl in H; [discriminate H|];
         injection H as _ H).
  exists y. now symmetry.
Qed.

Lemma close_suffix_no_open (k : nat) (rest : string) :
  0 < k -> Js.drop k closeTag <> openTag ++ rest.
Proof.
  intros Hk H.
  destruct k as [|[|k]]; [lia | discriminate H |].
  apply (f_equal String.length) in H.
  rewrite length_drop, length_append in H. simpl in H. lia.
Qed.

(** The fragment cut out of a segment is well formed. *)
Lemma fragment_wellFormed (buffer : string) (recordStart recordEnd j : nat) :
  recordStart <= String.length buffer ->
  Js.indexOf closeTag buffer recordStart = Some recordEnd ->
  Js.lastIndexOf openTag
    (Js.substring recordStart (recordEnd + String.length closeTag) buffer) = Some j ->
  wellFormedFragment
    (Js.substringFrom j
       (Js.substring recordStart (recordEnd + String.length closeTag) buffer)).
Proof.
  intros Hle Hend Hlast.
  apply indexOf_some in Hend as (H1 & H2 & H3); [|exact Hle].
  apply startsWith_spec in H3 as [rest Hrest].
  rewrite substring_le in * by lia.
  set (d := Js.drop recordStart buffer) in *.
  assert (Hd : Js.drop (recordEnd - recordStart) d = closeTag ++ rest).
  { unfold d. rewrite drop_drop.
    now replace (recordStart + (recordEnd - recordStart)) with recordEnd by lia. }
  assert (Hseg : Js.take (recordEnd + String.length closeTag - recordStart) d
                 = Js.take (recordEnd - recordStart) d ++ closeTag).
  { replace (recordEnd + String.length closeTag - recordStart)
      with ((recordEnd - recordStart) + String.length closeTag) by lia.
    apply take_split with (rest := rest); [|exact Hd].
    unfold d. rewrite length_drop. lia. }
  rewrite Hseg in *. clear Hseg.
  set (x := Js.take (recordEnd - recordStart) d) in *.
  apply lastIndexOf_some, startsWith_spec in Hlast as [r Hr].
  unfold Js.substringFrom. rewrite Hr.
  rewrite drop_append_split in Hr.
  destruct (Nat.eq_dec (j - String.length x) 0) as [E|E].
  - rewrite E in Hr. simpl in Hr.
    apply open_before_close in Hr as [body ->]. now exists body.
  - exfalso. assert (Hx : Js.drop j x = "").
    { assert (L : String.length (Js.drop j x) = 0)
        by (rewrite length_drop; lia).
      now destruct (Js.drop j x). }
    rewrite Hx in Hr. simpl in Hr.
    apply close_suffix_no_open in Hr; [exact Hr | lia].
Qed.

Lemma interleaved_app (p q : list (string * string)) :
  interleaved (p ++ q)%list = interleaved p ++ interleaved q.
Proof. unfold interleaved. now rewrite List.map_app, concat_app. Qed.

(** Skipped text in front of a decomposition joins the first skipped
    text, or the dropped text when nothing was dispatched. *)
Lemma absorb_skipped (seg : string) (parts : list (string * string))
    (dropped : string) :
  exists parts' dropped',
    List.map snd parts' = List.map snd parts /\
    interleaved parts' ++ dropped' = seg ++ interleaved parts ++ dropped.
Proof.
  destruct parts as [|[skipped fragment] parts].
  - exists [], (seg ++ dropped). split; reflexivity.
  - exists ((seg ++ skipped, fragment) :: parts), dropped. split; [reflexivity|].
    unfold interleaved. simpl. now rewrite !append_assoc.
Qed.

(** One run of the loop: what is taken off the buffer is the dispatched
    fragments interleaved with skipped text. *)
Lemma scanLoop_partition (fuel : nat) (buffer : string) (recordStart : nat)
    (seen : list string) (n : nat) (recordStart' : nat)
    (seen' : list string) (n' : nat) :
  recordStart <= String.length buffer ->
  scanLoop recordFragment fuel buffer recordStart seen n
    = Some (recordStart', seen', n') ->
  Js.indexOf closeTag buffer recordStart' = None /\
  exists parts dropped,
    seen' = (seen ++ List.map snd parts)%list /\
    n' = n + length parts /\
    Forall wellFormedFragment (List.map snd parts) /\
    Js.drop recordStart buffer
      = interleaved parts ++ dropped ++ Js.drop recordStart' buffer.
Proof.
  revert recordStart seen n.
  induction fuel as [|fuel IH]; intros recordStart seen n Hle; simpl;
    destruct (Js.indexOf closeTag buffer recordStart) as [recordEnd|] eqn:E;
    try discriminate.
  1, 3: intros [= <- <- <-]; split; [exact E|];
        exists [], ""; simpl; rewrite app_nil_r; repeat split; auto; lia.
  pose proof E as E'.
  apply indexOf_some in E' as (H1 & H2 & _); [|exact Hle].
  assert (Hseg : Js.drop recordStart buffer
                 = Js.substring recordStart (recordEnd + String.length closeTag) buffer
                   ++ Js.drop (recordEnd + String.length closeTag) buffer).
  { rewrite substring_le by lia.
    rewrite <- (take_drop (recordEnd + String.length closeTag - recordStart)
                  (Js.drop recordStart buffer)) at 1.
    rewrite drop_drop.
    now replace (recordStart + (recordEnd + String.length closeTag - recordStart))
      with (recordEnd + String.length closeTag) by lia. }
  change (String.length closeTag) with 14 in *.
  destruct (Js.lastIndexOf openTag _) as [j|] eqn:L; intros Hrun;
    (apply IH in Hrun as (Hnone & parts & dropped & -> & -> & Hwf & Hrest);
     [|exact H2]); (split; [exact Hnone|]).
  - set (seg := Js.substring recordStart (recordEnd + 14) buffer) in *.
    exists ((Js.take j seg, Js.substringFrom j seg) :: parts), dropped.
    repeat split.
    + unfold recordFragment. now rewrite <- List.app_assoc.
    + simpl. lia.
    + constructor; [|exact Hwf].
      apply fragment_wellFormed; assumption.
    + rewrite Hseg, Hrest. unfold interleaved, Js.substringFrom. simpl.
      rewrite take_drop. now rewrite !append_assoc.
  - destruct (absorb_skipped
                (Js.substring recordStart (recordEnd + 14) buffer)
                parts dropped) as (parts' & dropped' & Hsnd & Heq).
    exists parts', dropped'. rewrite Hsnd. repeat split; auto.
    + rewrite <- (List.length_map snd parts'), Hsnd, List.length_map. reflexivity.
    + rewrite Hseg, Hrest. rewrite <- !append_assoc. rewrite Heq.
      now rewrite !append_assoc.
Qed.

End ScannerPartition.

Section ScannerStream.

Import JsFacts.

Lemma onChunks_partition (chunks : list string) (buffer : string)
    (seen : list string) (n : nat) (tail : string)
    (seen' : list string) (n' : nat) :
  onChunks recordFragment chunks (buffer, seen, n) = Some (tail, seen', n') ->
  Js.indexOf closeTag buffer 0 = None ->
  Js.indexOf closeTag tail 0 = None /\
  exists parts dropped,
    seen' = (seen ++ List.map snd parts)%list /\
    n' = n + length parts /\
    Forall wellFormedFragment (List.map snd parts) /\
    buffer ++ Js.concat chunks = interleaved parts ++ dropped ++ tail.
Proof.
  revert buffer seen n.
  induction chunks as [|chunk chunks IH]; intros buffer seen n; cbn [onChunks].
  - intros [= <- <- <-] Hnone. split; [exact Hnone|].
    exists [], "". simpl. rewrite app_nil_r, append_nil_r.
    repeat split; auto.
  - unfold onData.
    destruct (scanLoop recordFragment _ (buffer ++ chunk) 0 seen n)
      as [[[recordStart seen1] n1]|] eqn:Hloop; [|discriminate].
    intros Hrest _.
    apply scanLoop_partition in Hloop
      as (Hnone1 & parts1 & dropped1 & -> & -> & Hwf1 & Heq1); [|lia].
    apply IH in Hrest
      as (Hnone & parts2 & dropped2 & -> & -> & Hwf2 & Heq2);
      [|now apply indexOf_none_drop].
    split; [exact Hnone|].
    destruct (absorb_skipped dropped1 parts2 dropped2)
      as (parts2' & dropped2' & Hsnd & Habs).
    exists (parts1 ++ parts2')%list, dropped2'.
    rewrite List.map_app, Hsnd. repeat split.
    + now rewrite List.app_assoc.
    + rewrite List.length_app, <- (List.length_map snd parts2'), Hsnd,
        List.length_map. lia.
    + apply Forall_app. split; assumption.
    + simpl in Heq1. simpl. rewrite <- append_assoc, Heq1.
      unfold Js.substringFrom in Heq2.
      rewrite interleaved_app, !append_assoc, Heq2.
      rewrite <- (append_assoc (interleaved parts2')), Habs.
      now rewrite !append_assoc.
Qed.

End ScannerStream.

(* ===================================================================== *)
(** * The scanner does not depend on how the file is cut into chunks *)
(* ===================================================================== *)

Section ScannerChunks.

Import JsFacts.

Context {St : Type} (onRecord : string -> St -> St).

Lemma scanLoop_fuel (fuel fuel' : nat) (buffer : string) (recordStart : nat)
    (st : St) (n : nat) (r : nat * St * nat) :
  scanLoop onRecord fuel buffer recordStart st n = Some r ->
  fuel <= fuel' ->
  scanLoop onRecord fuel' buffer recordStart st n = Some r.
Proof.
  revert fuel' recordStart st n.
  induction fuel as [|fuel IH]; intros fuel' recordStart st n; simpl;
    destruct (Js.indexOf closeTag buffer recordStart) as [recordEnd|] eqn:E;
    try discriminate.
  - intros H _. destruct fuel'; simpl; now rewrite E.
  - destruct fuel' as [|fuel']; [lia|]. simpl. rewrite E.
    destruct (Js.lastIndexOf openTag _); intros H Hle; apply IH; auto; lia.
  - intros H _. destruct fuel'; simpl; now rewrite E.
Qed.

Lemma scanLoop_exit (fuel : nat) (buffer : string) (recordStart : nat)
    (st : St) (n : nat) (recordStart' : nat) (st' : St) (n' : nat) :
  recordStart <= String.length buffer ->
  scanLoop onRecord fuel buffer recordStart st n = Some (recordStart', st', n') ->
  recordStart' <= String.length buffer /\
  Js.indexOf closeTag buffer recordStart' = None.
Proof.
  revert recordStart st n.
  induction fuel as [|fuel IH]; intros recordStart st n Hle; simpl;
    destruct (Js.indexOf closeTag buffer recordStart) as [recordEnd|] eqn:E;
    try discriminate.
  1, 3: intros [= <- <- <-]; auto.
  apply indexOf_some in E as (H1 & H2 & _); [|exact Hle].
  destruct (Js.lastIndexOf openTag _); apply IH; exact H2.
Qed.

(** Replay: the iterations made on a buffer are made again, unchanged,
    on the buffer extended by more text. *)
Lemma scanLoop_extend (fuel fuel2 : nat) (s t : string) (recordStart : nat)
    (st : St) (n : nat) (recordStart' : nat) (st' : St) (n' : nat)
    (r : nat * St * nat) :
  recordStart <= String.length s ->
  scanLoop onRecord fuel s recordStart st n = Some (recordStart', st', n') ->
  scanLoop onRecord fuel2 (s ++ t) recordStart' st' n' = Some r ->
  scanLoop onRecord (fuel + fuel2) (s ++ t) recordStart st n = Some r.
Proof.
  revert recordStart st n.
  induction fuel as [|fuel IH]; intros recordStart st n Hle H1 H2; simpl in H1;
    destruct (Js.indexOf closeTag s recordStart) as [recordEnd|] eqn:E;
    try discriminate.
  - injection H1 as <- <- <-. exact H2.
  - pose proof (indexOf_append _ _ t _ _ Hle E) as E'.
    apply indexOf_some in E as (H3 & H4 & _); [|exact Hle].
    change (String.length closeTag) with 14 in H4.
    change (S fuel + fuel2) with (S (fuel + fuel2)). simpl.
    rewrite E'. rewrite substring_append by (exact H4 || lia).
    destruct (Js.lastIndexOf openTag _); apply IH; auto.
  - injection H1 as <- <- <-.
    apply (scanLoop_fuel fuel2); [exact H2 | lia].
Qed.

(** Shift: text in front of the start position plays no part. *)
Lemma scanLoop_prefix (fuel : nat) (p s : string) (recordStart : nat)
    (st : St) (n : nat) :
  recordStart <= String.length s ->
  scanLoop onRecord fuel (p ++ s) (String.length p + recordStart) st n
  = (fun r => (String.length p + r.1.1, r.1.2, r.2))
      <$> scanLoop onRecord fuel s recordStart st n.
Proof.
  revert recordStart st n.
  induction fuel as [|fuel IH]; intros recordStart st n Hle; simpl;
    rewrite indexOf_prefix by exact Hle;
    destruct (Js.indexOf closeTag s recordStart) as [recordEnd|] eqn:E;
    simpl; try reflexivity.
  apply indexOf_some in E as (H1 & H2 & _); [|exact Hle].
  replace (String.length p + recordEnd + 14)
    with (String.length p + (recordEnd + 14)) by lia.
  rewrite substring_prefix by lia.
  destruct (Js.lastIndexOf openTag _); apply IH; exact H2.
Qed.

(** Two successive ['data'] events act as one event with the two chunks
    joined. *)
Lemma onData_merge (c t b : string) (st : St) (n : nat)
    (s1 : string * St * nat) :
  onData onRecord c (b, st, n) = Some s1 ->
  onData onRecord t s1 = onData onRecord (c ++ t) (b, st, n).
Proof.
  unfold onData at 1.
  destruct (scanLoop onRecord _ (b ++ c) 0 st n)
    as [[[rs1 st1] n1]|] eqn:H1; [|discriminate].
  intros [= <-].
  apply scanLoop_exit in H1 as Hexit; [|lia]. destruct Hexit as [Hrs1 _].
  unfold onData, Js.substringFrom.
  set (b1 := Js.drop rs1 (b ++ c)).
  destruct (scanLoop_total onRecord (String.length (b1 ++ t)) (b1 ++ t) 0 st1 n1)
    as [[[rs2 st2] n2] H2]; [lia | lia |].
  rewrite H2.
  assert (Hsplit : (b ++ c) ++ t = Js.take rs1 (b ++ c) ++ (b1 ++ t)).
  { unfold b1. now rewrite <- append_assoc, take_drop. }
  assert (Hlen : String.length (Js.take rs1 (b ++ c)) = rs1)
    by (apply length_take; exact Hrs1).
  pose proof (scanLoop_prefix (String.length (b1 ++ t))
                (Js.take rs1 (b ++ c)) (b1 ++ t) 0 st1 n1 ltac:(lia)) as H3.
  rewrite H2, Hlen, Nat.add_0_r, <- Hsplit in H3. simpl in H3.
  pose proof (scanLoop_extend _ _ (b ++ c) t 0 st n rs1 st1 n1 _
                ltac:(lia) H1 H3) as H4.
  rewrite <- append_assoc.
  destruct (scanLoop_total onRecord (String.length ((b ++ c) ++ t))
              ((b ++ c) ++ t) 0 st n) as [r Hr]; [lia | lia |].
  rewrite Hr.
  rewrite (scanLoop_fuel _ _ _ _ _ _ _ Hr) in H4
    by (rewrite !length_append; unfold b1; lia).
  injection H4 as ->. simpl.
  f_equal. f_equal. f_equal.
  rewrite <- drop_drop. f_equal.
  rewrite (drop_append_le rs1 (b ++ c) t Hrs1). reflexivity.
Qed.

Lemma onChunks_concat (chunks : list string) (b : string) (st : St) (n : nat) :
  Js.indexOf closeTag b 0 = None ->
  onChunks onRecord chunks (b, st, n) = onData onRecord (Js.concat chunks) (b, st, n).
Proof.
  revert b st n; induction chunks as [|c chunks IH]; intros b st n Hnone;
    cbn [onChunks].
  - unfold onData. simpl. rewrite append_nil_r.
    destruct (String.length b); simpl; rewrite Hnone; reflexivity.
  - destruct (onData onRecord c (b, st, n)) as [[[b1 st1] n1]|] eqn:H1.
    + change (Js.concat (c :: chunks)) with (c ++ Js.concat chunks).
      rewrite <- (onData_merge c (Js.concat chunks) b st n _ H1).
      apply IH. unfold onData in H1.
      destruct (scanLoop onRecord _ (b ++ c) 0 st n)
        as [[[rs1 st1'] n1']|] eqn:Hloop; [|discriminate].
      injection H1 as <- <- <-.
      apply scanLoop_exit in Hloop as [_ Hloop]; [|lia].
      now apply indexOf_none_drop.
    + destruct (onData_total onRecord c (b, st, n)) as [s1 Hs1]. congruence.
Qed.

(** The scan of a stream of chunks is the scan of the whole file given as
    a single chunk. *)
Lemma scanStream_chunking (chunks : list string) (st0 : St) :
  scanStream onRecord chunks st0 = scanStream onRecord [Js.concat chunks] st0.
Proof.
  unfold scanStream. rewrite onChunks_concat by reflexivity.
  cbn [onChunks]. now destruct (onData onRecord (Js.concat chunks) _).
Qed.

End ScannerChunks.

(* ===================================================================== *)
(** * The segments that the scanner takes off the file *)
(* ===================================================================== *)

Section ScannerSegments.

Import JsFacts.

(** [indexOf] finds the first occurrence. *)
Lemma findFrom_first (needle a b : string) (pos i : nat) :
  Js.findFrom needle (a ++ needle ++ b) pos = Some i ->
  i <= pos + String.length a.
Proof.
  revert pos; induction a as [|c a IH]; intros pos; rewrite findFrom_step.
  - assert (H : Js.startsWith needle ("" ++ needle ++ b) = true)
      by (apply startsWith_spec; now exists b).
    rewrite H. intros [= <-]. simpl. lia.
  - destruct (Js.startsWith needle _).
    + intros [= <-]. lia.
    + simpl. intros H. apply IH in H. lia.
Qed.

Lemma findFrom_occurs (needle a b : string) (pos : nat) :
  is_Some (Js.findFrom needle (a ++ needle ++ b) pos).
Proof.
  revert pos; induction a as [|c a IH]; intros pos; rewrite findFrom_step.
  - assert (H : Js.startsWith needle ("" ++ needle ++ b) = true)
      by (apply startsWith_spec; now exists b).
    rewrite H. eauto.
  - destruct (Js.startsWith needle _); [eauto | apply IH].
Qed.

Lemma indexOf_first (needle s a b : string) (from i : nat) :
  from <= String.length s ->
  Js.indexOf needle s from = Some i ->
  Js.drop from s = a ++ needle ++ b ->
  i <= from + String.length a.
Proof.
  unfold Js.indexOf. intros Hfrom H E.
  rewrite Nat.min_l, E in H by exact Hfrom.
  now apply findFrom_first in H.
Qed.

(** [lastIndexOf] finds the last occurrence. *)
Lemma findLast_last (needle a b : string) (pos : nat) :
  exists j,
    Js.findLast needle (a ++ needle ++ b) pos = Some j /\
    pos + String.length a <= j.
Proof.
  revert pos; induction a as [|c a IH]; intros pos.
  - assert (H : Js.startsWith needle ("" ++ needle ++ b) = true)
      by (apply startsWith_spec; now exists b).
    simpl in *. destruct (needle ++ b) as [|c s] eqn:E; simpl.
    + rewrite H. exists pos. split; [reflexivity | lia].
    + destruct (Js.findLast needle s (S pos)) as [k|] eqn:F.
      * exists k. split; [reflexivity|].
        apply findLast_some in F. lia.
      * rewrite H. exists pos. split; [reflexivity | lia].
  - destruct (IH (S pos)) as (j & Hj & Hle).
    exists j. simpl. rewrite Hj. split; [reflexivity | lia].
Qed.

Lemma lastIndexOf_last (needle a b : string) (j : nat) :
  Js.lastIndexOf needle (a ++ needle ++ b) = Some j -> String.length a <= j.
Proof.
  unfold Js.lastIndexOf. intros H.
  destruct (findLast_last needle a b 0) as (j' & Hj & Hle).
  rewrite H in Hj. injection Hj as <-. exact Hle.
Qed.

Lemma lastIndexOf_none (needle s : string) :
  Js.lastIndexOf needle s = None -> ~ occursIn needle s.
Proof.
  unfold Js.lastIndexOf. intros H (a & b & ->).
  destruct (findLast_last needle a b 0) as (j & Hj & _). congruence.
Qed.

Lemma length_zero_empty (s : string) : String.length s = 0 -> s = "".
Proof. now destruct s. Qed.

(** The text that one turn of the loop takes off the buffer. *)
Lemma segment_valid (buffer : string) (recordStart recordEnd : nat) :
  recordStart <= String.length buffer ->
  Js.indexOf closeTag buffer recordStart = Some recordEnd ->
  let seg := Js.substring recordStart (recordEnd + String.length closeTag) buffer in
  Js.drop recordStart buffer
    = seg ++ Js.drop (recordEnd + String.length closeTag) buffer /\
  endsAtFirstClose seg /\
  match Js.lastIndexOf openTag seg with
  | Some j =>
      seg = Js.take j seg ++ Js.substringFrom j seg /\
      validSegment (Dispatched (Js.take j seg) (Js.substringFrom j seg))
  | None => validSegment (Skipped seg)
  end.
Proof.
  intros Hle Hend. cbv zeta.
  pose proof Hend as Hend'.
  apply indexOf_some in Hend' as (H1 & H2 & H3); [|exact Hle].
  apply startsWith_spec in H3 as [rest Hrest].
  rewrite substring_le by lia.
  set (d := Js.drop recordStart buffer) in *.
  assert (Hd : Js.drop (recordEnd - recordStart) d = closeTag ++ rest).
  { unfold d. rewrite drop_drop.
    now replace (recordStart + (recordEnd - recordStart)) with recordEnd by lia. }
  assert (Hlen : recordEnd + String.length closeTag - recordStart <= String.length d).
  { unfold d. rewrite length_drop. lia. }
  assert (Hsplit : d = Js.take (recordEnd + String.length closeTag - recordStart) d
                       ++ Js.drop (recordEnd + String.length closeTag) buffer).
  { rewrite <- (take_drop (recordEnd + String.length closeTag - recordStart) d) at 1.
    unfold d at 2. rewrite drop_drop.
    now replace (recordStart + (recordEnd + String.length closeTag - recordStart))
      with (recordEnd + String.length closeTag) by lia. }
  assert (Hseg : Js.take (recordEnd + String.length closeTag - recordStart) d
                 = Js.take (recordEnd - recordStart) d ++ closeTag).
  { replace (recordEnd + String.length closeTag - recordStart)
      with ((recordEnd - recordStart) + String.length closeTag) by lia.
    apply take_split with (rest := rest); [|exact Hd].
    unfold d. rewrite length_drop. lia. }
  set (seg := Js.take (recordEnd + String.length closeTag - recordStart) d) in *.
  assert (Hseglen : String.length seg
                    = recordEnd + String.length closeTag - recordStart)
    by (apply length_take; exact Hlen).
  assert (Hfirst : endsAtFirstClose seg).
  { split; [eexists; exact Hseg|].
    intros a b E.
    assert (Hi : recordEnd <= recordStart + String.length a).
    { apply (indexOf_first closeTag buffer a
               (b ++ Js.drop (recordEnd + String.length closeTag) buffer)
               recordStart recordEnd Hle Hend).
      fold d. rewrite Hsplit, E. now rewrite !append_assoc. }
    apply length_zero_empty.
    apply (f_equal String.length) in E.
    rewrite Hseglen, !length_append in E. lia. }
  split; [exact Hsplit|]. split; [exact Hfirst|].
  destruct (Js.lastIndexOf openTag seg) as [j|] eqn:L.
  - assert (Hj : seg = Js.take j seg ++ Js.substringFrom j seg)
      by (unfold Js.substringFrom; now rewrite take_drop).
    split; [exact Hj|]. split; [simpl; now rewrite <- Hj|].
    pose proof (lastIndexOf_some _ _ _ L) as Hst.
    apply startsWith_spec in Hst as [r Hr].
    split; [exists r; exact Hr|].
    intros a b E.
    assert (Hjlen : j <= String.length seg).
    { destruct (Nat.le_gt_cases j (String.length seg)) as [Hok | Hbad]; [exact Hok|].
      exfalso.
      assert (Hz : String.length (Js.drop j seg) = 0) by (rewrite length_drop; lia).
      rewrite Hr in Hz. simpl in Hz. lia. }
    assert (Hlast : String.length (Js.take j seg ++ a) <= j).
    { apply (lastIndexOf_last openTag (Js.take j seg ++ a) b).
      rewrite append_assoc, <- E, <- Hj. exact L. }
    rewrite length_append, length_take in Hlast by exact Hjlen.
    apply length_zero_empty. lia.
  - split; [exact Hfirst|]. now apply lastIndexOf_none.
Qed.

(** One run of the loop: what is taken off the buffer is a sequence of
    valid segments, and what is dispatched is their fragments. *)
Lemma scanLoop_segments (fuel : nat) (buffer : string) (recordStart : nat)
    (seen : list string) (n : nat) (recordStart' : nat)
    (seen' : list string) (n' : nat) :
  recordStart <= String.length buffer ->
  scanLoop recordFragment fuel buffer recordStart seen n
    = Some (recordStart', seen', n') ->
  exists segments,
    Forall validSegment segments /\
    seen' = (seen ++ omap segmentFragment segments)%list /\
    Js.drop recordStart buffer
      = Js.concat (List.map segmentText segments) ++ Js.drop recordStart' buffer.
Proof.
  revert recordStart seen n.
  induction fuel as [|fuel IH]; intros recordStart seen n Hle; simpl;
    destruct (Js.indexOf closeTag buffer recordStart) as [recordEnd|] eqn:E;
    try discriminate.
  1, 3: intros [= <- <- <-]; exists []; simpl; rewrite app_nil_r;
        repeat split; constructor.
  destruct (segment_valid buffer recordStart recordEnd Hle E) as (Hsplit & _ & Hseg).
  pose proof E as E'.
  apply indexOf_some in E' as (_ & H2 & _); [|exact Hle].
  change (String.length closeTag) with 14 in *.
  destruct (Js.lastIndexOf openTag _) as [j|] eqn:L; intros Hrun;
    (apply IH in Hrun as (segments & Hvalid & -> & Hrest); [|exact H2]).
  - destruct Hseg as [Hj Hv].
    eexists (Dispatched _ _ :: segments). split; [constructor; eassumption|].
    split.
    + unfold recordFragment. simpl. now rewrite <- List.app_assoc.
    + rewrite Hsplit, Hrest. simpl. rewrite <- Hj. now rewrite !append_assoc.
  - eexists (Skipped _ :: segments). split; [constructor; eassumption|].
    split; [reflexivity|].
    rewrite Hsplit, Hrest. simpl. now rewrite !append_assoc.
Qed.

(** The scan of a whole file. *)
Lemma dispatchedFragments_segments (chunks : list string) (tail : string)
    (fragments : list string) (n : nat) :
  dispatchedFragments chunks = Some (tail, fragments, n) ->
  exists segments,
    Forall validSegment segments /\
    fragments = omap segmentFragment segments /\
    Js.concat chunks = Js.concat (List.map segmentText segments) ++ tail /\
    ~ occursIn closeTag tail.
Proof.
  unfold dispatchedFragments. rewrite scanStream_chunking.
  unfold scanStream. cbn [onChunks]. unfold onData.
  change (EmptyString ++ Js.concat chunks) with (Js.concat chunks).
  destruct (scanLoop recordFragment _ (Js.concat chunks) 0 [] 0)
    as [[[recordStart seen] n1]|] eqn:Hloop; [|discriminate].
  intros [= <- <- <-].
  pose proof (scanLoop_exit recordFragment _ _ _ _ _ _ _ _ (Nat.le_0_l _) Hloop)
    as [_ Hnone].
  apply scanLoop_segments in Hloop as (segments & Hvalid & -> & Heq); [|lia].
  exists segments. split; [exact Hvalid|]. split; [reflexivity|].
  split; [exact Heq|].
  intros (a & b & Hocc).
  apply indexOf_none_drop in Hnone. unfold Js.substringFrom in Hocc.
  rewrite Hocc in Hnone. unfold Js.indexOf in Hnone.
  apply (findFrom_none_shift _ _ _ 0) in Hnone. cbn [Js.drop] in Hnone.
  destruct (findFrom_occurs closeTag a b 0) as [i Hi]. congruence.
Qed.

End ScannerSegments.

(** C2 (as amended).  For every file, however it is cut into chunks, the
    scanner returns, and what it dispatches is what it dispatches when the
    whole file arrives as one chunk; [processXmlFile] runs its callback on
    these fragments in order; every fragment runs from an opening marker
    to a closing marker; the remaining buffer holds no closing marker and
    is never dispatched.  The file is that remainder preceded by a
    sequence of segments, each ending at the first closing marker after
    the previous segment: a segment that holds an opening marker is
    dispatched from its last opening marker on, the text in front of
    that marker being skipped; a segment that holds no opening marker is
    skipped as a whole; and the fragments dispatched are exactly those of
    the segments, in order. *)
Theorem scanner_fragments_partition (chunks : list string) :
  exists tail fragments,
    dispatchedFragments chunks = Some (tail, fragments, length fragments) /\
    dispatchedFragments [Js.concat chunks] = dispatchedFragments chunks /\
    (forall parseFragment ps,
        processXmlFile parseFragment chunks ps
        = Some (tail,
                fold_left (fun st fragment => processRecord parseFragment fragment st)
                          fragments ps,
                length fragments)) /\
    Forall wellFormedFragment fragments /\
    Js.indexOf closeTag tail 0 = None /\
    ~ occursIn closeTag tail /\
    exists segments,
      Forall validSegment segments /\
      fragments = omap segmentFragment segments /\
      Js.concat chunks = Js.concat (List.map segmentText segments) ++ tail.
Proof.
  destruct (scanStream_total recordFragment chunks []) as [[[tail fragments] n] H].
  pose proof H as H'. unfold scanStream in H'.
  apply onChunks_partition in H'
    as (Hnone & parts & dropped & Hseen & Hn & Hwf & Heq); [|reflexivity].
  simpl in Hseen, Hn, Heq. subst fragments n.
  destruct (dispatchedFragments_segments chunks tail _ _ H)
    as (segments & Hvalid & Hfragments & Hfile & Htail).
  exists tail, (List.map snd parts). rewrite List.length_map in *.
  split; [exact H|].
  split; [unfold dispatchedFragments; now rewrite <- scanStream_chunking|].
  split.
  { intros parseFragment ps. unfold processXmlFile.
    rewrite scanStream_dispatch. unfold dispatchedFragments. now rewrite H. }
  split; [exact Hwf|]. split; [exact Hnone|]. split; [exact Htail|].
  exists segments. split; [exact Hvalid|].
  split; [exact Hfragments | exact Hfile].
Qed.

(** C2 fails as stated: on a file whose only record follows the opening
    tag of the collection, the scanner dispatches the record alone, and
    the concatenation of the fragments falls short of the file although
    nothing is left unterminated. *)
Lemma scanner_concat_counterexample :
  dispatchedFragments ["<marc:collection><marc:record>a</marc:record>"]
    = Some ("", ["<marc:record>a</marc:record>"], 1) /\
  Js.concat ["<marc:record>a</marc:record>"] ++ ""
    <> Js.concat ["<marc:collection><marc:record>a</marc:record>"].
Proof.
  split; [vm_compute; reflexivity | vm_compute; discriminate].
Qed.

(* ===================================================================== *)
(** * The multi-category matcher against single-criterion extraction *)
(* ===================================================================== *)

Section MatcherFacts.

(** [recordMatchesCategoryFilter] is [recordMatchesCriteria], refactored. *)
Lemma recordMatchesCategoryFilter_criteria (record : MarcRecord)
    (field name : string) :
  recordMatchesCategoryFilter record field name
  = recordMatchesCriteria record (ExtractOptions.mk field name).
Proof. reflexivity. Qed.

(** On validated categories the bucket key determines field and name. *)
Lemma categoryKey_inj (c1 c2 : BulkExtractItem.t) :
  validField c1 = true -> validField c2 = true ->
  categoryKey c1 = categoryKey c2 ->
  BulkExtractItem.field c1 = BulkExtractItem.field c2 /\
  BulkExtractItem.name c1 = BulkExtractItem.name c2.
Proof.
  unfold validField, categoryKey.
  destruct c1 as [n1 k1 f1], c2 as [n2 k2 f2]; simpl.
  rewrite !orb_true_iff, !String.eqb_eq.
  intros [-> | ->] [-> | ->] H; simpl in H;
    first [discriminate H | injection H as ->; split; reflexivity].
Qed.

Lemma categoryKeys_NoDup (categories : list BulkExtractItem.t) :
  Forall (fun c => validField c = true) categories ->
  List.NoDup (List.map (fun c => (BulkExtractItem.field c, BulkExtractItem.name c))
                       categories) ->
  List.NoDup (List.map categoryKey categories).
Proof.
  induction categories as [|c categories IH]; simpl; intros Hvalid Hnd.
  - constructor.
  - apply Forall_cons_1 in Hvalid as [Hc Hvalid].
    apply List.NoDup_cons_iff in Hnd as [Hnotin Hnd].
    constructor; [|now apply IH].
    intros Hin. apply Hnotin.
    apply List.in_map_iff in Hin as (c' & Hkey & Hin').
    apply List.in_map_iff. exists c'. split; [|exact Hin'].
    rewrite Forall_forall in Hvalid.
    destruct (categoryKey_inj c' c) as [-> ->]; auto.
    apply Hvalid. now apply list_elem_of_In.
Qed.

Lemma initBuckets_lookup (categories : list BulkExtractItem.t)
    (buckets : gmap string (list BookRecord)) (key : string) :
  List.In key (List.map categoryKey categories) \/ buckets !! key = Some [] ->
  fold_left (fun m category => <[categoryKey category := []]> m) categories buckets
    !! key = Some [].
Proof.
  revert buckets; induction categories as [|c categories IH]; intros buckets; simpl.
  - intros [[] | H]; exact H.
  - intros H. apply IH.
    destruct (decide (categoryKey c = key)) as [<- | Hne].
    + right. apply lookup_insert_eq.
    + destruct H as [[H | H] | H]; [contradiction | now left |].
      right. now rewrite lookup_insert_ne.
Qed.

Variable parseFragment : string -> option MarcRecord.

Lemma matchCategory_other (record : MarcRecord)
    (buckets : gmap string (list BookRecord)) (c : BulkExtractItem.t)
    (key : string) :
  categoryKey c <> key ->
  matchCategory record buckets c !! key = buckets !! key.
Proof.
  intros Hne. unfold matchCategory.
  destruct (recordMatchesCategoryFilter _ _ _); [|reflexivity].
  destruct (buckets !! categoryKey c); [|reflexivity].
  now rewrite lookup_insert_ne.
Qed.

Lemma fold_matchCategory_other (record : MarcRecord)
    (categories : list BulkExtractItem.t)
    (buckets : gmap string (list BookRecord)) (key : string) :
  ~ List.In key (List.map categoryKey categories) ->
  fold_left (matchCategory record) categories buckets !! key = buckets !! key.
Proof.
  revert buckets; induction categories as [|c categories IH]; intros buckets Hnotin;
    simpl; [reflexivity|].
  simpl in Hnotin. rewrite IH by tauto.
  apply matchCategory_other. tauto.
Qed.

(** One record run against all categories appends to the bucket of a
    category exactly when the record matches that category. *)
Lemma fold_matchCategory_lookup (record : MarcRecord)
    (categories : list BulkExtractItem.t) (c : BulkExtractItem.t)
    (buckets : gmap string (list BookRecord)) (bucket : list BookRecord) :
  List.NoDup (List.map categoryKey categories) ->
  List.In c categories ->
  buckets !! categoryKey c = Some bucket ->
  fold_left (matchCategory record) categories buckets !! categoryKey c
  = Some (if recordMatchesCategoryFilter record (BulkExtractItem.field c)
                                         (BulkExtractItem.name c)
          then (bucket ++ [convertToBookRecord record])%list else bucket).
Proof.
  revert buckets; induction categories as [|c' categories IH];
    intros buckets Hnd Hin Hlook; simpl in *; [contradiction|].
  apply List.NoDup_cons_iff in Hnd as [Hnotin Hnd].
  destruct Hin as [-> | Hin].
  - rewrite fold_matchCategory_other by exact Hnotin.
    unfold matchCategory.
    destruct (recordMatchesCategoryFilter _ _ _); [|exact Hlook].
    rewrite Hlook. apply lookup_insert_eq.
  - apply IH; [exact Hnd | exact Hin |].
    rewrite matchCategory_other; [exact Hlook|].
    intros Heq. apply Hnotin. rewrite Heq.
    apply List.in_map. exact Hin.
Qed.

(** The two per-record callbacks keep the bucket of a category and the
    result list of its single-criterion extraction equal. *)
Lemma callbacks_agree (categories : list BulkExtractItem.t)
    (c : BulkExtractItem.t) (fragment : string)
    (buckets : gmap string (list BookRecord)) (matching : list BookRecord) :
  List.NoDup (List.map categoryKey categories) ->
  List.In c categories ->
  buckets !! categoryKey c = Some matching ->
  processRecordForAllCategories parseFragment categories fragment buckets
    !! categoryKey c
  = Some (processRecordForExtraction parseFragment
            (ExtractOptions.mk (BulkExtractItem.field c) (BulkExtractItem.name c))
            fragment matching).
Proof.
  intros Hnd Hin Hlook.
  unfold processRecordForAllCategories, processRecordForExtraction.
  destruct (parseFragment fragment) as [record|]; [|exact Hlook].
  rewrite (fold_matchCategory_lookup record categories c buckets matching)
    by assumption.
  now rewrite recordMatchesCategoryFilter_criteria.
Qed.

End MatcherFacts.

(** C1.  For every input file (however each of the two scans receives it
    in chunks, and whatever the fragment parser) and every list of
    validated category definitions in which no (field, name) pair occurs
    twice, the bucket that the single-pass matcher returns for a category
    is the list of records that [extractRecords] returns for that field
    and name on the same file; both scans return. *)
Theorem single_pass_buckets_match_extractRecords
    (parseFragment : string -> option MarcRecord) (chunks chunks' : list string)
    (categories : list BulkExtractItem.t) (category : BulkExtractItem.t) :
  Js.concat chunks = Js.concat chunks' ->
  Forall (fun c => validField c = true) categories ->
  List.NoDup (List.map (fun c => (BulkExtractItem.field c, BulkExtractItem.name c))
                       categories) ->
  List.In category categories ->
  exists buckets matchingRecords,
    extractAllCategoriesInSinglePass parseFragment chunks categories = Some buckets /\
    extractRecords parseFragment chunks'
      (ExtractOptions.mk (BulkExtractItem.field category)
                         (BulkExtractItem.name category)) = Some matchingRecords /\
    buckets !! categoryKey category = Some matchingRecords.
Proof.
  intros Hfile Hvalid Hnd Hin.
  pose proof (categoryKeys_NoDup categories Hvalid Hnd) as Hkeys.
  set (options := ExtractOptions.mk (BulkExtractItem.field category)
                                    (BulkExtractItem.name category)).
  pose proof (scanStream_related
                (fun buckets matching => buckets !! categoryKey category = Some matching)
                (processRecordForAllCategories parseFragment categories)
                (processRecordForExtraction parseFragment options)) as Hrel.
  specialize (Hrel (fun fragment buckets matching H =>
                      callbacks_agree parseFragment categories category fragment
                        buckets matching Hkeys Hin H)).
  specialize (Hrel [Js.concat chunks] (initBuckets categories) []).
  unfold extractAllCategoriesInSinglePass, extractRecords.
  rewrite (scanStream_chunking _ chunks), (scanStream_chunking _ chunks'), <- Hfile.
  destruct (scanStream_total (processRecordForAllCategories parseFragment categories)
              [Js.concat chunks] (initBuckets categories)) as [[[t1 buckets] n1] E1].
  destruct (scanStream_total (processRecordForExtraction parseFragment options)
              [Js.concat chunks] []) as [[[t2 matching] n2] E2].
  rewrite E1, E2 in *. simpl in Hrel.
  exists buckets, matching. repeat split.
  apply Hrel. apply initBuckets_lookup. left.
  apply List.in_map. exact Hin.
Qed.

Lemma single_pass_buckets_witness :
  exists buckets matchingRecords,
    extractAllCategoriesInSinglePass sampleParseFragment sampleChunks sampleCategories
      = Some buckets /\
    extractRecords sampleParseFragment [Js.concat sampleChunks]
      (ExtractOptions.mk "650" "Education") = Some matchingRecords /\
    buckets !! "650:Education" = Some matchingRecords.
Proof.
  apply (single_pass_buckets_match_extractRecords sampleParseFragment sampleChunks
           [Js.concat sampleChunks] sampleCategories
           (BulkExtractItem.mk "Education" 2 "650")).
  - reflexivity.
  - repeat constructor.
  - repeat constructor; simpl; intuition discriminate.
  - simpl. auto.
Defined.

(* ===================================================================== *)
(** * Facts about the Book Record Mapper *)
(* ===================================================================== *)

Section MapperFrame.

(** A projection of the record that every step of a loop leaves alone is
    left alone by the loop. *)
Lemma fold_left_frame {S X V : Type} (proj : S -> V) (step : S -> X -> S)
    (l : list X) (s : S) :
  (forall s x, proj (step s x) = proj s) ->
  proj (fold_left step l s) = proj s.
Proof.
  intros H. revert s; induction l as [|x l IH]; intros s; simpl; [reflexivity|].
  now rewrite IH, H.
Qed.

Lemma last_app_cases {X : Type} (l1 l2 : list X) :
  last (l1 ++ l2)%list = match last l2 with Some v => Some v | None => last l1 end.
Proof.
  induction l2 as [|x l2 IH] using rev_ind.
  - now rewrite app_nil_r.
  - rewrite List.app_assoc, !last_snoc. reflexivity.
Qed.

Lemma qualifies_exclusive (c1 c2 : string) (sf : SubField) :
  c1 <> c2 -> qualifies c1 sf = true -> qualifies c2 sf = false.
Proof.
  unfold qualifies. intros Hne H.
  apply andb_true_iff in H as [H _]. apply String.eqb_eq in H.
  rewrite H. apply String.eqb_neq in Hne. now rewrite Hne.
Qed.

End MapperFrame.

(** Tactic for the frame lemmas: a case of the switch that does not assign
    the projected property. *)
Ltac frame_case :=
  intros;
  repeat match goal with
         | |- context [fold_left ?step ?l ?s] =>
             first [ rewrite (fold_left_frame publisher step l s)
                   | rewrite (fold_left_frame publicationDate step l s)
                   | rewrite (fold_left_frame description step l s)
                   | rewrite (fold_left_frame ISBN step l s) ];
             [| intros; frame_case ]
         | |- context [match ?x with _ => _ end] => destruct x; simpl
         | |- context [if ?x then _ else _] => destruct x; simpl
         end;
  try reflexivity.

Section PublicationFacts.

Lemma case260_publisher (subFields : list SubField) (b : BookRecord) :
  publisher (case260 subFields b)
  = match lastTrimmed (List.map text (List.filter (qualifies "b") subFields)) with
    | Some v => v
    | None => publisher b
    end.
Proof.
  unfold case260, lastTrimmed.
  revert b; induction subFields as [|sf subFields IH] using rev_ind; intros b.
  - reflexivity.
  - rewrite fold_left_app, List.filter_app, List.map_app, last_app_cases. simpl.
    unfold publicationStep at 1.
    destruct (qualifies "b" sf) eqn:Eb; simpl; [reflexivity|].
    destruct (qualifies "c" sf); simpl; apply IH.
Qed.

Lemma case260_publicationDate (subFields : list SubField) (b : BookRecord) :
  publicationDate (case260 subFields b)
  = match lastTrimmed (List.map text (List.filter (qualifies "c") subFields)) with
    | Some v => Some v
    | None => publicationDate b
    end.
Proof.
  unfold case260, lastTrimmed.
  revert b; induction subFields as [|sf subFields IH] using rev_ind; intros b.
  - reflexivity.
  - rewrite fold_left_app, List.filter_app, List.map_app, last_app_cases. simpl.
    unfold publicationStep at 1.
    destruct (qualifies "b" sf) eqn:Eb; simpl.
    + rewrite (qualifies_exclusive "b" "c" sf) by (discriminate || exact Eb).
      simpl. apply IH.
    + destruct (qualifies "c" sf); simpl; [reflexivity | apply IH].
Qed.

Lemma case020_publisher sfs b : publisher (case020 sfs b) = publisher b.
Proof. unfold case020, firstQualifying. frame_case. Qed.
Lemma caseAuthors_publisher sfs b : publisher (caseAuthors sfs b) = publisher b.
Proof. unfold caseAuthors. apply fold_left_frame. unfold authorStep. frame_case. Qed.
Lemma case245_publisher sfs b : publisher (case245 sfs b) = publisher b.
Proof. unfold case245. destruct (fold_left titleStep sfs _). reflexivity. Qed.
Lemma case300_publisher sfs b : publisher (case300 sfs b) = publisher b.
Proof. unfold case300, firstQualifying. frame_case. Qed.
Lemma case520_publisher sfs b : publisher (case520 sfs b) = publisher b.
Proof. unfold case520, firstQualifying. frame_case. Qed.
Lemma case540_publisher sfs b : publisher (case540 sfs b) = publisher b.
Proof. unfold case540. apply fold_left_frame. unfold licenceStep. frame_case. Qed.
Lemma case546_publisher sfs b : publisher (case546 sfs b) = publisher b.
Proof. unfold case546, firstQualifying. frame_case. Qed.
Lemma case856_publisher sfs b : publisher (case856 sfs b) = publisher b.
Proof. unfold case856. destruct (collectUrl sfs). frame_case. Qed.

Lemma case020_publicationDate sfs b :
  publicationDate (case020 sfs b) = publicationDate b.
Proof. unfold case020, firstQualifying. frame_case. Qed.
Lemma caseAuthors_publicationDate sfs b :
  publicationDate (caseAuthors sfs b) = publicationDate b.
Proof. unfold caseAuthors. apply fold_left_frame. unfold authorStep. frame_case. Qed.
Lemma case245_publicationDate sfs b :
  publicationDate (case245 sfs b) = publicationDate b.
Proof. unfold case245. destruct (fold_left titleStep sfs _). reflexivity. Qed.
Lemma case300_publicationDate sfs b :
  publicationDate (case300 sfs b) = publicationDate b.
Proof. unfold case300, firstQualifying. frame_case. Qed.
Lemma case520_publicationDate sfs b :
  publicationDate (case520 sfs b) = publicationDate b.
Proof. unfold case520, firstQualifying. frame_case. Qed.
Lemma case540_publicationDate sfs b :
  publicationDate (case540 sfs b) = publicationDate b.
Proof. unfold case540. apply fold_left_frame. unfold licenceStep. frame_case. Qed.
Lemma case546_publicationDate sfs b :
  publicationDate (case546 sfs b) = publicationDate b.
Proof. unfold case546, firstQualifying. frame_case. Qed.
Lemma case856_publicationDate sfs b :
  publicationDate (case856 sfs b) = publicationDate b.
Proof. unfold case856. destruct (collectUrl sfs). frame_case. Qed.

(** The values that one data field contributes to
    [subfieldValues tag c]. *)
Lemma applyDataField_publisher (b : BookRecord) (df : DataField) :
  publisher (applyDataField b df)
  = match lastTrimmed (if hasTag "260" df
                       then List.map text (List.filter (qualifies "b") (subfields df))
                       else []) with
    | Some v => v
    | None => publisher b
    end.
Proof.
  unfold applyDataField, hasTag.
  destruct (attrs df) as [tag|]; [|reflexivity].
  destruct (String.eqb tag "260") eqn:E260.
  - apply String.eqb_eq in E260. subst tag. simpl. apply case260_publisher.
  - simpl.
    repeat match goal with
           | |- context [if ?x then _ else _] => destruct x
           end;
      auto using case020_publisher, caseAuthors_publisher, case245_publisher,
        case300_publisher, case520_publisher, case540_publisher,
        case546_publisher, case856_publisher.
Qed.

Lemma applyDataField_publicationDate (b : BookRecord) (df : DataField) :
  publicationDate (applyDataField b df)
  = match lastTrimmed (if hasTag "260" df
                       then List.map text (List.filter (qualifies "c") (subfields df))
                       else []) with
    | Some v => Some v
    | None => publicationDate b
    end.
Proof.
  unfold applyDataField, hasTag.
  destruct (attrs df) as [tag|]; [|reflexivity].
  destruct (String.eqb tag "260") eqn:E260.
  - apply String.eqb_eq in E260. subst tag. simpl. apply case260_publicationDate.
  - simpl.
    repeat match goal with
           | |- context [if ?x then _ else _] => destruct x
           end;
      auto using case020_publicationDate, caseAuthors_publicationDate,
        case245_publicationDate, case300_publicationDate, case520_publicationDate,
        case540_publicationDate, case546_publicationDate, case856_publicationDate.
Qed.

Lemma fold_applyDataField_publisher (dfs : list DataField) (b : BookRecord) :
  publisher (fold_left applyDataField dfs b)
  = match lastTrimmed (subfieldValues "260" "b" (mkMarcRecord dfs)) with
    | Some v => v
    | None => publisher b
    end.
Proof.
  unfold subfieldValues, lastTrimmed. simpl.
  revert b; induction dfs as [|df dfs IH] using rev_ind; intros b.
  - reflexivity.
  - rewrite fold_left_app, List.flat_map_app, last_app_cases. simpl.
    rewrite app_nil_r, applyDataField_publisher. unfold lastTrimmed.
    destruct (last (if hasTag "260" df then _ else [])); simpl;
      [reflexivity | apply IH].
Qed.

Lemma fold_applyDataField_publicationDate (dfs : list DataField) (b : BookRecord) :
  publicationDate (fold_left applyDataField dfs b)
  = match lastTrimmed (subfieldValues "260" "c" (mkMarcRecord dfs)) with
    | Some v => Some v
    | None => publicationDate b
    end.
Proof.
  unfold subfieldValues, lastTrimmed. simpl.
  revert b; induction dfs as [|df dfs IH] using rev_ind; intros b.
  - reflexivity.
  - rewrite fold_left_app, List.flat_map_app, last_app_cases. simpl.
    rewrite app_nil_r, applyDataField_publicationDate. unfold lastTrimmed.
    destruct (last (if hasTag "260" df then _ else [])); simpl;
      [reflexivity | apply IH].
Qed.

End PublicationFacts.

(** C5.  For every FieldTree, the publisher of the mapped record is the
    trimmed text of the last subfield [b] (with a text) under the field 260
    occurrences in document order, or the default [""] when there is none;
    independently, the publication date is that of the last subfield [c],
    or absent: later occurrences overwrite earlier ones. *)
Theorem publication_last_occurrence_wins (record : MarcRecord) :
  publisher (convertToBookRecord record)
    = default "" (lastTrimmed (subfieldValues "260" "b" record)) /\
  publicationDate (convertToBookRecord record)
    = lastTrimmed (subfieldValues "260" "c" record).
Proof.
  destruct record as [dfs]. unfold convertToBookRecord. simpl. split.
  - rewrite fold_applyDataField_publisher.
    now destruct (lastTrimmed _).
  - rewrite fold_applyDataField_publicationDate.
    now destruct (lastTrimmed _).
Qed.

Section DescriptionFacts.

Lemma case020_description sfs b : description (case020 sfs b) = description b.
Proof. unfold case020, firstQualifying. frame_case. Qed.
Lemma caseAuthors_description sfs b : description (caseAuthors sfs b) = description b.
Proof. unfold caseAuthors. apply fold_left_frame. unfold authorStep. frame_case. Qed.
Lemma case245_description sfs b : description (case245 sfs b) = description b.
Proof. unfold case245. destruct (fold_left titleStep sfs _). reflexivity. Qed.
Lemma case260_description sfs b : description (case260 sfs b) = description b.
Proof. unfold case260. apply fold_left_frame. unfold publicationStep. frame_case. Qed.
Lemma case300_description sfs b : description (case300 sfs b) = description b.
Proof. unfold case300, firstQualifying. frame_case. Qed.
Lemma case540_description sfs b : description (case540 sfs b) = description b.
Proof. unfold case540. apply fold_left_frame. unfold licenceStep. frame_case. Qed.
Lemma case546_description sfs b : description (case546 sfs b) = description b.
Proof. unfold case546, firstQualifying. frame_case. Qed.
Lemma case856_description sfs b : description (case856 sfs b) = description b.
Proof. unfold case856. destruct (collectUrl sfs). frame_case. Qed.

Lemma caseAuthors_ISBN sfs b : ISBN (caseAuthors sfs b) = ISBN b.
Proof. unfold caseAuthors. apply fold_left_frame. unfold authorStep. frame_case. Qed.
Lemma case245_ISBN sfs b : ISBN (case245 sfs b) = ISBN b.
Proof. unfold case245. destruct (fold_left titleStep sfs _). reflexivity. Qed.
Lemma case260_ISBN sfs b : ISBN (case260 sfs b) = ISBN b.
Proof. unfold case260. apply fold_left_frame. unfold publicationStep. frame_case. Qed.
Lemma case300_ISBN sfs b : ISBN (case300 sfs b) = ISBN b.
Proof. unfold case300, firstQualifying. frame_case. Qed.
Lemma case520_ISBN sfs b : ISBN (case520 sfs b) = ISBN b.
Proof. unfold case520, firstQualifying. frame_case. Qed.
Lemma case540_ISBN sfs b : ISBN (case540 sfs b) = ISBN b.
Proof. unfold case540. apply fold_left_frame. unfold licenceStep. frame_case. Qed.
Lemma case546_ISBN sfs b : ISBN (case546 sfs b) = ISBN b.
Proof. unfold case546, firstQualifying. frame_case. Qed.
Lemma case856_ISBN sfs b : ISBN (case856 sfs b) = ISBN b.
Proof. unfold case856. destruct (collectUrl sfs). frame_case. Qed.

Lemma applyDataField_description (b : BookRecord) (df : DataField) :
  description (applyDataField b df)
  = match lastTrimmed (if hasTag "520" df
                       then match firstQualifying "a" (subfields df) with
                            | Some sf => [text sf]
                            | None => []
                            end
                       else []) with
    | Some v => Some v
    | None => description b
    end.
Proof.
  unfold applyDataField, hasTag.
  destruct (attrs df) as [tag|]; [|reflexivity].
  destruct (String.eqb tag "520") eqn:E520.
  - apply String.eqb_eq in E520. subst tag. simpl. unfold case520.
    now destruct (firstQualifying "a" (subfields df)).
  - simpl.
    repeat match goal with
           | |- context [if ?x then _ else _] => destruct x
           end;
      auto using case020_description, caseAuthors_description, case245_description,
        case260_description, case300_description, case540_description,
        case546_description, case856_description.
Qed.

Lemma applyDataField_ISBN (b : BookRecord) (df : DataField) :
  ISBN (applyDataField b df)
  = if Js.truthyOpt (ISBN b) then ISBN b
    else match (if hasTag "020" df
                then match firstQualifying "a" (subfields df) with
                     | Some sf => [text sf]
                     | None => []
                     end
                else []) with
         | v :: _ => Some (Js.trim v)
         | [] => ISBN b
         end.
Proof.
  unfold applyDataField, hasTag.
  destruct (attrs df) as [tag|]; [|now destruct (Js.truthyOpt (ISBN b))].
  destruct (String.eqb tag "020") eqn:E020.
  - unfold case020.
    destruct (Js.truthyOpt (ISBN b)); simpl; [reflexivity|].
    now destruct (firstQualifying "a" (subfields df)).
  - assert (G : ISBN (if String.eqb tag "100" || String.eqb tag "700"
                      then caseAuthors (subfields df) b
                      else if String.eqb tag "245" then case245 (subfields df) b
                      else if String.eqb tag "260" then case260 (subfields df) b
                      else if String.eqb tag "300" then case300 (subfields df) b
                      else if String.eqb tag "520" then case520 (subfields df) b
                      else if String.eqb tag "540" then case540 (subfields df) b
                      else if String.eqb tag "546" then case546 (subfields df) b
                      else if String.eqb tag "856" then case856 (subfields df) b
                      else b) = ISBN b).
    { repeat match goal with
             | |- context [if ?x then _ else _] => destruct x
             end;
        auto using caseAuthors_ISBN, case245_ISBN, case260_ISBN, case300_ISBN,
          case520_ISBN, case540_ISBN, case546_ISBN, case856_ISBN. }
    rewrite G. now destruct (Js.truthyOpt (ISBN b)).
Qed.

(** For every FieldTree the description is taken from the last field 520
    occurrence that offers one: later occurrences overwrite earlier
    ones. *)
Lemma description_last_occurrence (record : MarcRecord) :
  description (convertToBookRecord record)
  = lastTrimmed (firstPerOccurrence "520" "a" record).
Proof.
  destruct record as [dfs]. unfold convertToBookRecord. simpl.
  assert (G : forall b,
    description (fold_left applyDataField dfs b)
    = match lastTrimmed (firstPerOccurrence "520" "a" (mkMarcRecord dfs)) with
      | Some v => Some v
      | None => description b
      end).
  { unfold firstPerOccurrence, lastTrimmed. simpl.
    induction dfs as [|df dfs IH] using rev_ind; intros b; [reflexivity|].
    rewrite fold_left_app, List.flat_map_app, last_app_cases. simpl.
    rewrite app_nil_r, applyDataField_description. unfold lastTrimmed.
    destruct (last (if hasTag "520" df then _ else [])); simpl;
      [reflexivity | apply IH]. }
  rewrite G. now destruct (lastTrimmed _).
Qed.

Lemma ISBN_sticky (dfs : list DataField) (b : BookRecord) :
  Js.truthyOpt (ISBN b) = true ->
  ISBN (fold_left applyDataField dfs b) = ISBN b.
Proof.
  revert b; induction dfs as [|df dfs IH]; intros b Hb; simpl; [reflexivity|].
  assert (E : ISBN (applyDataField b df) = ISBN b)
    by (rewrite applyDataField_ISBN; now rewrite Hb).
  rewrite IH; [exact E | now rewrite E].
Qed.

(** For every FieldTree whose first offered ISBN is not blank, the ISBN is
    that first one, whatever later field 020 occurrences hold. *)
Lemma ISBN_first_occurrence (record : MarcRecord) (v : string) (rest : list string) :
  firstPerOccurrence "020" "a" record = v :: rest ->
  Js.truthy (Js.trim v) = true ->
  ISBN (convertToBookRecord record) = Some (Js.trim v).
Proof.
  destruct record as [dfs]. unfold convertToBookRecord. simpl.
  assert (G : forall b,
    Js.truthyOpt (ISBN b) = false ->
    firstPerOccurrence "020" "a" (mkMarcRecord dfs) = v :: rest ->
    Js.truthy (Js.trim v) = true ->
    ISBN (fold_left applyDataField dfs b) = Some (Js.trim v)).
  { unfold firstPerOccurrence. simpl.
    revert rest. induction dfs as [|df dfs IH]; intros rest b Hb Hfirst Hv;
      [discriminate|].
    simpl in *. pose proof (applyDataField_ISBN b df) as E. rewrite Hb in E.
    destruct (if hasTag "020" df then _ else []) as [|v0 vs] eqn:Ec.
    - simpl in Hfirst. apply (IH rest); auto. now rewrite E.
    - simpl in Hfirst. injection Hfirst as -> _.
      rewrite ISBN_sticky; [exact E | now rewrite E]. }
  intros Hfirst Hv. now apply (G defaultBookRecord).
Qed.

End DescriptionFacts.

(** C3, at the input on which the code departs from it.  With field 020
    and field 520 both repeated, the ISBN is that of the first field 020
    occurrence, but the description is that of the last field 520
    occurrence: [case '520'] lacks the guard that [case '020'] has, so each
    later occurrence overwrites the description. *)
Theorem description_repeated_takes_last :
  ISBN (convertToBookRecord repeatedDescriptionRecord) = Some "9780472057627" /\
  subfieldValues "520" "a" repeatedDescriptionRecord
    = ["First summary"; "Second summary"] /\
  description (convertToBookRecord repeatedDescriptionRecord) = Some "Second summary".
Proof. repeat split; vm_compute; reflexivity. Qed.

Section ThumbnailFacts.

Import JsFacts.

Lemma findFrom_occurrence (needle before after : string) (pos : nat) :
  Js.findFrom needle (before ++ needle ++ after) pos <> None.
Proof.
  revert pos; induction before as [|c before IH]; intros pos;
    rewrite findFrom_step.
  - assert (H : Js.startsWith needle ("" ++ needle ++ after) = true)
      by (apply startsWith_spec; now exists after).
    rewrite H. discriminate.
  - destruct (Js.startsWith needle _); [discriminate | apply IH].
Qed.

(** [includes] is the occurrence of the needle as a substring. *)
Lemma includes_spec (needle s : string) :
  Js.includes needle s = true <-> exists before after, s = before ++ needle ++ after.
Proof.
  unfold Js.includes. split.
  - destruct (Js.indexOf needle s 0) as [i|] eqn:E; [|discriminate].
    intros _. apply indexOf_some in E as (_ & _ & H); [|lia].
    apply startsWith_spec in H as [after H].
    exists (Js.take i s), after. now rewrite <- H, take_drop.
  - intros (before & after & ->). unfold Js.indexOf. simpl.
    pose proof (findFrom_occurrence needle before after 0) as H.
    now destruct (Js.findFrom _ _ _).
Qed.

Lemma toLowerCase_append (a b : string) :
  Js.toLowerCase (a ++ b) = Js.toLowerCase a ++ Js.toLowerCase b.
Proof. induction a as [|c a IH]; simpl; [reflexivity | now rewrite IH]. Qed.

Lemma toLowerCase_split (s x y : string) :
  Js.toLowerCase s = x ++ y ->
  exists a b, s = a ++ b /\ Js.toLowerCase a = x /\ Js.toLowerCase b = y.
Proof.
  revert s; induction x as [|c x IH]; intros s H; simpl in H.
  - exists "", s. auto.
  - destruct s as [|d s]; simpl in H; [discriminate|].
    injection H as Hc H. apply IH in H as (a & b & -> & <- & <-).
    exists (String d a), b. simpl. now rewrite Hc.
Qed.

Lemma lowerChar_idempotent (c : ascii) :
  Js.lowerChar (Js.lowerChar c) = Js.lowerChar c.
Proof. destruct c as [[] [] [] [] [] [] [] []]; vm_compute; reflexivity. Qed.

Lemma toLowerCase_idempotent (s : string) :
  Js.toLowerCase (Js.toLowerCase s) = Js.toLowerCase s.
Proof.
  induction s as [|c s IH]; simpl; [reflexivity|].
  now rewrite lowerChar_idempotent, IH.
Qed.

(** Searching a lower-case marker in the lower-cased text is the
    case-insensitive substring test. *)
Lemma includes_lower_spec (marker s : string) :
  Js.toLowerCase marker = marker ->
  Js.includes marker (Js.toLowerCase s) = true <-> occursIgnoringCase marker s.
Proof.
  intros Hm. rewrite includes_spec. unfold occursIgnoringCase. split.
  - intros (before & after & H).
    apply toLowerCase_split in H as (a & rest & -> & _ & H).
    apply toLowerCase_split in H as (span & c & -> & H & _).
    exists a, span, c. split; [reflexivity | now rewrite Hm].
  - intros (before & span & after & -> & H).
    exists (Js.toLowerCase before), (Js.toLowerCase after).
    now rewrite !toLowerCase_append, H, Hm.
Qed.

Lemma occursIgnoringCase_lower (marker s : string) :
  occursIgnoringCase marker (Js.toLowerCase s) <-> occursIgnoringCase marker s.
Proof.
  unfold occursIgnoringCase. split.
  - intros (before & span & after & H & Hs).
    apply toLowerCase_split in H as (a & rest & -> & _ & H).
    apply toLowerCase_split in H as (span' & c & -> & H & _).
    exists a, span', c. split; [reflexivity|].
    rewrite <- Hs, <- H. now rewrite toLowerCase_idempotent.
  - intros (before & span & after & -> & Hs).
    exists (Js.toLowerCase before), (Js.toLowerCase span), (Js.toLowerCase after).
    split; [now rewrite !toLowerCase_append|].
    now rewrite toLowerCase_idempotent.
Qed.

(** What the collecting loop of [case '856'] keeps. *)
Lemma collectUrl_spec (subFields : list SubField) :
  collectUrl subFields
  = (pairedUrl subFields, Js.toLowerCase (pairedDescription subFields)).
Proof.
  unfold collectUrl, pairedUrl, pairedDescription, lastTrimmed.
  assert (G : forall acc,
    fold_left urlStep subFields acc
    = (default (fst acc)
         (Js.trim <$> last (List.map text (List.filter (qualifies "u") subFields))),
       default (snd acc)
         (Js.toLowerCase <$>
            (Js.trim <$> last (List.map text (List.filter (qualifies "z") subFields)))))).
  { induction subFields as [|sf subFields IH] using rev_ind; intros [u z].
    - reflexivity.
    - rewrite fold_left_app, !List.filter_app, !List.map_app, !last_app_cases.
      simpl. rewrite IH. unfold urlStep. simpl.
      destruct (qualifies "u" sf) eqn:Eu; simpl.
      + rewrite (qualifies_exclusive "u" "z" sf) by (discriminate || exact Eu).
        reflexivity.
      + destruct (qualifies "z" sf); reflexivity. }
  rewrite G. simpl.
  now destruct (last (List.map text (List.filter (qualifies "z") subFields))).
Qed.

End ThumbnailFacts.

(** C4 (as amended).  For every field 856 occurrence with a non-empty URL,
    the occurrence is classified as a thumbnail exactly when the URL holds
    one of the markers "thumbnail", "cover", "image", "thumb", or its
    paired description holds one of "thumbnail", "cover", "image", as a
    substring up to case; an occurrence so classified fills an empty
    thumbnail slot with its URL, and one not so classified never touches
    the thumbnail. *)
Theorem thumbnail_classification (subFields : list SubField) (b : BookRecord) :
  Js.truthy (pairedUrl subFields) = true ->
  (classifiedAsThumbnail subFields = true <->
     occursIgnoringCase "thumbnail" (pairedUrl subFields) \/
     occursIgnoringCase "cover" (pairedUrl subFields) \/
     occursIgnoringCase "image" (pairedUrl subFields) \/
     occursIgnoringCase "thumb" (pairedUrl subFields) \/
     occursIgnoringCase "thumbnail" (pairedDescription subFields) \/
     occursIgnoringCase "cover" (pairedDescription subFields) \/
     occursIgnoringCase "image" (pairedDescription subFields)) /\
  (classifiedAsThumbnail subFields = true -> Js.truthyOpt (thumnail b) = false ->
     thumnail (case856 subFields b) = Some (pairedUrl subFields)) /\
  (classifiedAsThumbnail subFields = false ->
     thumnail (case856 subFields b) = thumnail b).
Proof.
  intros Hurl. unfold classifiedAsThumbnail, case856.
  rewrite collectUrl_spec. simpl. rewrite Hurl. split; [|split].
  - unfold isThumbnail. rewrite !orb_true_iff.
    rewrite !includes_lower_spec by reflexivity. tauto.
  - intros -> ->. reflexivity.
  - intros ->. simpl. now destruct (negb (Js.truthy (bookUrl b))).
Qed.

Lemma thumbnail_classification_witness :
  Js.truthy (pairedUrl coverUrlField) = true /\
  classifiedAsThumbnail coverUrlField = true /\
  thumnail (case856 coverUrlField defaultBookRecord)
    = Some "http://example.org/Cover.png".
Proof.
  pose proof (thumbnail_classification coverUrlField defaultBookRecord
                ltac:(reflexivity)) as (_ & H & _).
  split; [reflexivity|]. split; [reflexivity|].
  apply H; reflexivity.
Defined.

(** C4 fails as stated: an occurrence whose description holds "thumb"
    (and neither it nor the URL any other marker) is not classified as a
    thumbnail; its URL becomes the book URL. *)
Lemma thumbnail_description_thumb_counterexample :
  Js.truthy (pairedUrl thumbDescriptionField) = true /\
  occursIgnoringCase "thumb" (pairedDescription thumbDescriptionField) /\
  classifiedAsThumbnail thumbDescriptionField = false /\
  thumnail (convertToBookRecord
              (mkMarcRecord [mkDataField (Some "856") thumbDescriptionField])) = None /\
  bookUrl (convertToBookRecord
             (mkMarcRecord [mkDataField (Some "856") thumbDescriptionField]))
    = "http://example.org/book.pdf".
Proof.
  split; [reflexivity|]. split.
  - exists "", "Thumb", " view". split; reflexivity.
  - repeat split; vm_compute; reflexivity.
Qed.

(* ===================================================================== *)
(** * Finalization of the tally *)
(* ===================================================================== *)

Section SortFacts.

Context {A : Type} (compareFn : A -> A -> Z).



End SortFacts.

Section CountOrder.





End CountOrder.


(* ===================================================================== *)
(** * Facts about the Download Index *)
(* ===================================================================== *)

Section IndexFacts.

Lemma resetEntry_settled (entry : IndexEntry.t) :
  isTransient (resetEntry entry) = false.
Proof.
  unfold resetEntry. destruct (isTransient entry) eqn:E; [reflexivity | exact E].
Qed.

Lemma resetEntry_transient (entry : IndexEntry.t) :
  isTransient entry = true ->
  IndexEntry.downloadState (resetEntry entry) = pending /\
  Js.truthyOpt (IndexEntry.errorMessage (resetEntry entry)) = false /\
  (IndexEntry.errorMessage entry <> Some "" ->
   IndexEntry.errorMessage (resetEntry entry) = None).
Proof.
  intros H. unfold resetEntry. rewrite H. simpl.
  destruct (IndexEntry.errorMessage entry) as [[|c m]|]; simpl; auto.
  repeat split; auto. intros Hne. now contradiction Hne.
Qed.

Lemma ingestRecord_skip (index : DownloadIndex) (record : BookRecord) :
  ingestible record = false -> ingestRecord index record = index.
Proof.
  unfold ingestible, ingestRecord, Js.truthyOpt.
  destruct (ISBN record) as [rawIsbn|]; [|reflexivity].
  now intros ->.
Qed.

Lemma ingestRecord_take (index : DownloadIndex) (record : BookRecord)
    (rawIsbn : string) :
  ISBN record = Some rawIsbn -> ingestible record = true ->
  ingestRecord index record
  = match index !! sanitizeISBN rawIsbn with
    | Some entry => <[sanitizeISBN rawIsbn := withRecord record entry]> index
    | None =>
        if Js.inheritedName (sanitizeISBN rawIsbn) then index
        else <[sanitizeISBN rawIsbn := IndexEntry.mk record pending None None None]>
               index
    end.
Proof.
  unfold ingestible, ingestRecord, Js.truthyOpt. intros -> H. now rewrite H.
Qed.

(** Ingesting one record leaves, under every key, either the entry that
    was there or an entry holding that record, with the state the key had
    before ([pending] for a new key). *)
Lemma ingestRecord_lookup (index : DownloadIndex) (record : BookRecord)
    (key : string) :
  ingestRecord index record !! key = index !! key \/
  (ingestible record = true /\
   ingestRecord index record !! key
   = Some (match index !! key with
           | Some entry => withRecord record entry
           | None => IndexEntry.mk record pending None None None
           end)).
Proof.
  destruct (ingestible record) eqn:Hing;
    [|left; now rewrite ingestRecord_skip].
  destruct (ISBN record) as [rawIsbn|] eqn:Hisbn;
    [|unfold ingestible in Hing; now rewrite Hisbn in Hing].
  rewrite (ingestRecord_take index record rawIsbn Hisbn Hing).
  destruct (decide (sanitizeISBN rawIsbn = key)) as [<- | Hne].
  - destruct (index !! sanitizeISBN rawIsbn) eqn:E.
    + right. split; [reflexivity|]. now rewrite lookup_insert_eq.
    + destruct (Js.inheritedName (sanitizeISBN rawIsbn)).
      * left. exact E.
      * right. split; [reflexivity|]. now rewrite lookup_insert_eq.
  - left. destruct (index !! sanitizeISBN rawIsbn);
      [|destruct (Js.inheritedName (sanitizeISBN rawIsbn))];
      now rewrite ?lookup_insert_ne.
Qed.


(** Over a whole results file: under every key, the entry is the one that
    was in the index, or holds a record that passed the guard. *)
Lemma processJsonFile_records (records : list BookRecord) (index : DownloadIndex)
    (key : string) (entry' : IndexEntry.t) :
  processJsonFile (Some records) index !! key = Some entry' ->
  index !! key = Some entry' \/ ingestible (IndexEntry.record entry') = true.
Proof.
  simpl. revert index.
  induction records as [|record records IH] using rev_ind; intros index; simpl.
  - auto.
  - rewrite fold_left_app. simpl. intros H.
    destruct (ingestRecord_lookup (fold_left ingestRecord records index) record key)
      as [E | [Hing E]]; rewrite E in H.
    + now apply IH.
    + right. injection H as <-.
      now destruct (fold_left ingestRecord records index !! key).
Qed.

End IndexFacts.

Section IngestFacts.

Lemma truthy_false (s : string) : Js.truthy s = false <-> s = "".
Proof.
  unfold Js.truthy. rewrite negb_false_iff. apply String.eqb_eq.
Qed.

Lemma ingestible_false (record : BookRecord) :
  ingestible record = false <->
  ISBN record = None \/ ISBN record = Some "" \/ bookUrl record = "".
Proof.
  unfold ingestible, Js.truthyOpt. rewrite andb_false_iff, !truthy_false.
  destruct (ISBN record) as [isbn|]; split.
  - intros [H | H]; [rewrite truthy_false in H; subst; auto | auto].
  - intros [H | [H | H]]; [discriminate | | auto].
    injection H as ->. now left.
  - auto.
  - auto.
Qed.

Lemma ingestible_true (record : BookRecord) :
  ingestible record = true ->
  (exists isbn, ISBN record = Some isbn /\ isbn <> "") /\ bookUrl record <> "".
Proof.
  intros H. split.
  - destruct (ISBN record) as [isbn|] eqn:E.
    + exists isbn. split; [reflexivity|]. intros ->.
      assert (F : ingestible record = false)
        by (apply ingestible_false; auto).
      congruence.
    + assert (F : ingestible record = false)
        by (apply ingestible_false; auto).
      congruence.
  - intros E.
    assert (F : ingestible record = false) by (apply ingestible_false; auto).
    congruence.
Qed.

Lemma processJsonFile_filter (records : list BookRecord) (index : DownloadIndex) :
  processJsonFile (Some records) index
  = processJsonFile (Some (List.filter ingestible records)) index.
Proof.
  simpl. revert index; induction records as [|record records IH]; intros index;
    simpl; [reflexivity|].
  destruct (ingestible record) eqn:E; simpl.
  - apply IH.
  - rewrite ingestRecord_skip by exact E. apply IH.
Qed.

End IngestFacts.

(** C7.  For every persisted index loaded at startup: an entry that was
    in state [downloading] or [error] is, after the reset, in state
    [pending] and carries no error message (the property is deleted; only
    an already empty message text, which is no message to the test of the
    source, is left as it is); and no entry of the loaded index is in
    state [downloading] or [error]. *)
Theorem reset_clears_transient_states (index : DownloadIndex) :
  let loaded := loadOrCreateIndex (Some (Some index)) in
  (forall isbn entry,
      index !! isbn = Some entry ->
      IndexEntry.downloadState entry = downloading \/
      IndexEntry.downloadState entry = error ->
      exists entry',
        loaded !! isbn = Some entry' /\
        IndexEntry.downloadState entry' = pending /\
        Js.truthyOpt (IndexEntry.errorMessage entry') = false /\
        (IndexEntry.errorMessage entry <> Some "" ->
         IndexEntry.errorMessage entry' = None)) /\
  (forall isbn entry',
      loaded !! isbn = Some entry' ->
      IndexEntry.downloadState entry' <> downloading /\
      IndexEntry.downloadState entry' <> error).
Proof.
  simpl. split.
  - intros isbn entry Hlook Hstate.
    exists (resetEntry entry). rewrite lookup_fmap, Hlook. split; [reflexivity|].
    apply resetEntry_transient. unfold isTransient.
    destruct Hstate as [-> | ->]; reflexivity.
  - intros isbn entry'. rewrite lookup_fmap.
    destruct (index !! isbn) as [entry|]; [|discriminate].
    intros [= <-]. pose proof (resetEntry_settled entry) as H.
    unfold isTransient in H.
    destruct (IndexEntry.downloadState (resetEntry entry)); split; congruence.
Qed.

Lemma reset_clears_transient_states_witness :
  exists entry',
    loadOrCreateIndex (Some (Some sampleIndex)) !! "9780472057627" = Some entry' /\
    IndexEntry.downloadState entry' = pending /\
    Js.truthyOpt (IndexEntry.errorMessage entry') = false /\
    (Some "Request timeout" <> Some "" -> IndexEntry.errorMessage entry' = None).
Proof.
  destruct (reset_clears_transient_states sampleIndex) as [H _].
  apply (H "9780472057627"
           (IndexEntry.mk (sampleBook "9780472057627" "http://example.org/a.pdf")
                          error None (Some "Request timeout") None)).
  - reflexivity.
  - right. reflexivity.
Defined.




(** C10.  A record whose ISBN is null or empty, or whose book URL is
    empty, is skipped by ingestion: the index is unchanged by it, and a
    results file is ingested as the file without such records is.  So
    every entry that ingestion of a file creates holds a record with a
    non-empty ISBN and a non-empty book URL. *)
Theorem ingestion_skips_incomplete_records (index : DownloadIndex)
    (records : list BookRecord) :
  (forall record,
      ISBN record = None \/ ISBN record = Some "" \/ bookUrl record = "" ->
      ingestRecord index record = index) /\
  processJsonFile (Some records) index
    = processJsonFile (Some (List.filter ingestible records)) index /\
  (forall key entry',
      processJsonFile (Some records) index !! key = Some entry' ->
      index !! key = None ->
      (exists isbn, ISBN (IndexEntry.record entry') = Some isbn /\ isbn <> "") /\
      bookUrl (IndexEntry.record entry') <> "").
Proof.
  split; [|split].
  - intros record H. apply ingestRecord_skip, ingestible_false, H.
  - apply processJsonFile_filter.
  - intros key entry' Hlook Hnew.
    apply processJsonFile_records in Hlook as [H | H]; [congruence|].
    now apply ingestible_true.
Qed.

Lemma ingestion_skips_incomplete_records_witness :
  ingestRecord sampleIndex (sampleBook "" "http://example.org/x.pdf") = sampleIndex /\
  ingestRecord sampleIndex (sampleBook "9781111111111" "") = sampleIndex.
Proof.
  destruct (ingestion_skips_incomplete_records sampleIndex []) as [H _].
  split; apply H.
  - right. left. reflexivity.
  - right. right. reflexivity.
Defined.

(* ===================================================================== *)
(** * Facts about the fetch with redirects *)
(* ===================================================================== *)

Section FetchFacts.

Variable httpGet : string -> HttpOutcome.
Variable resolveUrl : string -> string -> option string.
Variable pipeToFile : string -> string -> WriteOutcome.
Variable now : Z.

Lemma downloadWithRedirectsFrom_unfold (hops : nat) (urlString filePath isbn : string)
    (startTime : Z) (redirectCount : nat) :
  downloadWithRedirectsFrom httpGet resolveUrl pipeToFile now hops
    urlString filePath isbn startTime redirectCount
  = if (maxRedirects <? redirectCount)%nat then
      Some (Settled (failure isbn "Too many redirects (maximum 10)"))
    else
      match httpGet urlString with
      | Response statusCode statusMessage location =>
          if isRedirectStatus statusCode then
            match location with
            | Some target =>
                if Js.truthy target then
                  match resolveUrl target urlString with
                  | Some redirectUrl =>
                      match hops with
                      | S hops' =>
                          downloadWithRedirectsFrom httpGet resolveUrl pipeToFile now
                            hops' redirectUrl filePath isbn startTime
                            (S redirectCount)
                      | O => None
                      end
                  | None => Some NeverSettled
                  end
                else Some (Settled (failure isbn
                                      ("HTTP " ++ showStatus statusCode ++
                                       ": Redirect without location header")))
            | None => Some (Settled (failure isbn
                                       ("HTTP " ++ showStatus statusCode ++
                                        ": Redirect without location header")))
            end
          else if match statusCode with Some 200 => true | _ => false end then
            match pipeToFile filePath urlString with
            | Finished size =>
                Some (Settled (DownloadResult.mk isbn true (Some filePath) None
                                 (Some (now - startTime)%Z) size))
            | WriteFailed message =>
                Some (Settled (failure isbn ("Write error: " ++ message)))
            | NoEvent => Some NeverSettled
            end
          else Some (Settled (failure isbn ("HTTP " ++ showStatus statusCode ++ ": " ++
                                            statusMessage)))
      | RequestError message =>
          Some (Settled (failure isbn ("Request error: " ++ message)))
      | RequestTimeout => Some (Settled (failure isbn "Request timeout"))
      | Thrown message =>
          Some (Settled (failure isbn ("Download error: " ++ message)))
      end.
Proof. destruct hops; reflexivity. Qed.

(** The measure of the recursion is never exhausted. *)
Lemma downloadWithRedirectsFrom_total (hops : nat) (urlString filePath isbn : string)
    (startTime : Z) (redirectCount : nat) :
  S maxRedirects - redirectCount <= hops ->
  is_Some (downloadWithRedirectsFrom httpGet resolveUrl pipeToFile now hops
             urlString filePath isbn startTime redirectCount).
Proof.
  revert urlString redirectCount.
  induction hops as [|hops IH]; intros urlString redirectCount Hhops;
    rewrite downloadWithRedirectsFrom_unfold;
    destruct (maxRedirects <? redirectCount)%nat eqn:E; eauto;
    apply Nat.ltb_ge in E; unfold maxRedirects in *.
  - lia.
  - destruct (httpGet urlString) as [statusCode statusMessage [target|] | | |];
      eauto;
      (destruct (isRedirectStatus statusCode);
       [ try (destruct (Js.truthy target);
              [destruct (resolveUrl target urlString); [apply IH; lia|]|]); eauto
       | match goal with
         | |- context [if ?c then _ else _] => destruct c
         end;
         [destruct (pipeToFile filePath urlString)|]; eauto ]).
Qed.

Lemma downloadWithRedirects_total (urlString filePath isbn : string)
    (startTime : Z) (redirectCount : nat) :
  is_Some (downloadWithRedirects httpGet resolveUrl pipeToFile now
             urlString filePath isbn startTime redirectCount).
Proof. apply downloadWithRedirectsFrom_total. lia. Qed.


End FetchFacts.

Section UpdateFacts.


End UpdateFacts.




(* ===================================================================== *)
(** * The example scenarios of the specification *)
(* ===================================================================== *)

(** Field 245 with subfields a = "Atlas" and b = "A Study" gives the title
    "Atlas: A Study"; with subfield a alone, "Atlas". *)
Example title_scenario :
  title (convertToBookRecord
           (mkMarcRecord [mkDataField (Some "245")
                            [mkSubField "a" "Atlas"; mkSubField "b" "A Study"]]))
    = "Atlas: A Study" /\
  title (convertToBookRecord
           (mkMarcRecord [mkDataField (Some "245") [mkSubField "a" "Atlas"]]))
    = "Atlas".
Proof. split; reflexivity. Qed.

(** Three records, the second with 650 $a "Education" twice and the third
    once, tally to a single subject term of count 3. *)
Example tally_scenario :
  res_subjectTerms
    (generateResults (mkParseOptions None None) 0 0
       (fold_left (fun ps record => extractCategories record ps)
          [mkMarcRecord [mkDataField (Some "245") [mkSubField "a" "Atlas"]];
           mkMarcRecord [mkDataField (Some "650") [mkSubField "a" "Education"];
                         mkDataField (Some "650") [mkSubField "a" "Education"]];
           mkMarcRecord [mkDataField (Some "650") [mkSubField "a" " Education "]]]
          (mkParserState [] [] 0)))
    = [CategoryData.mk "Education" None 3 "650"].
Proof. reflexivity. Qed.

(** A mapper run on a FieldTree without data fields gives the defaults. *)
Example empty_record_scenario :
  convertToBookRecord (mkMarcRecord []) = defaultBookRecord.
Proof. reflexivity. Qed.

(* ===================================================================== *)
(** * Further properties: the tally *)
(* ===================================================================== *)

Section TallyFacts.

Lemma existsb_eqb_In (term : string) (keys : list string) :
  existsb (String.eqb term) keys = true <-> List.In term keys.
Proof.
  rewrite List.existsb_exists. split.
  - intros (k & Hin & E). apply String.eqb_eq in E. now subst.
  - intros H. exists term. split; [exact H | apply String.eqb_refl].
Qed.

Lemma counterCount_absent (counter : CategoryCounter) (k : string) :
  ~ List.In k (List.map fst counter) -> counterCount k counter = 0%Z.
Proof.
  induction counter as [|[k' cell'] counter IH]; simpl; intros H; [reflexivity|].
  destruct (String.eqb k' k) eqn:E.
  - apply String.eqb_eq in E. tauto.
  - apply IH. tauto.
Qed.

Lemma increment_count (term t : string) (counter : CategoryCounter) :
  counterCount t (increment term counter)
  = (counterCount t counter
     + if String.eqb term t && hasOwnKey term counter then 1 else 0)%Z.
Proof.
  unfold hasOwnKey.
  induction counter as [|[k cell] counter IH]; simpl.
  - rewrite andb_false_r. reflexivity.
  - rewrite (String.eqb_sym term k).
    destruct (String.eqb k term) eqn:Ek; simpl.
    + apply String.eqb_eq in Ek. subst k. rewrite andb_true_r.
      destruct (String.eqb term t); simpl; lia.
    + destruct (String.eqb k t) eqn:Et; [|exact IH].
      apply String.eqb_eq in Et. subst k.
      rewrite String.eqb_sym, Ek. simpl. lia.
Qed.

Lemma increment_keys (term : string) (counter : CategoryCounter) :
  List.map fst (increment term counter) = List.map fst counter.
Proof.
  induction counter as [|[k cell] counter IH]; simpl; [reflexivity|].
  destruct (String.eqb k term); simpl; [reflexivity | now rewrite IH].
Qed.

Lemma insertIndexed_Permutation (i : N) (entry : string * CounterCell.t)
    (counter : CategoryCounter) :
  Permutation (insertIndexed i entry counter) (entry :: counter).
Proof.
  induction counter as [|[k cell] counter IH]; simpl; [reflexivity|].
  destruct (arrayIndex k) as [j|]; [|reflexivity].
  destruct (j <? i)%N; [|reflexivity].
  rewrite IH. apply perm_swap.
Qed.

Lemma insertEntry_Permutation (entry : string * CounterCell.t)
    (counter : CategoryCounter) :
  Permutation (insertEntry entry counter) (entry :: counter).
Proof.
  unfold insertEntry. destruct (arrayIndex (fst entry)).
  - apply insertIndexed_Permutation.
  - symmetry. apply Permutation_cons_append.
Qed.

Lemma counterCount_app (t : string) (c1 c2 : CategoryCounter) :
  ~ List.In t (List.map fst c1) ->
  counterCount t (c1 ++ c2)%list = counterCount t c2.
Proof.
  induction c1 as [|[k cell] c1 IH]; simpl; intros H; [reflexivity|].
  destruct (String.eqb k t) eqn:E.
  - apply String.eqb_eq in E. tauto.
  - apply IH. tauto.
Qed.

Lemma insertIndexed_count (i : N) (entry : string * CounterCell.t)
    (counter : CategoryCounter) (t : string) :
  ~ List.In (fst entry) (List.map fst counter) ->
  counterCount t (insertIndexed i entry counter)
  = if String.eqb (fst entry) t then CounterCell.count (snd entry)
    else counterCount t counter.
Proof.
  destruct entry as [term new]. simpl.
  induction counter as [|[k cell] counter IH]; simpl; intros H; [reflexivity|].
  destruct (arrayIndex k) as [j|]; [|reflexivity].
  destruct (j <? i)%N; [|reflexivity]. simpl.
  rewrite IH by tauto.
  destruct (String.eqb k t) eqn:Ek; [|reflexivity].
  apply String.eqb_eq in Ek. subst k.
  destruct (String.eqb term t) eqn:Et; [|reflexivity].
  apply String.eqb_eq in Et. subst term. tauto.
Qed.

Lemma insertEntry_count (entry : string * CounterCell.t)
    (counter : CategoryCounter) (t : string) :
  ~ List.In (fst entry) (List.map fst counter) ->
  counterCount t (insertEntry entry counter)
  = if String.eqb (fst entry) t then CounterCell.count (snd entry)
    else counterCount t counter.
Proof.
  intros H. unfold insertEntry. destruct (arrayIndex (fst entry)) as [i|].
  - now apply insertIndexed_count.
  - destruct entry as [term new]. simpl in *.
    destruct (String.eqb term t) eqn:Et.
    + apply String.eqb_eq in Et. subst term.
      rewrite counterCount_app by exact H. simpl. now rewrite String.eqb_refl.
    + clear H. induction counter as [|[k cell] counter IH]; simpl.
      * now rewrite Et.
      * destruct (String.eqb k t); [reflexivity | exact IH].
Qed.

(** A term that is no name of a member of [Object.prototype] is counted. *)
Lemma bump_count (term t : string) (counter : CategoryCounter) :
  Js.inheritedName t = false ->
  counterCount t (bump term counter)
  = (counterCount t counter + if String.eqb term t then 1 else 0)%Z.
Proof.
  intros Hi. unfold bump. destruct (hasOwnKey term counter) eqn:Eo.
  - rewrite increment_count, Eo, andb_true_r. reflexivity.
  - assert (Hout : ~ List.In term (List.map fst counter)).
    { intros Hin. apply existsb_eqb_In in Hin. unfold hasOwnKey in Eo. congruence. }
    destruct (String.eqb term t) eqn:Et.
    + apply String.eqb_eq in Et. subst term. rewrite Hi.
      rewrite insertEntry_count by exact Hout. simpl.
      rewrite String.eqb_refl, (counterCount_absent _ _ Hout). reflexivity.
    + destruct (Js.inheritedName term); [lia|].
      rewrite insertEntry_count by exact Hout. simpl. rewrite Et. lia.
Qed.

Lemma bump_invariant (term : string) (counter : CategoryCounter) :
  term <> "" ->
  counterInvariant counter -> counterInvariant (bump term counter).
Proof.
  intros Ht [Hnd Hcells]. unfold bump.
  destruct (hasOwnKey term counter) eqn:Eo.
  - split; [now rewrite increment_keys|].
    clear Hnd Eo. induction counter as [|[k cell] counter IH]; simpl;
      [constructor|].
    apply Forall_cons_1 in Hcells as [(H1 & H2 & H3 & H4) H5]. simpl in *.
    destruct (String.eqb k term); constructor; simpl; auto.
    repeat split; auto; lia.
  - destruct (Js.inheritedName term) eqn:Ei; [now split|].
    assert (Hout : ~ List.In term (List.map fst counter)).
    { intros Hin. apply existsb_eqb_In in Hin. unfold hasOwnKey in Eo. congruence. }
    pose proof (insertEntry_Permutation (term, CounterCell.mk 1 None) counter)
      as Hperm.
    split.
    + apply (Permutation_NoDup
               (Permutation_sym (Permutation_map fst Hperm))).
      simpl. now constructor.
    + apply (Permutation_Forall (Permutation_sym Hperm)).
      constructor; [simpl; repeat split; auto; lia | exact Hcells].
Qed.

Lemma tally_count (subFields : list SubField) (counter : CategoryCounter) (t : string) :
  t <> "" ->
  Js.inheritedName t = false ->
  counterCount t (fold_left tallyStep subFields counter)
  = (counterCount t counter
     + Z.of_nat (occurrences t (List.map text (List.filter (qualifies "a") subFields))))%Z.
Proof.
  intros Ht Hi. unfold occurrences.
  revert counter; induction subFields as [|sf subFields IH]; intros counter; simpl.
  - lia.
  - rewrite IH. unfold tallyStep.
    destruct (qualifies "a" sf); simpl; [|reflexivity].
    destruct (String.eqb (Js.trim (text sf)) t) eqn:E.
    + apply String.eqb_eq in E.
      assert (Htr : Js.truthy (Js.trim (text sf)) = true).
      { unfold Js.truthy. rewrite E. apply negb_true_iff, String.eqb_neq, Ht. }
      rewrite Htr, bump_count, E, String.eqb_refl by exact Hi. simpl length. lia.
    + destruct (Js.truthy (Js.trim (text sf))); [|reflexivity].
      rewrite bump_count, E by exact Hi. lia.
Qed.

Lemma truthy_true (s : string) : Js.truthy s = true <-> s <> "".
Proof.
  unfold Js.truthy. rewrite negb_true_iff. apply String.eqb_neq.
Qed.

Lemma tally_invariant (subFields : list SubField) (counter : CategoryCounter) :
  counterInvariant counter ->
  counterInvariant (fold_left tallyStep subFields counter).
Proof.
  revert counter; induction subFields as [|sf subFields IH]; intros counter H;
    simpl; [exact H|].
  apply IH. unfold tallyStep.
  destruct (qualifies "a" sf); [|exact H].
  destruct (Js.truthy (Js.trim (text sf))) eqn:E; [|exact H].
  apply truthy_true in E. now apply bump_invariant.
Qed.


(** A counter that the tally built holds no count for the name of a
    member of [Object.prototype]. *)
Lemma counterCount_inherited (counter : CategoryCounter) (k : string) :
  counterInvariant counter -> Js.inheritedName k = true ->
  counterCount k counter = 0%Z.
Proof.
  intros [_ Hcells] Hk. apply counterCount_absent.
  intros Hin. apply List.in_map_iff in Hin as ([k' cell] & E & Hin).
  simpl in E. subst k'. rewrite Forall_forall in Hcells.
  destruct (Hcells (k, cell)) as (_ & _ & _ & H); [now apply list_elem_of_In|].
  simpl in H. congruence.
Qed.

Lemma occurrences_app (t : string) (l1 l2 : list string) :
  occurrences t (l1 ++ l2)%list = occurrences t l1 + occurrences t l2.
Proof. unfold occurrences. now rewrite List.filter_app, List.length_app. Qed.

End TallyFacts.

Section TallyRecords.

Lemma occurrences_nil (t : string) : occurrences t [] = 0.
Proof. reflexivity. Qed.

Lemma tallyField_counts (ps : ParserState) (df : DataField) (t : string) :
  t <> "" ->
  Js.inheritedName t = false ->
  counterCount t (subjectTerms (tallyField ps df))
  = (counterCount t (subjectTerms ps)
     + Z.of_nat (occurrences t
         (if hasTag "650" df
          then List.map text (List.filter (qualifies "a") (subfields df))
          else [])))%Z /\
  counterCount t (keywords (tallyField ps df))
  = (counterCount t (keywords ps)
     + Z.of_nat (occurrences t
         (if hasTag "653" df
          then List.map text (List.filter (qualifies "a") (subfields df))
          else [])))%Z /\
  totalRecords (tallyField ps df) = totalRecords ps.
Proof.
  intros Ht Hi. unfold tallyField, hasTag.
  destruct (attrs df) as [tag|];
    [|rewrite occurrences_nil; simpl; repeat split; lia].
  destruct (String.eqb tag "650") eqn:E650.
  - apply String.eqb_eq in E650. subst tag. simpl.
    unfold extractSubjectTerms. rewrite tally_count by assumption.
    rewrite occurrences_nil. repeat split; lia.
  - destruct (String.eqb tag "653") eqn:E653; simpl.
    + unfold extractKeywords. rewrite tally_count by assumption.
      rewrite occurrences_nil. repeat split; lia.
    + rewrite occurrences_nil. repeat split; lia.
Qed.

Lemma tallyField_invariant (ps : ParserState) (df : DataField) :
  counterInvariant (subjectTerms ps) /\ counterInvariant (keywords ps) ->
  counterInvariant (subjectTerms (tallyField ps df)) /\
  counterInvariant (keywords (tallyField ps df)).
Proof.
  intros [H1 H2]. unfold tallyField.
  destruct (attrs df) as [tag|]; [|auto].
  destruct (String.eqb tag "650"); simpl.
  - split; [now apply tally_invariant | exact H2].
  - destruct (String.eqb tag "653"); simpl; [|auto].
    split; [exact H1 | now apply tally_invariant].
Qed.

Lemma extractCategories_counts (record : MarcRecord) (ps : ParserState) (t : string) :
  t <> "" ->
  Js.inheritedName t = false ->
  counterCount t (subjectTerms (extractCategories record ps))
  = (counterCount t (subjectTerms ps)
     + Z.of_nat (occurrences t (subfieldValues "650" "a" record)))%Z /\
  counterCount t (keywords (extractCategories record ps))
  = (counterCount t (keywords ps)
     + Z.of_nat (occurrences t (subfieldValues "653" "a" record)))%Z /\
  totalRecords (extractCategories record ps) = totalRecords ps.
Proof.
  intros Ht Hi. destruct record as [dfs].
  unfold extractCategories, subfieldValues. simpl.
  revert ps; induction dfs as [|df dfs IH]; intros ps; simpl.
  - rewrite occurrences_nil. repeat split; lia.
  - destruct (IH (tallyField ps df)) as (H1 & H2 & H3).
    destruct (tallyField_counts ps df t Ht Hi) as (G1 & G2 & G3).
    rewrite H1, H2, H3, G1, G2, G3, !occurrences_app. repeat split; lia.
Qed.

Lemma extractCategories_invariant (record : MarcRecord) (ps : ParserState) :
  counterInvariant (subjectTerms ps) /\ counterInvariant (keywords ps) ->
  counterInvariant (subjectTerms (extractCategories record ps)) /\
  counterInvariant (keywords (extractCategories record ps)).
Proof.
  destruct record as [dfs]. unfold extractCategories. simpl.
  revert ps; induction dfs as [|df dfs IH]; intros ps H; simpl; [exact H|].
  apply IH. now apply tallyField_invariant.
Qed.

Variable parseFragment : string -> option MarcRecord.

Lemma parsedRecords_cons (fragment : string) (fragments : list string) :
  parsedRecords parseFragment (fragment :: fragments)
  = match parseFragment fragment with
    | Some record => record :: parsedRecords parseFragment fragments
    | None => parsedRecords parseFragment fragments
    end.
Proof. reflexivity. Qed.

Lemma fold_processRecord_counts (fragments : list string) (ps : ParserState)
    (t : string) :
  t <> "" ->
  Js.inheritedName t = false ->
  let ps' := fold_left (fun st fragment => processRecord parseFragment fragment st)
                       fragments ps in
  counterCount t (subjectTerms ps')
  = (counterCount t (subjectTerms ps)
     + Z.of_nat (occurrences t
         (List.flat_map (subfieldValues "650" "a")
                        (parsedRecords parseFragment fragments))))%Z /\
  counterCount t (keywords ps')
  = (counterCount t (keywords ps)
     + Z.of_nat (occurrences t
         (List.flat_map (subfieldValues "653" "a")
                        (parsedRecords parseFragment fragments))))%Z /\
  totalRecords ps' = totalRecords ps + length (parsedRecords parseFragment fragments).
Proof.
  intros Ht Hi.
  revert ps; induction fragments as [|fragment fragments IH]; intros ps.
  - simpl. rewrite occurrences_nil. repeat split; lia.
  - destruct (IH (processRecord parseFragment fragment ps)) as (H1 & H2 & H3).
    cbn [fold_left]. cbv zeta in H1, H2, H3. cbv zeta.
    rewrite H1, H2, H3, parsedRecords_cons. clear H1 H2 H3 IH.
    unfold processRecord.
    destruct (parseFragment fragment) as [record|]; [|repeat split; lia].
    cbn [subjectTerms keywords totalRecords List.flat_map length].
    destruct (extractCategories_counts record ps t Ht Hi) as (G1 & G2 & G3).
    rewrite G1, G2, G3, !occurrences_app. repeat split; lia.
Qed.

Lemma fold_processRecord_invariant (fragments : list string) (ps : ParserState) :
  counterInvariant (subjectTerms ps) /\ counterInvariant (keywords ps) ->
  let ps' := fold_left (fun st fragment => processRecord parseFragment fragment st)
                       fragments ps in
  counterInvariant (subjectTerms ps') /\ counterInvariant (keywords ps').
Proof.
  revert ps; induction fragments as [|fragment fragments IH]; intros ps H; simpl;
    [exact H|].
  apply IH. unfold processRecord.
  destruct (parseFragment fragment) as [record|]; [|exact H].
  simpl. now apply extractCategories_invariant.
Qed.

Lemma dispatchedFragments_total (chunks : list string) :
  exists tail fragments,
    dispatchedFragments chunks = Some (tail, fragments, length fragments).
Proof.
  destruct (scanStream_total recordFragment chunks []) as [[[tail fragments] n] H].
  pose proof H as H'. unfold scanStream in H'.
  apply onChunks_partition in H' as (_ & parts & dropped & Hseen & Hn & _);
    [|reflexivity].
  simpl in Hseen, Hn. subst. exists tail, (List.map snd parts).
  now rewrite List.length_map.
Qed.

Lemma tallyFile_dispatch (chunks : list string) (tail : string)
    (fragments : list string) (n : nat) :
  dispatchedFragments chunks = Some (tail, fragments, n) ->
  tallyFile parseFragment chunks
  = Some (fold_left (fun st fragment => processRecord parseFragment fragment st)
                    fragments (mkParserState [] [] 0)).
Proof.
  intros H. unfold tallyFile, processXmlFile.
  rewrite scanStream_dispatch, H. reflexivity.
Qed.

Lemma extractRecords_dispatch (chunks : list string) (options : ExtractOptions.t)
    (tail : string) (fragments : list string) (n : nat) :
  dispatchedFragments chunks = Some (tail, fragments, n) ->
  extractRecords parseFragment chunks options
  = Some (List.map convertToBookRecord
            (List.filter (fun record => recordMatchesCriteria record options)
                         (parsedRecords parseFragment fragments))).
Proof.
  intros H. unfold extractRecords. rewrite scanStream_dispatch, H. simpl.
  f_equal. clear H.
  assert (G : forall acc,
    fold_left (fun st fragment => processRecordForExtraction parseFragment options
                                    fragment st) fragments acc
    = (acc ++ List.map convertToBookRecord
                (List.filter (fun record => recordMatchesCriteria record options)
                             (parsedRecords parseFragment fragments)))%list).
  { induction fragments as [|fragment fragments IH]; intros acc.
    - simpl. now rewrite app_nil_r.
    - cbn [fold_left]. rewrite IH, parsedRecords_cons.
      unfold processRecordForExtraction.
      destruct (parseFragment fragment) as [record|]; [|reflexivity].
      simpl. destruct (recordMatchesCriteria record options); [|reflexivity].
      simpl. now rewrite <- List.app_assoc. }
  apply (G []).
Qed.

End TallyRecords.

Section MatchFacts.

Lemma subfieldNamed_occurrences (name : string) (subFields : list SubField) :
  existsb (subfieldNamed name) subFields
  = (0 <? occurrences name (List.map text (List.filter (qualifies "a") subFields)))%nat.
Proof.
  unfold occurrences.
  induction subFields as [|sf subFields IH]; simpl; [reflexivity|].
  unfold subfieldNamed at 1.
  destruct (qualifies "a" sf); simpl; [|exact IH].
  destruct (String.eqb (Js.trim (text sf)) name); simpl; [reflexivity | exact IH].
Qed.

(** The match predicate counts: a record matches when the decoder finds
    the name, trimmed, at least once under the field. *)
Lemma recordMatchesCriteria_occurrences (record : MarcRecord)
    (options : ExtractOptions.t) :
  recordMatchesCriteria record options
  = (0 <? occurrences (ExtractOptions.name options)
            (subfieldValues (ExtractOptions.field options) "a" record))%nat.
Proof.
  destruct record as [dfs]. unfold recordMatchesCriteria, subfieldValues. simpl.
  induction dfs as [|df dfs IH]; simpl; [reflexivity|].
  rewrite occurrences_app, IH, subfieldNamed_occurrences.
  destruct (hasTag (ExtractOptions.field options) df); simpl.
  - now destruct (occurrences _ (List.map text _)).
  - reflexivity.
Qed.

Lemma matches_le_occurrences (field name : string) (records : list MarcRecord) :
  length (List.filter (fun record =>
                         recordMatchesCriteria record (ExtractOptions.mk field name))
                      records)
  <= occurrences name (List.flat_map (subfieldValues field "a") records).
Proof.
  induction records as [|record records IH]; simpl; [lia|].
  rewrite occurrences_app, recordMatchesCriteria_occurrences. simpl.
  destruct (occurrences name (subfieldValues field "a" record)); simpl; lia.
Qed.

End MatchFacts.

(** X1.  The tally of a file counts occurrences, not records: for every
    non-empty term that is no name of a member of [Object.prototype], the
    subject-term counter holds the number of subfields [a] with that
    trimmed text under the fields 650 of the records whose fragment
    parsed, repetitions within one record included; the keyword counter
    does the same for 653.  A term that is the name of a member of
    [Object.prototype] (such as [constructor]) is never counted, however
    often it occurs: the lookup [counter[term]] finds the inherited
    member, so no entry is made.  [totalRecords] is the number of
    fragments that parsed. *)
Theorem tally_counts_occurrences (parseFragment : string -> option MarcRecord)
    (chunks : list string) (term : string) :
  term <> "" ->
  exists tail fragments ps,
    dispatchedFragments chunks = Some (tail, fragments, length fragments) /\
    tallyFile parseFragment chunks = Some ps /\
    totalRecords ps = length (parsedRecords parseFragment fragments) /\
    counterCount term (subjectTerms ps)
    = (if Js.inheritedName term then 0%Z
       else Z.of_nat (occurrences term
                        (List.flat_map (subfieldValues "650" "a")
                                       (parsedRecords parseFragment fragments)))) /\
    counterCount term (keywords ps)
    = (if Js.inheritedName term then 0%Z
       else Z.of_nat (occurrences term
                        (List.flat_map (subfieldValues "653" "a")
                                       (parsedRecords parseFragment fragments)))).
Proof.
  intros Hterm.
  destruct (dispatchedFragments_total chunks) as (tail & fragments & H).
  exists tail, fragments. eexists. split; [exact H|].
  split; [apply (tallyFile_dispatch parseFragment chunks _ _ _ H)|].
  set (ps := fold_left _ fragments _).
  destruct (Js.inheritedName term) eqn:Hi.
  - assert (Hinv : counterInvariant (subjectTerms ps) /\ counterInvariant (keywords ps)).
    { apply fold_processRecord_invariant. simpl.
      split; (split; [constructor | constructor]). }
    destruct Hinv as [Hs Hk].
    rewrite (counterCount_inherited _ _ Hs Hi), (counterCount_inherited _ _ Hk Hi).
    split; [|split; reflexivity].
    destruct (fold_processRecord_counts parseFragment fragments
                (mkParserState [] [] 0) "a" ltac:(discriminate) eq_refl)
      as (_ & _ & H3).
    cbv zeta in H3. fold ps in H3. rewrite H3. simpl. lia.
  - destruct (fold_processRecord_counts parseFragment fragments
                (mkParserState [] [] 0) term Hterm Hi) as (H1 & H2 & H3).
    cbv zeta in H1, H2, H3. fold ps in H1, H2, H3.
    rewrite H1, H2, H3. simpl. repeat split; lia.
Qed.

Lemma tally_counts_occurrences_witness :
  exists tail fragments ps,
    dispatchedFragments sampleChunks = Some (tail, fragments, length fragments) /\
    tallyFile sampleParseFragment sampleChunks = Some ps /\
    totalRecords ps = length (parsedRecords sampleParseFragment fragments) /\
    counterCount "Education" (subjectTerms ps)
    = (if Js.inheritedName "Education" then 0%Z
       else Z.of_nat (occurrences "Education"
                        (List.flat_map (subfieldValues "650" "a")
                                       (parsedRecords sampleParseFragment fragments)))) /\
    counterCount "Education" (keywords ps)
    = (if Js.inheritedName "Education" then 0%Z
       else Z.of_nat (occurrences "Education"
                        (List.flat_map (subfieldValues "653" "a")
                                       (parsedRecords sampleParseFragment fragments)))).
Proof.
  apply (tally_counts_occurrences sampleParseFragment sampleChunks "Education").
  discriminate.
Defined.

(** X2.  Single-criterion extraction returns, in file order, the mapped
    records of exactly the dispatched fragments that parse and match;
    fragments that fail to parse are skipped without stopping the scan. *)
Theorem extraction_keeps_matching_records_in_order
    (parseFragment : string -> option MarcRecord) (chunks : list string)
    (options : ExtractOptions.t) :
  exists tail fragments,
    dispatchedFragments chunks = Some (tail, fragments, length fragments) /\
    extractRecords parseFragment chunks options
    = Some (List.map convertToBookRecord
              (List.filter (fun record => recordMatchesCriteria record options)
                           (parsedRecords parseFragment fragments))).
Proof.
  destruct (dispatchedFragments_total chunks) as (tail & fragments & H).
  exists tail, fragments. split; [exact H|].
  apply (extractRecords_dispatch parseFragment chunks options _ _ _ H).
Qed.

(** X3.  For a non-empty term that is no name of a member of
    [Object.prototype], the count that the tally reports is never below
    the number of records that extraction returns for that field and term
    on the same file (a record that repeats the term is counted once per
    repetition by the tally and once by extraction). *)
Theorem tally_bounds_matches (parseFragment : string -> option MarcRecord)
    (chunks : list string) (name : string) (ps : ParserState)
    (subjects keywordMatches : list BookRecord) :
  name <> "" ->
  Js.inheritedName name = false ->
  tallyFile parseFragment chunks = Some ps ->
  extractRecords parseFragment chunks (ExtractOptions.mk "650" name) = Some subjects ->
  extractRecords parseFragment chunks (ExtractOptions.mk "653" name)
    = Some keywordMatches ->
  (Z.of_nat (length subjects) <= counterCount name (subjectTerms ps))%Z /\
  (Z.of_nat (length keywordMatches) <= counterCount name (keywords ps))%Z.
Proof.
  intros Hname Hi Htally H650 H653.
  destruct (dispatchedFragments_total chunks) as (tail & fragments & H).
  rewrite (tallyFile_dispatch parseFragment chunks _ _ _ H) in Htally.
  rewrite (extractRecords_dispatch parseFragment chunks _ _ _ _ H) in H650.
  rewrite (extractRecords_dispatch parseFragment chunks _ _ _ _ H) in H653.
  injection Htally as <-. injection H650 as <-. injection H653 as <-.
  destruct (fold_processRecord_counts parseFragment fragments
              (mkParserState [] [] 0) name Hname Hi) as (H1 & H2 & _).
  cbv zeta in H1, H2. rewrite H1, H2, !List.length_map. simpl.
  pose proof (matches_le_occurrences "650" name (parsedRecords parseFragment fragments)).
  pose proof (matches_le_occurrences "653" name (parsedRecords parseFragment fragments)).
  split; lia.
Qed.

Lemma tally_bounds_matches_witness :
  exists ps subjects,
    tallyFile sampleParseFragment sampleChunks = Some ps /\
    extractRecords sampleParseFragment sampleChunks (ExtractOptions.mk "650" "Education")
      = Some subjects /\
    (Z.of_nat (length subjects) <= counterCount "Education" (subjectTerms ps))%Z.
Proof.
  exists (mkParserState [("Education", CounterCell.mk 2 None);
                         ("History", CounterCell.mk 1 None)] [] 3),
         [convertToBookRecord
            (mkMarcRecord [mkDataField (Some "650") [mkSubField "a" "Education"]]);
          convertToBookRecord
            (mkMarcRecord [mkDataField (Some "650") [mkSubField "a" "Education"]])].
  split; [vm_compute; reflexivity|]. split; [vm_compute; reflexivity|].
  apply (tally_bounds_matches sampleParseFragment sampleChunks "Education"
           (mkParserState [("Education", CounterCell.mk 2 None);
                           ("History", CounterCell.mk 1 None)] [] 3)
           [convertToBookRecord
              (mkMarcRecord [mkDataField (Some "650") [mkSubField "a" "Education"]]);
            convertToBookRecord
              (mkMarcRecord [mkDataField (Some "650") [mkSubField "a" "Education"]])]
           []).
  - discriminate.
  - reflexivity.
  - vm_compute. reflexivity.
  - vm_compute. reflexivity.
  - vm_compute. reflexivity.
Defined.

Section FinalizedEntries.


Lemma NoDup_map_filter {X Y : Type} (f : X -> Y) (p : X -> bool) (l : list X) :
  List.NoDup (List.map f l) -> List.NoDup (List.map f (List.filter p l)).
Proof.
  induction l as [|x l IH]; simpl; intros H; [constructor|].
  apply List.NoDup_cons_iff in H as [Hnotin H].
  destruct (p x); simpl; [|now apply IH].
  constructor; [|now apply IH].
  intros Hin. apply Hnotin. apply List.in_map_iff in Hin as (y & E & Hy).
  apply List.filter_In in Hy as [Hy _].
  apply List.in_map_iff. now exists y.
Qed.


End FinalizedEntries.


(* ===================================================================== *)
(** * Further properties: the Book Record Mapper *)
(* ===================================================================== *)

(** A case of the switch leaves alone a property that it does not
    assign. *)
Ltac frame_goal :=
  unfold case020, caseAuthors, case245, case260, case300, case520, case540,
    case546, case856, firstQualifying, authorStep, publicationStep, licenceStep;
  repeat first
    [ reflexivity
    | match goal with
      | |- ?proj (fold_left ?step ?l ?s) = ?proj ?s =>
          apply (fold_left_frame proj step l s); intros
      | |- context [fold_left titleStep ?l ?s] => destruct (fold_left titleStep l s)
      | |- context [collectUrl ?l] => destruct (collectUrl l)
      | |- context [match ?x with _ => _ end] => destruct x
      end
    | progress simpl ].

(** The switch on a data field whose tag is none of [tags]. *)
Ltac frame_switch :=
  intros; unfold applyDataField, hasTag in *;
  match goal with
  | |- context [attrs ?df] => destruct (attrs df); [|reflexivity]
  end;
  repeat match goal with
         | |- context [String.eqb ?x ?t] =>
             let E := fresh "E" in
             destruct (String.eqb x t) eqn:E; simpl in *; try discriminate
         end;
  frame_goal.

Section SlotFrames.

Lemma applyDataField_bookUrl_frame (b : BookRecord) (df : DataField) :
  hasTag "856" df = false -> bookUrl (applyDataField b df) = bookUrl b.
Proof. frame_switch. Qed.

Lemma applyDataField_thumnail_frame (b : BookRecord) (df : DataField) :
  hasTag "856" df = false -> thumnail (applyDataField b df) = thumnail b.
Proof. frame_switch. Qed.

Lemma applyDataField_licence_frame (b : BookRecord) (df : DataField) :
  hasTag "540" df = false -> licence (applyDataField b df) = licence b.
Proof. frame_switch. Qed.

Lemma applyDataField_language_frame (b : BookRecord) (df : DataField) :
  hasTag "546" df = false -> language (applyDataField b df) = language b.
Proof. frame_switch. Qed.

Lemma applyDataField_title_frame (b : BookRecord) (df : DataField) :
  hasTag "245" df = false -> title (applyDataField b df) = title b.
Proof. frame_switch. Qed.

Lemma applyDataField_nbPages_frame (b : BookRecord) (df : DataField) :
  hasTag "300" df = false -> nbPages (applyDataField b df) = nbPages b.
Proof. frame_switch. Qed.

Lemma applyDataField_authors_frame (b : BookRecord) (df : DataField) :
  hasTag "100" df = false -> hasTag "700" df = false ->
  authors (applyDataField b df) = authors b.
Proof. frame_switch. Qed.

End SlotFrames.

Section IgnoredFields.

Lemma applyDataField_irrelevant (b : BookRecord) (df : DataField) :
  relevantField df = false -> applyDataField b df = b.
Proof.
  unfold relevantField, applyDataField, mappedTags.
  destruct (attrs df) as [tag|]; [|reflexivity].
  simpl. rewrite !orb_false_iff.
  intros (-> & -> & -> & -> & -> & -> & -> & -> & -> & -> & _). reflexivity.
Qed.

End IgnoredFields.

(** X5.  The mapper ignores every data field that has no attributes or
    whose tag is none of 020, 100, 700, 245, 260, 300, 520, 540, 546, 856:
    the record maps as the record without those fields does; a record
    with no field of these tags maps to the default record. *)
Theorem mapper_ignores_other_fields (record : MarcRecord) :
  convertToBookRecord record
    = convertToBookRecord (mkMarcRecord (List.filter relevantField (datafields record))) /\
  (Forall (fun df => relevantField df = false) (datafields record) ->
   convertToBookRecord record = defaultBookRecord).
Proof.
  destruct record as [dfs]. unfold convertToBookRecord. simpl.
  assert (G : forall b,
    fold_left applyDataField dfs b
    = fold_left applyDataField (List.filter relevantField dfs) b).
  { induction dfs as [|df dfs IH]; intros b; simpl; [reflexivity|].
    destruct (relevantField df) eqn:E; simpl; [apply IH|].
    rewrite applyDataField_irrelevant by exact E. apply IH. }
  split; [apply G|].
  intros H. rewrite G.
  replace (List.filter relevantField dfs) with (@nil DataField); [reflexivity|].
  symmetry. clear G. induction dfs as [|df dfs IH]; simpl; [reflexivity|].
  apply Forall_cons_1 in H as [-> H]. now apply IH.
Qed.

Lemma mapper_ignores_other_fields_witness :
  convertToBookRecord
    (mkMarcRecord [mkDataField None [mkSubField "a" "x"];
                   mkDataField (Some "650") [mkSubField "a" "Education"]])
  = defaultBookRecord.
Proof.
  apply (mapper_ignores_other_fields
           (mkMarcRecord [mkDataField None [mkSubField "a" "x"];
                          mkDataField (Some "650") [mkSubField "a" "Education"]])).
  repeat constructor.
Defined.

Section FilledSlots.

Lemma fold_left_fixpoint {S X : Type} (step : S -> X -> S) (l : list X) (s : S) :
  (forall x, step s x = s) -> fold_left step l s = s.
Proof.
  intros H. induction l as [|x l IH]; simpl; [reflexivity|]. now rewrite H.
Qed.

Lemma applyDataField_bookUrl_kept (b : BookRecord) (df : DataField) :
  Js.truthy (bookUrl b) = true -> bookUrl (applyDataField b df) = bookUrl b.
Proof.
  intros Hb. destruct (hasTag "856" df) eqn:E;
    [|now apply applyDataField_bookUrl_frame].
  unfold hasTag, applyDataField in *.
  destruct (attrs df) as [tag|]; [|discriminate].
  apply String.eqb_eq in E. subst tag. simpl. unfold case856.
  destruct (collectUrl (subfields df)) as [url description].
  destruct (Js.truthy url); [|reflexivity].
  destruct (isThumbnail url description && _); [reflexivity|].
  now rewrite Hb.
Qed.

Lemma applyDataField_thumnail_kept (b : BookRecord) (df : DataField) :
  Js.truthyOpt (thumnail b) = true -> thumnail (applyDataField b df) = thumnail b.
Proof.
  intros Hb. destruct (hasTag "856" df) eqn:E;
    [|now apply applyDataField_thumnail_frame].
  unfold hasTag, applyDataField in *.
  destruct (attrs df) as [tag|]; [|discriminate].
  apply String.eqb_eq in E. subst tag. simpl. unfold case856.
  destruct (collectUrl (subfields df)) as [url description].
  destruct (Js.truthy url); [|reflexivity].
  rewrite Hb, andb_false_r. simpl.
  now destruct (negb (Js.truthy (bookUrl b))).
Qed.

Lemma applyDataField_licence_kept (b : BookRecord) (df : DataField) :
  Js.truthyOpt (licence b) = true -> licence (applyDataField b df) = licence b.
Proof.
  intros Hb. destruct (hasTag "540" df) eqn:E;
    [|now apply applyDataField_licence_frame].
  unfold hasTag, applyDataField in *.
  destruct (attrs df) as [tag|]; [|discriminate].
  apply String.eqb_eq in E. subst tag. simpl. unfold case540.
  rewrite fold_left_fixpoint; [reflexivity|].
  intros sf. unfold licenceStep. rewrite Hb. simpl.
  now destruct (_ && _).
Qed.

Lemma applyDataField_ISBN_kept (b : BookRecord) (df : DataField) :
  Js.truthyOpt (ISBN b) = true -> ISBN (applyDataField b df) = ISBN b.
Proof. intros Hb. rewrite applyDataField_ISBN. now rewrite Hb. Qed.

Lemma fold_kept {V : Type} (proj : BookRecord -> V) (filled : V -> bool)
    (dfs : list DataField) (b : BookRecord) :
  (forall b df, filled (proj b) = true -> proj (applyDataField b df) = proj b) ->
  filled (proj b) = true ->
  proj (fold_left applyDataField dfs b) = proj b.
Proof.
  intros Hstep. revert b; induction dfs as [|df dfs IH]; intros b Hb; simpl;
    [reflexivity|].
  rewrite IH; [now apply Hstep | now rewrite Hstep].
Qed.

End FilledSlots.

(** X6.  The slots that the mapper guards with [if (!slot)] are never
    overwritten once they hold a non-empty value: whatever data fields
    follow, the ISBN, the licence, the book URL and the thumbnail stay
    what they were. *)
Theorem filled_slots_are_kept (fields more : list DataField) :
  let b := convertToBookRecord (mkMarcRecord fields) in
  let b' := convertToBookRecord (mkMarcRecord (fields ++ more)) in
  (Js.truthyOpt (ISBN b) = true -> ISBN b' = ISBN b) /\
  (Js.truthyOpt (licence b) = true -> licence b' = licence b) /\
  (Js.truthy (bookUrl b) = true -> bookUrl b' = bookUrl b) /\
  (Js.truthyOpt (thumnail b) = true -> thumnail b' = thumnail b).
Proof.
  unfold convertToBookRecord. simpl. rewrite fold_left_app.
  repeat split; intros H.
  - apply (fold_kept ISBN Js.truthyOpt); [apply applyDataField_ISBN_kept | exact H].
  - apply (fold_kept licence Js.truthyOpt);
      [apply applyDataField_licence_kept | exact H].
  - apply (fold_kept bookUrl Js.truthy); [apply applyDataField_bookUrl_kept | exact H].
  - apply (fold_kept thumnail Js.truthyOpt);
      [apply applyDataField_thumnail_kept | exact H].
Qed.

Lemma filled_slots_are_kept_witness :
  bookUrl (convertToBookRecord
             (mkMarcRecord [mkDataField (Some "856") thumbDescriptionField;
                            mkDataField (Some "856")
                              [mkSubField "u" "http://example.org/other.pdf"]]))
  = "http://example.org/book.pdf".
Proof.
  destruct (filled_slots_are_kept
              [mkDataField (Some "856") thumbDescriptionField]
              [mkDataField (Some "856")
                 [mkSubField "u" "http://example.org/other.pdf"]])
    as (_ & _ & H & _).
  apply H. reflexivity.
Defined.

(** X7.  A URL classified as a thumbnail that arrives when the thumbnail
    slot is already filled is not dropped: when the book URL is still
    empty it becomes the book URL, and the thumbnail is left as it is. *)
Theorem second_thumbnail_becomes_bookUrl (subFields : list SubField)
    (b : BookRecord) :
  Js.truthy (pairedUrl subFields) = true ->
  classifiedAsThumbnail subFields = true ->
  Js.truthyOpt (thumnail b) = true ->
  Js.truthy (bookUrl b) = false ->
  bookUrl (applyDataField b (mkDataField (Some "856") subFields))
    = pairedUrl subFields /\
  thumnail (applyDataField b (mkDataField (Some "856") subFields)) = thumnail b.
Proof.
  intros Hurl Hcls Hthumb Hbook.
  unfold applyDataField. simpl. unfold case856.
  unfold classifiedAsThumbnail in Hcls.
  rewrite collectUrl_spec in *. simpl in Hcls.
  rewrite Hurl, Hcls, Hthumb, Hbook. simpl. split; reflexivity.
Qed.

Lemma second_thumbnail_becomes_bookUrl_witness :
  bookUrl (convertToBookRecord
             (mkMarcRecord
                [mkDataField (Some "856") coverUrlField;
                 mkDataField (Some "856")
                   [mkSubField "u" "http://example.org/thumbs/1.png"]]))
  = "http://example.org/thumbs/1.png".
Proof.
  apply (second_thumbnail_becomes_bookUrl
           [mkSubField "u" "http://example.org/thumbs/1.png"]
           (convertToBookRecord
              (mkMarcRecord [mkDataField (Some "856") coverUrlField])));
    reflexivity.
Defined.

Section AuthorFacts.

Lemma existsb_eqb_false (a : string) (l : list string) :
  existsb (String.eqb a) l = false <-> ~ List.In a l.
Proof.
  rewrite <- existsb_eqb_In. now destruct (existsb (String.eqb a) l).
Qed.

(** The author loop keeps the list free of repetitions and adds exactly
    the non-empty trimmed subfield [a] texts. *)
Lemma caseAuthors_spec (subFields : list SubField) (b : BookRecord) :
  List.NoDup (authors b) ->
  List.NoDup (authors (caseAuthors subFields b)) /\
  forall a,
    List.In a (authors (caseAuthors subFields b)) <->
    List.In a (authors b) \/
    (a <> "" /\
     List.In a (List.map Js.trim
                  (List.map text (List.filter (qualifies "a") subFields)))).
Proof.
  unfold caseAuthors. revert b.
  induction subFields as [|sf subFields IH]; intros b Hnd; simpl.
  - split; [exact Hnd|]. intros a. tauto.
  - assert (Hstep : List.NoDup (authors (authorStep b sf)) /\
              forall a, List.In a (authors (authorStep b sf)) <->
                        List.In a (authors b) \/
                        (a <> "" /\ qualifies "a" sf = true /\ a = Js.trim (text sf))).
    { unfold authorStep. destruct (qualifies "a" sf) eqn:Eq;
        [|split; [exact Hnd|]; intros a; intuition discriminate].
      destruct (Js.truthy (Js.trim (text sf))) eqn:Et; simpl.
      - apply truthy_true in Et.
        destruct (existsb (String.eqb (Js.trim (text sf))) (authors b)) eqn:Ex; simpl.
        + apply existsb_eqb_In in Ex. split; [exact Hnd|].
          intros a. split; [tauto|]. intros [H | (_ & _ & ->)]; assumption.
        + apply existsb_eqb_false in Ex. split.
          * apply NoDup_ListNoDup, NoDup_app. repeat split.
            -- now apply NoDup_ListNoDup.
            -- intros x Hx Hx'. apply list_elem_of_In in Hx, Hx'.
               destruct Hx' as [<- | []]. contradiction.
            -- apply NoDup_singleton.
          * intros a. rewrite List.in_app_iff. simpl. split.
            -- intros [H | [<- | []]]; [now left | right; auto].
            -- intros [H | (_ & _ & ->)]; [now left | right; now left].
      - apply truthy_false in Et. split; [exact Hnd|].
        intros a. split; [tauto|].
        intros [H | (Hne & _ & ->)]; [exact H | contradiction]. }
    destruct Hstep as [Hnd' Hin'].
    destruct (IH (authorStep b sf) Hnd') as [Hnd'' Hin''].
    split; [exact Hnd''|].
    intros a. rewrite Hin'', Hin'.
    destruct (qualifies "a" sf); simpl; intuition (subst; auto; discriminate).
Qed.

Lemma applyDataField_authors (b : BookRecord) (df : DataField) :
  List.NoDup (authors b) ->
  List.NoDup (authors (applyDataField b df)) /\
  forall a,
    List.In a (authors (applyDataField b df)) <->
    List.In a (authors b) \/
    (a <> "" /\
     List.In a (List.map Js.trim
                  (if hasTag "100" df || hasTag "700" df
                   then List.map text (List.filter (qualifies "a") (subfields df))
                   else []))).
Proof.
  intros Hnd.
  destruct (hasTag "100" df || hasTag "700" df) eqn:E.
  - unfold hasTag, applyDataField in *.
    destruct (attrs df) as [tag|]; [|discriminate].
    assert (Htag : String.eqb tag "020" = false).
    { apply orb_true_iff in E as [E | E]; apply String.eqb_eq in E; now subst. }
    rewrite Htag, E. now apply caseAuthors_spec.
  - apply orb_false_iff in E as [E1 E2].
    rewrite applyDataField_authors_frame by assumption.
    split; [exact Hnd|]. intros a. simpl. tauto.
Qed.

End AuthorFacts.

(** X8.  The authors of a mapped record are exactly the non-empty trimmed
    subfield [a] texts of its fields 100 and 700, each listed once. *)
Theorem authors_distinct_and_complete (record : MarcRecord) :
  List.NoDup (authors (convertToBookRecord record)) /\
  forall a,
    List.In a (authors (convertToBookRecord record)) <->
    (a <> "" /\ List.In a (authorNames record)).
Proof.
  destruct record as [dfs]. unfold convertToBookRecord, authorNames, subfieldValues.
  simpl.
  assert (G : forall b, List.NoDup (authors b) ->
    List.NoDup (authors (fold_left applyDataField dfs b)) /\
    forall a,
      List.In a (authors (fold_left applyDataField dfs b)) <->
      List.In a (authors b) \/
      (a <> "" /\
       List.In a (List.map Js.trim
         (List.flat_map
            (fun df => if hasTag "100" df || hasTag "700" df
                       then List.map text (List.filter (qualifies "a") (subfields df))
                       else []) dfs)))).
  { induction dfs as [|df dfs IH]; intros b Hnd; simpl.
    - split; [exact Hnd|]. intros a. tauto.
    - destruct (applyDataField_authors b df Hnd) as [Hnd' Hin'].
      destruct (IH _ Hnd') as [Hnd'' Hin''].
      split; [exact Hnd''|]. intros a.
      rewrite Hin'', Hin', List.map_app, List.in_app_iff. tauto. }
  destruct (G defaultBookRecord) as [Hnd Hin]; [constructor|].
  split; [exact Hnd|]. intros a. rewrite Hin. simpl.
  rewrite List.in_app_iff.
  assert (Hsplit :
    List.In a (List.map Js.trim
      (List.flat_map
         (fun df => if hasTag "100" df || hasTag "700" df
                    then List.map text (List.filter (qualifies "a") (subfields df))
                    else []) dfs)) <->
    List.In a (List.map Js.trim
      (List.flat_map
         (fun df => if hasTag "100" df
                    then List.map text (List.filter (qualifies "a") (subfields df))
                    else []) dfs)) \/
    List.In a (List.map Js.trim
      (List.flat_map
         (fun df => if hasTag "700" df
                    then List.map text (List.filter (qualifies "a") (subfields df))
                    else []) dfs))).
  { clear. induction dfs as [|df dfs IH]; simpl; [tauto|].
    rewrite !List.map_app, !List.in_app_iff, IH.
    destruct (hasTag "100" df), (hasTag "700" df); simpl; tauto. }
  rewrite Hsplit. tauto.
Qed.

Section TitleFacts.

Lemma fold_titleStep (subFields : list SubField) (acc : string * string) :
  fold_left titleStep subFields acc
  = (default (fst acc)
       (lastTrimmed (List.map text (List.filter (qualifies "a") subFields))),
     default (snd acc)
       (lastTrimmed (List.map text (List.filter (qualifies "b") subFields)))).
Proof.
  unfold lastTrimmed. revert acc.
  induction subFields as [|sf subFields IH] using rev_ind; intros [t s].
  - reflexivity.
  - rewrite fold_left_app, !List.filter_app, !List.map_app, !last_app_cases.
    simpl. rewrite IH. unfold titleStep. simpl.
    destruct (qualifies "a" sf) eqn:Ea; simpl.
    + rewrite (qualifies_exclusive "a" "b" sf) by (discriminate || exact Ea).
      reflexivity.
    + destruct (qualifies "b" sf); reflexivity.
Qed.

Lemma applyDataField_title (b : BookRecord) (df : DataField) :
  title (applyDataField b df)
  = if hasTag "245" df then titleOf (subfields df) else title b.
Proof.
  destruct (hasTag "245" df) eqn:E; [|now apply applyDataField_title_frame].
  unfold hasTag, applyDataField in *.
  destruct (attrs df) as [tag|]; [|discriminate].
  apply String.eqb_eq in E. subst tag. simpl.
  unfold case245, titleOf. rewrite fold_titleStep. reflexivity.
Qed.

End TitleFacts.

(** X9.  The title of a mapped record is that of its last field 245
    occurrence alone (last subfield [a], and last subfield [b] after ": "
    when it has one); an occurrence without such subfields resets the
    title to the empty string; without field 245 the title is empty. *)
Theorem title_from_last_occurrence (record : MarcRecord) :
  title (convertToBookRecord record)
  = match last (List.filter (hasTag "245") (datafields record)) with
    | Some df => titleOf (subfields df)
    | None => ""
    end.
Proof.
  destruct record as [dfs]. unfold convertToBookRecord. simpl.
  assert (G : forall b,
    title (fold_left applyDataField dfs b)
    = match last (List.filter (hasTag "245") dfs) with
      | Some df => titleOf (subfields df)
      | None => title b
      end).
  { induction dfs as [|df dfs IH] using rev_ind; intros b; [reflexivity|].
    rewrite fold_left_app, List.filter_app, last_app_cases. simpl.
    rewrite applyDataField_title.
    destruct (hasTag "245" df); simpl; [reflexivity | apply IH]. }
  apply G.
Qed.

Section LanguageFacts.

Lemma applyDataField_language (b : BookRecord) (df : DataField) :
  language (applyDataField b df)
  = match lastTrimmed (if hasTag "546" df
                       then match firstQualifying "a" (subfields df) with
                            | Some sf => [text sf]
                            | None => []
                            end
                       else []) with
    | Some v => Some v
    | None => language b
    end.
Proof.
  destruct (hasTag "546" df) eqn:E;
    [|now rewrite applyDataField_language_frame].
  unfold hasTag, applyDataField in *.
  destruct (attrs df) as [tag|]; [|discriminate].
  apply String.eqb_eq in E. subst tag. simpl. unfold case546.
  now destruct (firstQualifying "a" (subfields df)).
Qed.

End LanguageFacts.

(** X10.  The language of a mapped record is the trimmed text of the
    first subfield [a] (with a text) of the last field 546 occurrence that
    has one: the loop stops at the first subfield of an occurrence, but a
    later occurrence overwrites an earlier one. *)
Theorem language_last_occurrence (record : MarcRecord) :
  language (convertToBookRecord record)
  = lastTrimmed (firstPerOccurrence "546" "a" record).
Proof.
  destruct record as [dfs]. unfold convertToBookRecord. simpl.
  assert (G : forall b,
    language (fold_left applyDataField dfs b)
    = match lastTrimmed (firstPerOccurrence "546" "a" (mkMarcRecord dfs)) with
      | Some v => Some v
      | None => language b
      end).
  { unfold firstPerOccurrence, lastTrimmed. simpl.
    induction dfs as [|df dfs IH] using rev_ind; intros b; [reflexivity|].
    rewrite fold_left_app, List.flat_map_app, last_app_cases. simpl.
    rewrite app_nil_r, applyDataField_language. unfold lastTrimmed.
    destruct (last (if hasTag "546" df then _ else [])); simpl;
      [reflexivity | apply IH]. }
  rewrite G. now destruct (lastTrimmed _).
Qed.

Section LicenceFacts.

Lemma offered_cons (current : option string) (v : string) (values : list string) :
  offered current (v :: values)
  = offered (if Js.truthyOpt current then current else Some v) values.
Proof.
  unfold offered. destruct (Js.truthyOpt current) eqn:Ec.
  - now rewrite Ec.
  - simpl. destruct (Js.truthy v) eqn:Ev; [reflexivity|].
    apply truthy_false in Ev. subst v.
    destruct (List.find Js.truthy values); [reflexivity|].
    now destruct values.
Qed.

Lemma offered_nil (current : option string) : offered current [] = current.
Proof. unfold offered. now destruct (Js.truthyOpt current). Qed.

Lemma offered_app (current : option string) (l1 l2 : list string) :
  offered current (l1 ++ l2)%list = offered (offered current l1) l2.
Proof.
  revert current; induction l1 as [|v l1 IH]; intros current; simpl.
  - now rewrite offered_nil.
  - now rewrite !offered_cons, IH.
Qed.

Lemma case540_licence (subFields : list SubField) (b : BookRecord) :
  licence (case540 subFields b)
  = offered (licence b)
      (List.map (fun sf => Js.trim (text sf)) (List.filter qualifiesLicence subFields)).
Proof.
  unfold case540. revert b.
  induction subFields as [|sf subFields IH]; intros b; simpl.
  - now rewrite offered_nil.
  - rewrite IH. unfold licenceStep. fold (qualifiesLicence sf).
    destruct (qualifiesLicence sf); simpl; [|reflexivity].
    rewrite offered_cons.
    now destruct (Js.truthyOpt (licence b)).
Qed.

Lemma applyDataField_licence (b : BookRecord) (df : DataField) :
  licence (applyDataField b df)
  = offered (licence b)
      (if hasTag "540" df
       then List.map (fun sf => Js.trim (text sf))
                     (List.filter qualifiesLicence (subfields df))
       else []).
Proof.
  destruct (hasTag "540" df) eqn:E;
    [|now rewrite applyDataField_licence_frame, offered_nil].
  unfold hasTag, applyDataField in *.
  destruct (attrs df) as [tag|]; [|discriminate].
  apply String.eqb_eq in E. subst tag. simpl. apply case540_licence.
Qed.

End LicenceFacts.

(** X11.  The licence of a mapped record is the first non-empty trimmed
    text among the subfields [a] and [f] (with a text) of its fields 540,
    in document order; when all of them are blank it is the empty string,
    and when there is none it is absent. *)
Theorem licence_first_filled (record : MarcRecord) :
  licence (convertToBookRecord record) = firstFilled (licenceValues record).
Proof.
  destruct record as [dfs]. unfold convertToBookRecord, licenceValues. simpl.
  assert (G : forall b,
    licence (fold_left applyDataField dfs b)
    = offered (licence b)
        (List.flat_map
           (fun df => if hasTag "540" df
                      then List.map (fun sf => Js.trim (text sf))
                                    (List.filter qualifiesLicence (subfields df))
                      else []) dfs)).
  { induction dfs as [|df dfs IH]; intros b; simpl.
    - now rewrite offered_nil.
    - now rewrite IH, applyDataField_licence, offered_app. }
  rewrite G. reflexivity.
Qed.

(* ===================================================================== *)
(** * Further properties: the download manager *)
(* ===================================================================== *)

Section DownloadFacts.

Variable httpGet : string -> HttpOutcome.
Variable resolveUrl : string -> string -> option string.
Variable pipeToFile : string -> string -> WriteOutcome.
Variable probeFile : string -> FileProbe.
Variable joinPath : string -> string -> string.
Variable destinationFolder : string.

(** A fetch that settles ends in a success that names the destination
    path, or in a failure that carries a message. *)
Lemma downloadWithRedirectsFrom_shape (now startTime : Z) (hops : nat)
    (urlString filePath isbn : string) (redirectCount : nat)
    (result : DownloadResult.t) :
  downloadWithRedirectsFrom httpGet resolveUrl pipeToFile now hops
    urlString filePath isbn startTime redirectCount = Some (Settled result) ->
  (exists size, result = DownloadResult.mk isbn true (Some filePath) None
                           (Some (now - startTime)%Z) size) \/
  (exists message, result = failure isbn message).
Proof.
  revert urlString redirectCount.
  induction hops as [|hops IH]; intros urlString redirectCount;
    rewrite downloadWithRedirectsFrom_unfold;
    (destruct (maxRedirects <? redirectCount)%nat;
     [intros [= <-]; right; eauto|]);
    (destruct (httpGet urlString) as [statusCode statusMessage [target|] | | |];
     try (intros [= <-]; right; eauto; fail));
    (destruct (isRedirectStatus statusCode);
     [ try (destruct (Js.truthy target);
            [destruct (resolveUrl target urlString)|]);
       try (intros [= <-]; right; eauto; fail);
       try discriminate; try apply IH
     | match goal with
       | |- context [if ?c then _ else _] => destruct c
       end;
       [ destruct (pipeToFile filePath urlString); try discriminate;
         intros [= <-]; [left; eauto | right; eauto]
       | intros [= <-]; right; eauto ] ]).
Qed.

(** The clock readings decide nothing in a fetch but the download time
    that the result reports. *)
Lemma downloadWithRedirectsFrom_clock (now1 startTime1 now2 startTime2 : Z)
    (hops : nat) (urlString filePath isbn : string) (redirectCount : nat) :
  match downloadWithRedirectsFrom httpGet resolveUrl pipeToFile now1 hops
          urlString filePath isbn startTime1 redirectCount,
        downloadWithRedirectsFrom httpGet resolveUrl pipeToFile now2 hops
          urlString filePath isbn startTime2 redirectCount with
  | Some (Settled r1), Some (Settled r2) =>
      DownloadResult.success r1 = DownloadResult.success r2 /\
      DownloadResult.filePath r1 = DownloadResult.filePath r2 /\
      DownloadResult.errorMessage r1 = DownloadResult.errorMessage r2
  | Some NeverSettled, Some NeverSettled => True
  | None, None => True
  | _, _ => False
  end.
Proof.
  revert urlString redirectCount.
  induction hops as [|hops IH]; intros urlString redirectCount;
    rewrite !downloadWithRedirectsFrom_unfold;
    (destruct (maxRedirects <? redirectCount)%nat; [simpl; auto|]);
    (destruct (httpGet urlString) as [statusCode statusMessage [target|] | | |];
     try (simpl; auto; fail));
    (destruct (isRedirectStatus statusCode);
     [ try (destruct (Js.truthy target);
            [destruct (resolveUrl target urlString)|]);
       try (simpl; auto; fail); try apply IH
     | match goal with
       | |- context [if ?c then _ else _] => destruct c
       end;
       [ destruct (pipeToFile filePath urlString); simpl; auto
       | simpl; auto ] ]).
Qed.

Lemma updateIndexEntry_lookup (timestamp : string) (index : DownloadIndex)
    (isbn : string) (result : DownloadResult.t) (entry : IndexEntry.t) :
  index !! isbn = Some entry ->
  updateIndexEntry timestamp isbn result index !! isbn
  = Some (if DownloadResult.success result
          then IndexEntry.mk (IndexEntry.record entry) done
                 (DownloadResult.filePath result) None (Some timestamp)
          else IndexEntry.mk (IndexEntry.record entry) error
                 (IndexEntry.filePath entry) (DownloadResult.errorMessage result)
                 (IndexEntry.downloadedAt entry)).
Proof.
  intros H. unfold updateIndexEntry. rewrite H.
  destruct (DownloadResult.success result); apply lookup_insert_eq.
Qed.

Lemma updateIndexEntry_other (timestamp : string) (index : DownloadIndex)
    (isbn other : string) (result : DownloadResult.t) :
  other <> isbn ->
  updateIndexEntry timestamp isbn result index !! other = index !! other.
Proof.
  intros Hne. unfold updateIndexEntry.
  destruct (index !! isbn); [|reflexivity].
  destruct (DownloadResult.success result); now rewrite lookup_insert_ne.
Qed.

Lemma downloadFile_index (startTime now : Z) (index : DownloadIndex) (isbn : string) :
  match downloadFile httpGet resolveUrl pipeToFile probeFile joinPath
          destinationFolder startTime now index isbn with
  | Resolved index' _ | Unsettled index' =>
      index' = index \/
      exists entry, index !! isbn = Some entry /\
                    index' = <[isbn := withState downloading entry]> index
  | Rejected _ | OutOfHops => True
  end.
Proof.
  unfold downloadFile.
  destruct (index !! isbn) as [entry|] eqn:E.
  - destruct (negb (Js.truthy (bookUrl (IndexEntry.record entry)))); [now left|].
    cbv zeta.
    destruct (probeFile _) as [|size|message]; [| destruct (0 <? size)%nat|];
      try (now left); try exact I;
      (destruct (downloadWithRedirects _ _ _ _ _ _ _ _ _) as [[r|]|];
       [right; eauto | right; eauto | exact I]).
  - destruct (Js.inheritedName isbn); [exact I | now left].
Qed.

Lemma processItem_other (startTime now : Z) (timestamp : string)
    (index : DownloadIndex) (isbn other : string) :
  other <> isbn ->
  processItem httpGet resolveUrl pipeToFile probeFile joinPath destinationFolder
    startTime now timestamp index isbn !! other = index !! other.
Proof.
  intros Hne. unfold processItem.
  pose proof (downloadFile_index startTime now index isbn) as H.
  destruct (downloadFile _ _ _ _ _ _ _ _ _ _) as [index' r| |index'|];
    try reflexivity.
  - rewrite updateIndexEntry_other by exact Hne.
    destruct H as [-> | (entry & _ & ->)]; [reflexivity|].
    now rewrite lookup_insert_ne.
  - destruct H as [-> | (entry & _ & ->)]; [reflexivity|].
    now rewrite lookup_insert_ne.
Qed.

Lemma processItem_absent (startTime now : Z) (timestamp : string)
    (index : DownloadIndex) (isbn : string) :
  index !! isbn = None ->
  processItem httpGet resolveUrl pipeToFile probeFile joinPath destinationFolder
    startTime now timestamp index isbn = index.
Proof.
  intros H. unfold processItem, downloadFile, updateIndexEntry. rewrite H.
  destruct (Js.inheritedName isbn); [reflexivity | now rewrite H].
Qed.

(** What processing one item makes of its entry, by the way in which
    [downloadFile] ends. *)
Lemma processItem_entry (startTime now : Z) (timestamp : string)
    (index : DownloadIndex) (isbn : string) (entry : IndexEntry.t) :
  index !! isbn = Some entry ->
  exists entry',
    processItem httpGet resolveUrl pipeToFile probeFile joinPath destinationFolder
      startTime now timestamp index isbn !! isbn = Some entry' /\
    IndexEntry.record entry' = IndexEntry.record entry /\
    match downloadFile httpGet resolveUrl pipeToFile probeFile joinPath
            destinationFolder startTime now index isbn with
    | Resolved _ _ =>
        (IndexEntry.downloadState entry' = done /\
         IndexEntry.filePath entry'
           = Some (joinPath destinationFolder (isbn ++ ".pdf")) /\
         IndexEntry.errorMessage entry' = None /\
         IndexEntry.downloadedAt entry' = Some timestamp) \/
        (IndexEntry.downloadState entry' = error /\
         (exists message, IndexEntry.errorMessage entry' = Some message) /\
         IndexEntry.filePath entry' = IndexEntry.filePath entry /\
         IndexEntry.downloadedAt entry' = IndexEntry.downloadedAt entry)
    | Rejected message =>
        entry' = entry /\
        probeFile (joinPath destinationFolder (isbn ++ ".pdf")) = StatFails message
    | Unsettled _ => entry' = withState downloading entry
    | OutOfHops => False
    end.
Proof.
  intros H. unfold processItem, downloadFile. rewrite H.
  destruct (negb (Js.truthy (bookUrl (IndexEntry.record entry)))).
  { rewrite (updateIndexEntry_lookup _ _ _ _ _ H). simpl.
    eexists. split; [reflexivity|]. split; [reflexivity|]. right. simpl. eauto. }
  cbv zeta.
  assert (G :
    exists entry',
      match
        match downloadWithRedirects httpGet resolveUrl pipeToFile now
                (bookUrl (IndexEntry.record entry))
                (joinPath destinationFolder (isbn ++ ".pdf")) isbn startTime 0 with
        | Some (Settled result) =>
            Resolved (<[isbn := withState downloading entry]> index) result
        | Some NeverSettled =>
            Unsettled (<[isbn := withState downloading entry]> index)
        | None => OutOfHops
        end
      with
      | Resolved index' result => updateIndexEntry timestamp isbn result index'
      | Rejected _ => index
      | Unsettled index' => index'
      | OutOfHops => index
      end !! isbn = Some entry' /\
      IndexEntry.record entry' = IndexEntry.record entry /\
      match
        match downloadWithRedirects httpGet resolveUrl pipeToFile now
                (bookUrl (IndexEntry.record entry))
                (joinPath destinationFolder (isbn ++ ".pdf")) isbn startTime 0 with
        | Some (Settled result) =>
            Resolved (<[isbn := withState downloading entry]> index) result
        | Some NeverSettled =>
            Unsettled (<[isbn := withState downloading entry]> index)
        | None => OutOfHops
        end
      with
      | Resolved _ _ =>
          (IndexEntry.downloadState entry' = done /\
           IndexEntry.filePath entry'
             = Some (joinPath destinationFolder (isbn ++ ".pdf")) /\
           IndexEntry.errorMessage entry' = None /\
           IndexEntry.downloadedAt entry' = Some timestamp) \/
          (IndexEntry.downloadState entry' = error /\
           (exists message, IndexEntry.errorMessage entry' = Some message) /\
           IndexEntry.filePath entry' = IndexEntry.filePath entry /\
           IndexEntry.downloadedAt entry' = IndexEntry.downloadedAt entry)
      | Rejected message =>
          entry' = entry /\
          probeFile (joinPath destinationFolder (isbn ++ ".pdf")) = StatFails message
      | Unsettled _ => entry' = withState downloading entry
      | OutOfHops => False
      end).
  { destruct (downloadWithRedirects_total httpGet resolveUrl pipeToFile now
                (bookUrl (IndexEntry.record entry))
                (joinPath destinationFolder (isbn ++ ".pdf")) isbn startTime 0)
      as [[r|] Hr]; rewrite Hr.
    - rewrite (updateIndexEntry_lookup timestamp _ isbn r
                 (withState downloading entry)) by apply lookup_insert_eq.
      eexists. split; [reflexivity|].
      apply downloadWithRedirectsFrom_shape in Hr as [[size ->] | [message ->]];
        simpl.
      + split; [reflexivity|]. left. auto.
      + split; [reflexivity|]. right. eauto.
    - rewrite lookup_insert_eq. eexists. split; [reflexivity|].
      split; reflexivity. }
  destruct (probeFile _) as [|size|message] eqn:Ep.
  - exact G.
  - destruct (0 <? size)%nat; [|exact G].
    rewrite (updateIndexEntry_lookup _ _ _ _ _ H). simpl.
    eexists. split; [reflexivity|]. split; [reflexivity|]. left. auto.
  - exists entry. auto.
Qed.

(** Processing an item looks at nothing of the index but the entry of
    that item. *)
Lemma processItem_local (startTime now : Z) (timestamp : string)
    (index1 index2 : DownloadIndex) (isbn : string) :
  index1 !! isbn = index2 !! isbn ->
  processItem httpGet resolveUrl pipeToFile probeFile joinPath destinationFolder
    startTime now timestamp index1 isbn !! isbn
  = processItem httpGet resolveUrl pipeToFile probeFile joinPath destinationFolder
      startTime now timestamp index2 isbn !! isbn /\
  itemSettles httpGet resolveUrl pipeToFile probeFile joinPath destinationFolder
    startTime now index1 isbn
  = itemSettles httpGet resolveUrl pipeToFile probeFile joinPath destinationFolder
      startTime now index2 isbn.
Proof.
  intros H. unfold itemSettles, processItem, downloadFile.
  destruct (index1 !! isbn) as [entry|] eqn:E1; rewrite <- H.
  2:{ destruct (Js.inheritedName isbn); [now rewrite E1, <- H|].
      unfold updateIndexEntry. rewrite E1, <- H. split; congruence. }
  symmetry in H.
  destruct (negb (Js.truthy (bookUrl (IndexEntry.record entry)))).
  { now rewrite (updateIndexEntry_lookup _ _ _ _ _ E1),
      (updateIndexEntry_lookup _ _ _ _ _ H). }
  cbv zeta.
  assert (G : forall fetched : option Settlement,
    match
      match fetched with
      | Some (Settled result) =>
          Resolved (<[isbn := withState downloading entry]> index1) result
      | Some NeverSettled =>
          Unsettled (<[isbn := withState downloading entry]> index1)
      | None => OutOfHops
      end
    with
    | Resolved index' result => updateIndexEntry timestamp isbn result index'
    | Rejected _ => index1
    | Unsettled index' => index'
    | OutOfHops => index1
    end !! isbn
    = match
        match fetched with
        | Some (Settled result) =>
            Resolved (<[isbn := withState downloading entry]> index2) result
        | Some NeverSettled =>
            Unsettled (<[isbn := withState downloading entry]> index2)
        | None => OutOfHops
        end
      with
      | Resolved index' result => updateIndexEntry timestamp isbn result index'
      | Rejected _ => index2
      | Unsettled index' => index'
      | OutOfHops => index2
      end !! isbn /\
    match
      match fetched with
      | Some (Settled result) =>
          Resolved (<[isbn := withState downloading entry]> index1) result
      | Some NeverSettled =>
          Unsettled (<[isbn := withState downloading entry]> index1)
      | None => OutOfHops
      end
    with
    | Unsettled _ => false
    | _ => true
    end
    = match
        match fetched with
        | Some (Settled result) =>
            Resolved (<[isbn := withState downloading entry]> index2) result
        | Some NeverSettled =>
            Unsettled (<[isbn := withState downloading entry]> index2)
        | None => OutOfHops
        end
      with
      | Unsettled _ => false
      | _ => true
      end).
  { intros [[r|]|].
    - now rewrite !(updateIndexEntry_lookup _ _ _ _ (withState downloading entry))
        by apply lookup_insert_eq.
    - now rewrite !lookup_insert_eq.
    - split; [congruence | reflexivity]. }
  destruct (probeFile _) as [|size|message]; [apply G | | split; congruence].
  destruct (0 <? size)%nat; [|apply G].
  now rewrite (updateIndexEntry_lookup _ _ _ _ _ E1),
    (updateIndexEntry_lookup _ _ _ _ _ H).
Qed.

(** The clock readings decide nothing of what processing an item leaves
    but the completion time of its entry, and nothing of whether the
    download settles. *)
Lemma processItem_forget (startTime1 now1 startTime2 now2 : Z)
    (timestamp1 timestamp2 : string) (index1 index2 : DownloadIndex)
    (isbn : string) :
  forgetTime <$> index1 !! isbn = forgetTime <$> index2 !! isbn ->
  forgetTime <$>
    processItem httpGet resolveUrl pipeToFile probeFile joinPath destinationFolder
      startTime1 now1 timestamp1 index1 isbn !! isbn
  = forgetTime <$>
      processItem httpGet resolveUrl pipeToFile probeFile joinPath destinationFolder
        startTime2 now2 timestamp2 index2 isbn !! isbn /\
  itemSettles httpGet resolveUrl pipeToFile probeFile joinPath destinationFolder
    startTime1 now1 index1 isbn
  = itemSettles httpGet resolveUrl pipeToFile probeFile joinPath destinationFolder
      startTime2 now2 index2 isbn.
Proof.
  intros H.
  destruct (index1 !! isbn) as [e1|] eqn:E1;
    destruct (index2 !! isbn) as [e2|] eqn:E2; try discriminate.
  2:{ rewrite !processItem_absent by assumption. rewrite E1, E2.
      split; [reflexivity|].
      unfold itemSettles, downloadFile. rewrite E1, E2.
      now destruct (Js.inheritedName isbn). }
  destruct e1 as [record1 state1 path1 message1 time1].
  destruct e2 as [record2 state2 path2 message2 time2].
  injection H as -> -> -> ->.
  unfold itemSettles, processItem, downloadFile. rewrite E1, E2.
  cbn [IndexEntry.record].
  destruct (negb (Js.truthy (bookUrl record2))).
  { rewrite (updateIndexEntry_lookup _ _ _ _ _ E1),
      (updateIndexEntry_lookup _ _ _ _ _ E2). now simpl. }
  cbv zeta.
  pose proof (downloadWithRedirectsFrom_clock now1 startTime1 now2 startTime2
                (S maxRedirects - 0) (bookUrl record2)
                (joinPath destinationFolder (isbn ++ ".pdf")) isbn 0) as Hclock.
  fold (downloadWithRedirects httpGet resolveUrl pipeToFile now1 (bookUrl record2)
          (joinPath destinationFolder (isbn ++ ".pdf")) isbn startTime1 0) in Hclock.
  fold (downloadWithRedirects httpGet resolveUrl pipeToFile now2 (bookUrl record2)
          (joinPath destinationFolder (isbn ++ ".pdf")) isbn startTime2 0) in Hclock.
  destruct (probeFile _) as [|size|message].
  - destruct (downloadWithRedirects _ _ _ now1 _ _ _ _ _) as [[r1|]|];
      destruct (downloadWithRedirects _ _ _ now2 _ _ _ _ _) as [[r2|]|];
      try contradiction.
    + destruct Hclock as (Hs & Hp & Hm).
      rewrite !(updateIndexEntry_lookup _ _ isbn _
                  (withState downloading (IndexEntry.mk record2 state2 path2
                                            message2 _)))
        by apply lookup_insert_eq.
      rewrite Hs, Hp, Hm. split; [|reflexivity].
      now destruct (DownloadResult.success r2).
    + rewrite !lookup_insert_eq. now simpl.
    + rewrite E1, E2. now simpl.
  - destruct (0 <? size)%nat.
    + rewrite (updateIndexEntry_lookup _ _ _ _ _ E1),
        (updateIndexEntry_lookup _ _ _ _ _ E2). now simpl.
    + destruct (downloadWithRedirects _ _ _ now1 _ _ _ _ _) as [[r1|]|];
        destruct (downloadWithRedirects _ _ _ now2 _ _ _ _ _) as [[r2|]|];
        try contradiction.
      * destruct Hclock as (Hs & Hp & Hm).
        rewrite !(updateIndexEntry_lookup _ _ isbn _
                    (withState downloading (IndexEntry.mk record2 state2 path2
                                              message2 _)))
          by apply lookup_insert_eq.
        rewrite Hs, Hp, Hm. split; [|reflexivity].
        now destruct (DownloadResult.success r2).
      * rewrite !lookup_insert_eq. now simpl.
      * rewrite E1, E2. now simpl.
  - rewrite E1, E2. now simpl.
Qed.

End DownloadFacts.

Section QueueFacts.

Variable httpGet : string -> HttpOutcome.
Variable resolveUrl : string -> string -> option string.
Variable pipeToFile : string -> string -> WriteOutcome.
Variable probeFile : string -> FileProbe.
Variable joinPath : string -> string -> string.
Variable destinationFolder : string.

Local Abbreviation item :=
  (processItem httpGet resolveUrl pipeToFile probeFile joinPath destinationFolder).
Local Abbreviation settles :=
  (itemSettles httpGet resolveUrl pipeToFile probeFile joinPath destinationFolder).
Local Abbreviation run :=
  (processDownloadQueue httpGet resolveUrl pipeToFile probeFile joinPath
     destinationFolder).

Lemma itemSettles_clock (startTime1 now1 startTime2 now2 : Z)
    (index : DownloadIndex) (isbn : string) :
  settles startTime1 now1 index isbn = settles startTime2 now2 index isbn.
Proof.
  now apply (processItem_forget httpGet resolveUrl pipeToFile probeFile joinPath
               destinationFolder startTime1 now1 startTime2 now2 "" "").
Qed.

Lemma run_other (startTime now : nat -> Z) (timestamp : nat -> string)
    (queue : list string) (index : DownloadIndex) (k : string) :
  ~ List.In k queue ->
  finalIndex (run startTime now timestamp queue index) !! k = index !! k.
Proof.
  revert startTime now timestamp index.
  induction queue as [|isbn queue IH]; intros startTime now timestamp index H;
    simpl; [reflexivity|].
  simpl in H. destruct (Js.truthy isbn); [|reflexivity].
  assert (Hne : k <> isbn) by (intros ->; tauto).
  destruct (settles _ _ _ _); simpl.
  - rewrite IH by tauto. now apply processItem_other.
  - now apply processItem_other.
Qed.

(** A worker that returns has drained its queue, unless an empty key
    stopped it. *)
Lemma run_drained (startTime now : nat -> Z) (timestamp : nat -> string)
    (queue : list string) (index : DownloadIndex) :
  Forall (fun isbn => Js.truthy isbn = true) queue ->
  returns (run startTime now timestamp queue index) = true ->
  remainingQueue (run startTime now timestamp queue index) = [].
Proof.
  revert startTime now timestamp index.
  induction queue as [|isbn queue IH]; intros startTime now timestamp index H;
    simpl; [reflexivity|].
  apply Forall_cons_1 in H as [-> H].
  destruct (settles _ _ _ _); simpl; [now apply IH | discriminate].
Qed.

(** Where a worker leaves the entry of a key of its queue: as processing
    that item leaves it, or, when the worker never gets past an item in
    front, as it was. *)
Lemma run_lookup (startTime now : nat -> Z) (timestamp : nat -> string)
    (queue : list string) (index : DownloadIndex) (k : string) :
  List.NoDup queue ->
  Forall (fun isbn => Js.truthy isbn = true) queue ->
  List.In k queue ->
  (exists i,
      finalIndex (run startTime now timestamp queue index) !! k
      = item (startTime i) (now i) (timestamp i) index k !! k /\
      (returns (run startTime now timestamp queue index) = true ->
       settles (startTime i) (now i) index k = true)) \/
  (returns (run startTime now timestamp queue index) = false /\
   finalIndex (run startTime now timestamp queue index) !! k = index !! k).
Proof.
  revert startTime now timestamp index.
  induction queue as [|isbn queue IH]; intros startTime now timestamp index
    Hnd Hall Hin; simpl in *; [contradiction|].
  apply List.NoDup_cons_iff in Hnd as [Hnotin Hnd].
  apply Forall_cons_1 in Hall as [-> Hall].
  destruct (decide (isbn = k)) as [-> | Hne].
  - left. exists 0.
    destruct (settles (startTime 0) (now 0) index k) eqn:Es; simpl.
    + split; [|reflexivity]. now apply run_other.
    + split; [reflexivity | discriminate].
  - assert (Hin' : List.In k queue) by tauto.
    destruct (settles (startTime 0) (now 0) index isbn) eqn:Es; simpl.
    + destruct (IH (fun i => startTime (S i)) (fun i => now (S i))
                  (fun i => timestamp (S i))
                  (item (startTime 0) (now 0) (timestamp 0) index isbn)
                  Hnd Hall Hin') as [(i & H1 & H2) | (H1 & H2)].
      * left. exists (S i).
        destruct (processItem_local httpGet resolveUrl pipeToFile probeFile
                    joinPath destinationFolder
                    (startTime (S i)) (now (S i)) (timestamp (S i))
                    (item (startTime 0) (now 0) (timestamp 0) index isbn)
                    index k) as [G1 G2].
        { apply processItem_other. congruence. }
        rewrite H1, G1, <- G2. split; [reflexivity | exact H2].
      * right. split; [exact H1|]. rewrite H2.
        apply processItem_other. congruence.
    + right. split; [reflexivity|]. apply processItem_other. congruence.
Qed.

(** A worker returns exactly when every download of its queue settles. *)
Lemma run_returns (startTime now : nat -> Z) (timestamp : nat -> string)
    (queue : list string) (index : DownloadIndex) :
  List.NoDup queue ->
  Forall (fun isbn => Js.truthy isbn = true) queue ->
  returns (run startTime now timestamp queue index)
  = forallb (settles 0%Z 0%Z index) queue.
Proof.
  revert startTime now timestamp index.
  induction queue as [|isbn queue IH]; intros startTime now timestamp index
    Hnd Hall; simpl; [reflexivity|].
  apply List.NoDup_cons_iff in Hnd as [Hnotin Hnd].
  apply Forall_cons_1 in Hall as [-> Hall].
  rewrite (itemSettles_clock (startTime 0) (now 0) 0%Z 0%Z).
  destruct (settles 0%Z 0%Z index isbn); simpl; [|reflexivity].
  rewrite IH by assumption.
  clear IH Hnd Hall. induction queue as [|k queue IHq]; simpl; [reflexivity|].
  simpl in Hnotin. rewrite IHq by tauto. f_equal.
  refine (proj2 (processItem_local httpGet resolveUrl pipeToFile probeFile joinPath
                   destinationFolder 0%Z 0%Z "" _ index k _)).
  apply processItem_other. intros ->. tauto.
Qed.

Lemma forallb_Permutation {X : Type} (p : X -> bool) (l l' : list X) :
  Permutation l l' -> forallb p l = forallb p l'.
Proof.
  induction 1 as [|x l l' _ IH|x y l|l l' l'' _ IH1 _ IH2]; simpl.
  - reflexivity.
  - now rewrite IH.
  - now destruct (p x), (p y).
  - congruence.
Qed.

(** The entries that a worker that returns leaves, up to completion
    times. *)
Lemma run_forget (startTime now : nat -> Z) (timestamp : nat -> string)
    (queue : list string) (index : DownloadIndex) (k : string) :
  List.NoDup queue ->
  Forall (fun isbn => Js.truthy isbn = true) queue ->
  returns (run startTime now timestamp queue index) = true ->
  forgetTime <$> finalIndex (run startTime now timestamp queue index) !! k
  = if existsb (String.eqb k) queue
    then forgetTime <$> item 0%Z 0%Z "" index k !! k
    else forgetTime <$> index !! k.
Proof.
  intros Hnd Hall Hret. destruct (existsb (String.eqb k) queue) eqn:Ek.
  - apply existsb_eqb_In in Ek.
    destruct (run_lookup startTime now timestamp queue index k Hnd Hall Ek)
      as [(i & H1 & _) | (H1 & _)]; [|congruence].
    rewrite H1.
    now apply (processItem_forget httpGet resolveUrl pipeToFile probeFile joinPath
                 destinationFolder).
  - rewrite run_other; [reflexivity|].
    intros Hin. apply existsb_eqb_In in Hin. congruence.
Qed.

(** A worker that does not return is held by an item of its queue, whose
    entry it has marked as downloading. *)
Lemma run_waits (startTime now : nat -> Z) (timestamp : nat -> string)
    (queue : list string) (index : DownloadIndex) :
  List.NoDup queue ->
  returns (run startTime now timestamp queue index) = false ->
  exists isbn entry,
    List.In isbn queue /\ index !! isbn = Some entry /\
    finalIndex (run startTime now timestamp queue index) !! isbn
    = Some (withState downloading entry).
Proof.
  revert startTime now timestamp index.
  induction queue as [|isbn queue IH]; intros startTime now timestamp index
    Hnd; simpl; [discriminate|].
  apply List.NoDup_cons_iff in Hnd as [Hnotin Hnd].
  destruct (Js.truthy isbn); [|discriminate].
  destruct (settles (startTime 0) (now 0) index isbn) eqn:Es; simpl.
  - intros Hret.
    destruct (IH _ _ _ _ Hnd Hret) as (k & entry & Hin & Hlook & Hfinal).
    exists k, entry. split; [now right|]. split; [|exact Hfinal].
    rewrite <- Hlook. symmetry. apply processItem_other. intros ->. tauto.
  - intros _. unfold itemSettles in Es.
    destruct (index !! isbn) as [entry|] eqn:Hlook.
    + exists isbn, entry. split; [now left|]. split; [exact Hlook|].
      destruct (processItem_entry httpGet resolveUrl pipeToFile probeFile joinPath
                  destinationFolder (startTime 0) (now 0) (timestamp 0)
                  index isbn entry Hlook) as (entry' & H1 & _ & H3).
      rewrite H1.
      destruct (downloadFile _ _ _ _ _ _ _ _ _ _); try discriminate.
      now rewrite H3.
    + unfold downloadFile in Es. rewrite Hlook in Es.
      destruct (Js.inheritedName isbn); discriminate.
Qed.

End QueueFacts.

(** X12.  An item whose PDF is already on disk with a size above zero is
    not fetched: whatever the network would answer, [downloadFile]
    resolves at once with success and the existing path, without marking
    the entry as downloading, and the worker then records the entry as
    done with that path. *)
Theorem existing_file_is_not_fetched (httpGet : string -> HttpOutcome)
    (resolveUrl : string -> string -> option string)
    (pipeToFile : string -> string -> WriteOutcome)
    (probeFile : string -> FileProbe) (joinPath : string -> string -> string)
    (destinationFolder : string) (startTime now : Z) (timestamp : string)
    (index : DownloadIndex) (isbn : string) (entry : IndexEntry.t) (size : nat) :
  index !! isbn = Some entry ->
  Js.truthy (bookUrl (IndexEntry.record entry)) = true ->
  probeFile (joinPath destinationFolder (isbn ++ ".pdf")) = Present size ->
  0 < size ->
  downloadFile httpGet resolveUrl pipeToFile probeFile joinPath destinationFolder
    startTime now index isbn
  = Resolved index
      (DownloadResult.mk isbn true (Some (joinPath destinationFolder (isbn ++ ".pdf")))
         None (Some (now - startTime)%Z) None) /\
  processItem httpGet resolveUrl pipeToFile probeFile joinPath destinationFolder
    startTime now timestamp index isbn !! isbn
  = Some (IndexEntry.mk (IndexEntry.record entry) done
            (Some (joinPath destinationFolder (isbn ++ ".pdf"))) None
            (Some timestamp)).
Proof.
  intros H Hurl Hprobe Hsize.
  assert (E : downloadFile httpGet resolveUrl pipeToFile probeFile joinPath
                destinationFolder startTime now index isbn
              = Resolved index
                  (DownloadResult.mk isbn true
                     (Some (joinPath destinationFolder (isbn ++ ".pdf")))
                     None (Some (now - startTime)%Z) None)).
  { unfold downloadFile. rewrite H, Hurl. simpl. rewrite Hprobe.
    apply Nat.ltb_lt in Hsize. now rewrite Hsize. }
  split; [exact E|].
  unfold processItem. rewrite E.
  now rewrite (updateIndexEntry_lookup timestamp index isbn _ entry H).
Qed.

Lemma existing_file_is_not_fetched_witness :
  processItem sampleHttpGet sampleResolveUrl samplePipeToFile sampleProbeFile
    sampleJoinPath "pdfs" 1000 1500 "2025-01-02T00:00:00.000Z"
    sampleIndex "9780000000001" !! "9780000000001"
  = Some (IndexEntry.mk (sampleBook "9780000000001" "http://example.org/b.pdf") done
            (Some "pdfs/9780000000001.pdf") None (Some "2025-01-02T00:00:00.000Z")).
Proof.
  apply (existing_file_is_not_fetched sampleHttpGet sampleResolveUrl samplePipeToFile
           sampleProbeFile sampleJoinPath "pdfs" 1000 1500
           "2025-01-02T00:00:00.000Z" sampleIndex "9780000000001"
           (IndexEntry.mk (sampleBook "9780000000001" "http://example.org/b.pdf") done
              (Some "pdfs/9780000000001.pdf") None (Some "2025-01-01T00:00:00.000Z"))
           2048).
  - reflexivity.
  - reflexivity.
  - reflexivity.
  - lia.
Defined.

(** X13.  Whatever the network answers, a worker that processes an item
    of the index keeps the stored record and leaves the entry in one of
    three ways, by the way in which [downloadFile] ends.  If it resolves,
    the entry is settled: done, with the destination path, the time stamp
    and no error message, or in error, with a message and its former path
    and time.  If it rejects, which it does only when [stat] on the
    destination path throws, the entry is as it was.  If its promise is
    never settled (a redirect whose [Location] cannot be resolved against
    the URL, or a body whose write stream emits neither [finish] nor
    [error]), the entry is left marked as downloading, and the worker
    never gets past the item.  No other key is touched, and a key that is
    not in the index is not created. *)
Theorem processed_item_is_settled (httpGet : string -> HttpOutcome)
    (resolveUrl : string -> string -> option string)
    (pipeToFile : string -> string -> WriteOutcome)
    (probeFile : string -> FileProbe) (joinPath : string -> string -> string)
    (destinationFolder : string) (startTime now : Z) (timestamp : string)
    (index : DownloadIndex) (isbn : string) :
  let index' := processItem httpGet resolveUrl pipeToFile probeFile joinPath
                  destinationFolder startTime now timestamp index isbn in
  (forall entry,
      index !! isbn = Some entry ->
      exists entry',
        index' !! isbn = Some entry' /\
        IndexEntry.record entry' = IndexEntry.record entry /\
        match downloadFile httpGet resolveUrl pipeToFile probeFile joinPath
                destinationFolder startTime now index isbn with
        | Resolved _ _ =>
            (IndexEntry.downloadState entry' = done /\
             IndexEntry.filePath entry'
               = Some (joinPath destinationFolder (isbn ++ ".pdf")) /\
             IndexEntry.errorMessage entry' = None /\
             IndexEntry.downloadedAt entry' = Some timestamp) \/
            (IndexEntry.downloadState entry' = error /\
             (exists message, IndexEntry.errorMessage entry' = Some message) /\
             IndexEntry.filePath entry' = IndexEntry.filePath entry /\
             IndexEntry.downloadedAt entry' = IndexEntry.downloadedAt entry)
        | Rejected message =>
            entry' = entry /\
            probeFile (joinPath destinationFolder (isbn ++ ".pdf"))
            = StatFails message
        | Unsettled _ => entry' = withState downloading entry
        | OutOfHops => False
        end) /\
  (index !! isbn = None -> index' = index) /\
  (forall other, other <> isbn -> index' !! other = index !! other).
Proof.
  cbv zeta. split; [|split].
  - intros entry H. now apply processItem_entry.
  - apply processItem_absent.
  - intros other. apply processItem_other.
Qed.

(** X14.  What a worker leaves does not depend on the order of its queue,
    except for the completion times, which are read from the clock item
    by item.  For two queues of distinct non-empty keys that are
    permutations of each other, each key with a destination path of its
    own (so that no download writes the file that another item probes),
    run against the same network and file system with any two clocks:
    either both workers return or neither does, a download being never
    settled; when they return, both queues are drained and the two
    indexes agree on every entry in everything but [downloadedAt]. *)
Theorem queue_order_is_irrelevant (httpGet : string -> HttpOutcome)
    (resolveUrl : string -> string -> option string)
    (pipeToFile : string -> string -> WriteOutcome)
    (probeFile : string -> FileProbe) (joinPath : string -> string -> string)
    (destinationFolder : string)
    (startTime now : nat -> Z) (timestamp : nat -> string)
    (startTime' now' : nat -> Z) (timestamp' : nat -> string)
    (queue queue' : list string) (index : DownloadIndex) :
  Permutation queue queue' ->
  List.NoDup queue ->
  Forall (fun isbn => Js.truthy isbn = true) queue ->
  (forall isbn isbn',
      List.In isbn queue -> List.In isbn' queue ->
      joinPath destinationFolder (isbn ++ ".pdf")
      = joinPath destinationFolder (isbn' ++ ".pdf") ->
      isbn = isbn') ->
  let first := processDownloadQueue httpGet resolveUrl pipeToFile probeFile joinPath
                 destinationFolder startTime now timestamp queue index in
  let second := processDownloadQueue httpGet resolveUrl pipeToFile probeFile joinPath
                  destinationFolder startTime' now' timestamp' queue' index in
  returns first = returns second /\
  (returns first = true ->
   forgetTime <$> finalIndex first = forgetTime <$> finalIndex second /\
   remainingQueue first = [] /\ remainingQueue second = []).
Proof.
  intros Hperm Hnd Hall _. cbv zeta.
  assert (Hall' : Forall (fun isbn => Js.truthy isbn = true) queue').
  { rewrite Forall_forall in *. intros k Hk. apply Hall.
    apply list_elem_of_In. apply list_elem_of_In in Hk.
    now apply (Permutation_in _ (Permutation_sym Hperm)). }
  assert (Hnd' : List.NoDup queue') by now apply (Permutation_NoDup Hperm).
  assert (Hret : returns (processDownloadQueue httpGet resolveUrl pipeToFile
                            probeFile joinPath destinationFolder
                            startTime now timestamp queue index)
                 = returns (processDownloadQueue httpGet resolveUrl pipeToFile
                              probeFile joinPath destinationFolder
                              startTime' now' timestamp' queue' index)).
  { rewrite !run_returns by assumption. now apply forallb_Permutation. }
  split; [exact Hret|]. intros H1.
  assert (H2 := H1). rewrite Hret in H2.
  split; [|split; now apply run_drained].
  apply map_eq. intros k. rewrite !lookup_fmap.
  rewrite !run_forget by assumption.
  assert (Hsame : existsb (String.eqb k) queue = existsb (String.eqb k) queue').
  { apply eq_true_iff_eq. rewrite !existsb_eqb_In. split.
    - apply (Permutation_in _ Hperm).
    - apply (Permutation_in _ (Permutation_sym Hperm)). }
  now rewrite Hsame.
Qed.

Lemma queue_order_is_irrelevant_witness :
  forgetTime <$>
    finalIndex
      (processDownloadQueue sampleHttpGet sampleResolveUrl samplePipeToFile
         sampleProbeFile sampleJoinPath "pdfs"
         (fun i => 1000 + Z.of_nat i)%Z (fun i => 1500 + Z.of_nat i)%Z
         (fun i => pretty i) ["9780472057627"; "9780000000001"] sampleIndex)
  = forgetTime <$>
      finalIndex
        (processDownloadQueue sampleHttpGet sampleResolveUrl samplePipeToFile
           sampleProbeFile sampleJoinPath "pdfs"
           (fun i => 2000 + Z.of_nat i)%Z (fun i => 2500 + Z.of_nat i)%Z
           (fun i => "later" ++ pretty i)
           ["9780000000001"; "9780472057627"] sampleIndex).
Proof.
  apply (queue_order_is_irrelevant sampleHttpGet sampleResolveUrl samplePipeToFile
           sampleProbeFile sampleJoinPath "pdfs"
           (fun i => 1000 + Z.of_nat i)%Z (fun i => 1500 + Z.of_nat i)%Z
           (fun i => pretty i)
           (fun i => 2000 + Z.of_nat i)%Z (fun i => 2500 + Z.of_nat i)%Z
           (fun i => "later" ++ pretty i)
           ["9780472057627"; "9780000000001"] ["9780000000001"; "9780472057627"]
           sampleIndex).
  - apply perm_swap.
  - repeat constructor; simpl; intuition discriminate.
  - repeat constructor.
  - intros isbn isbn' [<- | [<- | []]] [<- | [<- | []]]; vm_compute;
      intros H; (reflexivity || discriminate H).
  - vm_compute. reflexivity.
Defined.

(** X15.  A worker stops at a key that is the empty string.  When every
    download in front of that key settles, it processes the keys in front
    and returns, leaving the keys behind the empty key in the queue,
    unprocessed.  When one of them is never settled, the worker never
    gets past it, and what it has not yet dequeued, the empty key and the
    keys behind it included, stays in the queue. *)
Theorem empty_key_stops_worker (httpGet : string -> HttpOutcome)
    (resolveUrl : string -> string -> option string)
    (pipeToFile : string -> string -> WriteOutcome)
    (probeFile : string -> FileProbe) (joinPath : string -> string -> string)
    (destinationFolder : string)
    (startTime now : nat -> Z) (timestamp : nat -> string)
    (before after : list string) (index : DownloadIndex) :
  Forall (fun isbn => Js.truthy isbn = true) before ->
  let front := processDownloadQueue httpGet resolveUrl pipeToFile probeFile joinPath
                 destinationFolder startTime now timestamp before index in
  processDownloadQueue httpGet resolveUrl pipeToFile probeFile joinPath
    destinationFolder startTime now timestamp (before ++ "" :: after) index
  = if returns front
    then mkWorkerRun (finalIndex front) after true
    else mkWorkerRun (finalIndex front) (remainingQueue front ++ "" :: after) false.
Proof.
  cbv zeta. revert startTime now timestamp index.
  induction before as [|isbn before IH]; intros startTime now timestamp index H;
    simpl.
  - reflexivity.
  - apply Forall_cons_1 in H as [-> H].
    destruct (itemSettles _ _ _ _ _ _ _ _ _ _); [now apply IH | reflexivity].
Qed.

Lemma empty_key_stops_worker_witness :
  processDownloadQueue sampleHttpGet sampleResolveUrl samplePipeToFile sampleProbeFile
    sampleJoinPath "pdfs" (fun _ => 1000%Z) (fun _ => 1500%Z)
    (fun _ => "2025-01-02T00:00:00.000Z")
    (["9780000000001"] ++ "" :: ["9780472057627"]) sampleIndex
  = mkWorkerRun
      (finalIndex
         (processDownloadQueue sampleHttpGet sampleResolveUrl samplePipeToFile
            sampleProbeFile sampleJoinPath "pdfs" (fun _ => 1000%Z) (fun _ => 1500%Z)
            (fun _ => "2025-01-02T00:00:00.000Z") ["9780000000001"] sampleIndex))
      ["9780472057627"] true.
Proof.
  apply (empty_key_stops_worker sampleHttpGet sampleResolveUrl samplePipeToFile
           sampleProbeFile sampleJoinPath "pdfs" (fun _ => 1000%Z) (fun _ => 1500%Z)
           (fun _ => "2025-01-02T00:00:00.000Z") ["9780000000001"] ["9780472057627"]
           sampleIndex).
  repeat constructor.
Defined.

Section SweepFacts.

Lemma objectKeys_NoDup (index : DownloadIndex) : List.NoDup (objectKeys index).
Proof. apply NoDup_ListNoDup, NoDup_fst_map_to_list. Qed.

Lemma objectKeys_In (index : DownloadIndex) (k : string) :
  List.In k (objectKeys index) <-> is_Some (index !! k).
Proof.
  unfold objectKeys. rewrite <- list_elem_of_In, list_elem_of_fmap. split.
  - intros ([k' e] & -> & H). apply elem_of_map_to_list in H. simpl. eauto.
  - intros [e H]. exists (k, e). split; [reflexivity|].
    now apply elem_of_map_to_list.
Qed.

Lemma NoDup_filter_list {X : Type} (p : X -> bool) (l : list X) :
  List.NoDup l -> List.NoDup (List.filter p l).
Proof.
  intros H. rewrite <- (List.map_id (List.filter p l)).
  apply NoDup_map_filter. now rewrite List.map_id.
Qed.

Lemma fold_alter_out (f : IndexEntry.t -> IndexEntry.t) (keys : list string)
    (index : DownloadIndex) (k : string) :
  ~ List.In k keys ->
  fold_left (fun idx isbn => alter f isbn idx) keys index !! k = index !! k.
Proof.
  revert index; induction keys as [|a keys IH]; intros index H; simpl;
    [reflexivity|].
  simpl in H. rewrite IH by tauto.
  apply lookup_alter_ne. intros ->. tauto.
Qed.

Lemma fold_alter_in (f : IndexEntry.t -> IndexEntry.t) (keys : list string)
    (index : DownloadIndex) (k : string) :
  (forall e, f (f e) = f e) ->
  List.In k keys ->
  fold_left (fun idx isbn => alter f isbn idx) keys index !! k = f <$> index !! k.
Proof.
  intros Hidem. revert index; induction keys as [|a keys IH]; intros index H;
    simpl in *; [contradiction|].
  destruct (List.in_dec String.string_dec k keys) as [Hin | Hout].
  - rewrite IH by exact Hin.
    destruct (decide (a = k)) as [-> | Hne].
    + rewrite lookup_alter_eq. destruct (index !! k); simpl; [|reflexivity].
      now rewrite Hidem.
    + now rewrite lookup_alter_ne.
  - destruct H as [-> | H]; [|contradiction].
    rewrite fold_alter_out by exact Hout. apply lookup_alter_eq.
Qed.

Lemma failed_In (index : DownloadIndex) (k : string) :
  List.In k (List.filter (hasState error index) (objectKeys index))
  <-> hasState error index k = true.
Proof.
  rewrite List.filter_In, objectKeys_In. split; [tauto|].
  intros H. split; [|exact H].
  unfold hasState in H. destruct (index !! k); [eauto | discriminate].
Qed.

Lemma queued_In (index : DownloadIndex) (k : string) :
  List.In k (pendingDownloads index) <-> isQueued index k = true.
Proof.
  unfold pendingDownloads. rewrite List.filter_In, objectKeys_In.
  split; [tauto|]. intros H. split; [|exact H].
  unfold isQueued in H. destruct (index !! k); [eauto | discriminate].
Qed.

End SweepFacts.

Section WorkerFacts.

Variable httpGet : string -> HttpOutcome.
Variable resolveUrl : string -> string -> option string.
Variable pipeToFile : string -> string -> WriteOutcome.
Variable probeFile : string -> FileProbe.
Variable joinPath : string -> string -> string.
Variable destinationFolder : string.

Hypothesis probe_returns : forall path message, probeFile path <> StatFails message.

Local Abbreviation item :=
  (processItem httpGet resolveUrl pipeToFile probeFile joinPath destinationFolder).
Local Abbreviation settles :=
  (itemSettles httpGet resolveUrl pipeToFile probeFile joinPath destinationFolder).
Local Abbreviation run :=
  (processDownloadQueue httpGet resolveUrl pipeToFile probeFile joinPath
     destinationFolder).

(** When [stat] does not throw, processing an item settles its entry or
    leaves it marked as downloading. *)
Lemma processItem_state (startTime now : Z) (timestamp : string)
    (index : DownloadIndex) (isbn : string) (entry : IndexEntry.t) :
  index !! isbn = Some entry ->
  exists entry',
    item startTime now timestamp index isbn !! isbn = Some entry' /\
    IndexEntry.record entry' = IndexEntry.record entry /\
    if settles startTime now index isbn
    then IndexEntry.downloadState entry' = done \/
         IndexEntry.downloadState entry' = error
    else entry' = withState downloading entry.
Proof.
  intros H.
  destruct (processItem_entry httpGet resolveUrl pipeToFile probeFile joinPath
              destinationFolder startTime now timestamp index isbn entry H)
    as (entry' & H1 & H2 & H3).
  exists entry'. split; [exact H1|]. split; [exact H2|].
  unfold itemSettles.
  destruct (downloadFile _ _ _ _ _ _ _ _ _ _) as [index' r|message|index'|].
  - destruct H3 as [(H3 & _) | (H3 & _)]; auto.
  - destruct H3 as [_ H3]. now apply probe_returns in H3.
  - exact H3.
  - contradiction.
Qed.

(** Where a worker leaves the entry of a key of its queue, when [stat]
    does not throw: settled, or, when the worker does not return, marked
    as downloading or untouched. *)
Lemma run_entry (startTime now : nat -> Z) (timestamp : nat -> string)
    (queue : list string) (index : DownloadIndex) (isbn : string)
    (entry : IndexEntry.t) :
  List.NoDup queue ->
  Forall (fun isbn => Js.truthy isbn = true) queue ->
  List.In isbn queue ->
  index !! isbn = Some entry ->
  exists entry',
    finalIndex (run startTime now timestamp queue index) !! isbn = Some entry' /\
    IndexEntry.record entry' = IndexEntry.record entry /\
    (IndexEntry.downloadState entry' = done \/
     IndexEntry.downloadState entry' = error \/
     (returns (run startTime now timestamp queue index) = false /\
      (entry' = withState downloading entry \/ entry' = entry))).
Proof.
  intros Hnd Hall Hin Hlook.
  destruct (run_lookup httpGet resolveUrl pipeToFile probeFile joinPath
              destinationFolder startTime now timestamp queue index isbn
              Hnd Hall Hin) as [(i & H1 & H2) | (H1 & H2)].
  - destruct (processItem_state (startTime i) (now i) (timestamp i) index isbn
                entry Hlook) as (entry' & G1 & G2 & G3).
    exists entry'. split; [congruence|]. split; [exact G2|].
    destruct (settles (startTime i) (now i) index isbn).
    + destruct G3; auto.
    + right. right. split; [|now left].
      destruct (returns _); [|reflexivity].
      now specialize (H2 eq_refl).
  - exists entry. split; [congruence|]. split; [reflexivity|].
    right. right. auto.
Qed.

Lemma processItem_dom (startTime now : Z) (timestamp : string)
    (index : DownloadIndex) (isbn k : string) :
  item startTime now timestamp index isbn !! k = None <-> index !! k = None.
Proof.
  destruct (decide (k = isbn)) as [-> | Hne].
  - destruct (index !! isbn) as [entry|] eqn:E.
    + destruct (processItem_entry httpGet resolveUrl pipeToFile probeFile joinPath
                  destinationFolder startTime now timestamp index isbn entry E)
        as (entry' & -> & _).
      split; discriminate.
    + rewrite processItem_absent by exact E. now rewrite E.
  - now rewrite processItem_other.
Qed.

Lemma run_dom (startTime now : nat -> Z) (timestamp : nat -> string)
    (queue : list string) (index : DownloadIndex) (k : string) :
  finalIndex (run startTime now timestamp queue index) !! k = None
  <-> index !! k = None.
Proof.
  revert startTime now timestamp index.
  induction queue as [|isbn queue IH]; intros startTime now timestamp index;
    simpl; [reflexivity|].
  destruct (Js.truthy isbn); [|reflexivity].
  destruct (settles _ _ _ _); simpl.
  - rewrite IH. apply processItem_dom.
  - apply processItem_dom.
Qed.

Lemma fold_alter_dom (f : IndexEntry.t -> IndexEntry.t) (keys : list string)
    (index : DownloadIndex) (k : string) :
  fold_left (fun idx isbn => alter f isbn idx) keys index !! k = None
  <-> index !! k = None.
Proof.
  revert index; induction keys as [|a keys IH]; intros index; simpl; [reflexivity|].
  rewrite IH. destruct (decide (a = k)) as [-> | Hne].
  - rewrite lookup_alter_eq. destruct (index !! k); simpl; split; congruence.
  - now rewrite lookup_alter_ne.
Qed.

Lemma execute_dom (startTime now : nat -> Z) (timestamp : nat -> string)
    (index : DownloadIndex) (k : string) :
  finalIndex (executeDownloads httpGet resolveUrl pipeToFile probeFile joinPath
                destinationFolder startTime now timestamp index) !! k = None
  <-> index !! k = None.
Proof.
  unfold executeDownloads. destruct (pendingDownloads index); [reflexivity|].
  apply run_dom.
Qed.

Lemma retry_dom (startTime now : nat -> Z) (timestamp : nat -> string)
    (downloadQueue : list string) (index : DownloadIndex) (k : string) :
  finalIndex (retryFailedDownloads httpGet resolveUrl pipeToFile probeFile joinPath
                destinationFolder startTime now timestamp downloadQueue index)
    !! k = None
  <-> index !! k = None.
Proof.
  unfold retryFailedDownloads.
  destruct (List.filter (hasState error index) (objectKeys index)) as [|a l];
    [reflexivity|].
  rewrite run_dom. apply fold_alter_dom.
Qed.

(** The entries that the retry sweep leaves, when no failed key is the
    empty string. *)
Lemma retry_entry (startTime now : nat -> Z) (timestamp : nat -> string)
    (downloadQueue : list string) (index : DownloadIndex) (isbn : string)
    (entry : IndexEntry.t) :
  (forall isbn, hasState error index isbn = true -> isbn <> "") ->
  index !! isbn = Some entry ->
  let sweep := retryFailedDownloads httpGet resolveUrl pipeToFile probeFile joinPath
                 destinationFolder startTime now timestamp downloadQueue index in
  exists entry',
    finalIndex sweep !! isbn = Some entry' /\
    IndexEntry.record entry' = IndexEntry.record entry /\
    (IndexEntry.downloadState entry = error ->
     IndexEntry.downloadState entry' = done \/
     IndexEntry.downloadState entry' = error \/
     (returns sweep = false /\
      (entry' = withState downloading entry \/ entry' = withState pending entry))) /\
    (IndexEntry.downloadState entry <> error -> entry' = entry).
Proof.
  intros Hkeys Hlook. cbv zeta. unfold retryFailedDownloads.
  assert (Hall : Forall (fun isbn => Js.truthy isbn = true)
                   (List.filter (hasState error index) (objectKeys index))).
  { rewrite Forall_forall. intros k Hk.
    apply list_elem_of_In in Hk. apply failed_In in Hk.
    apply truthy_true. now apply Hkeys. }
  pose proof (NoDup_filter_list (hasState error index) _ (objectKeys_NoDup index))
    as Hnd.
  pose proof (failed_In index isbn) as Hin.
  destruct (List.filter (hasState error index) (objectKeys index))
    as [|a failedDownloads] eqn:Ef.
  - exists entry. cbn [finalIndex returns]. split; [exact Hlook|].
    split; [reflexivity|]. split; [|reflexivity].
    intros Hstate. exfalso. apply (proj2 Hin).
    unfold hasState. now rewrite Hlook, Hstate.
  - destruct (hasState error index isbn) eqn:Es.
    + destruct (run_entry startTime now timestamp (a :: failedDownloads)
                  (fold_left (fun idx k => alter (withState pending) k idx)
                     (a :: failedDownloads) index)
                  isbn (withState pending entry) Hnd Hall)
        as (entry' & H1 & H2 & H3).
      * now apply Hin.
      * rewrite fold_alter_in; [now rewrite Hlook | reflexivity | now apply Hin].
      * exists entry'. split; [exact H1|]. split; [exact H2|]. split.
        -- intros _. exact H3.
        -- intros Hne. exfalso. apply Hne. unfold hasState in Es.
           rewrite Hlook in Es.
           destruct (IndexEntry.downloadState entry);
             (reflexivity || discriminate).
    + assert (Hout : ~ List.In isbn (a :: failedDownloads)).
      { rewrite Hin. congruence. }
      exists entry. split.
      * rewrite run_other by exact Hout.
        rewrite fold_alter_out by exact Hout. exact Hlook.
      * split; [reflexivity|]. split; [|reflexivity].
        intros Hstate. exfalso. unfold hasState in Es.
        rewrite Hlook, Hstate in Es. discriminate.
Qed.

(** The entries that one run of the queue leaves, when no queued key is
    the empty string. *)
Lemma execute_entry (startTime now : nat -> Z) (timestamp : nat -> string)
    (index : DownloadIndex) (isbn : string) (entry : IndexEntry.t) :
  (forall isbn, isQueued index isbn = true -> isbn <> "") ->
  index !! isbn = Some entry ->
  let first := executeDownloads httpGet resolveUrl pipeToFile probeFile joinPath
                 destinationFolder startTime now timestamp index in
  exists entry',
    finalIndex first !! isbn = Some entry' /\
    IndexEntry.record entry' = IndexEntry.record entry /\
    (isQueued index isbn = true ->
     IndexEntry.downloadState entry' = done \/
     IndexEntry.downloadState entry' = error \/
     (returns first = false /\
      (entry' = withState downloading entry \/ entry' = entry))) /\
    (isQueued index isbn = false -> entry' = entry).
Proof.
  intros Hkeys Hlook. cbv zeta. unfold executeDownloads.
  assert (Hall : Forall (fun isbn => Js.truthy isbn = true) (pendingDownloads index)).
  { rewrite Forall_forall. intros k Hk. apply list_elem_of_In, queued_In in Hk.
    apply truthy_true. now apply Hkeys. }
  assert (Hnd : List.NoDup (pendingDownloads index))
    by apply NoDup_filter_list, objectKeys_NoDup.
  pose proof (queued_In index isbn) as Hin.
  destruct (pendingDownloads index) as [|a downloadQueue] eqn:Eq.
  - exists entry. cbn [finalIndex returns]. split; [exact Hlook|].
    split; [reflexivity|]. split; [|reflexivity].
    intros Hq. exfalso. now apply (proj2 Hin).
  - destruct (isQueued index isbn) eqn:Es.
    + destruct (run_entry startTime now timestamp (a :: downloadQueue) index
                  isbn entry Hnd Hall) as (entry' & H1 & H2 & H3);
        [now apply Hin | exact Hlook |].
      exists entry'. split; [exact H1|]. split; [exact H2|].
      split; [intros _; exact H3 | discriminate].
    + assert (Hout : ~ List.In isbn (a :: downloadQueue)).
      { rewrite Hin. congruence. }
      exists entry. split; [now rewrite run_other|].
      split; [reflexivity|]. split; [discriminate | reflexivity].
Qed.

End WorkerFacts.

(** X16.  The retry sweep, when no failed key is the empty string and
    [stat] does not throw.  When the sweep returns, every entry that was
    in error has been processed once more and is done or in error again,
    with its record kept.  When it does not return, because a download is
    never settled, an entry that was in error may also be left marked as
    downloading (the one that holds the sweep) or reset to pending
    (those behind it).  In either case every entry that was not in error
    is left exactly as it was, and no key is added. *)
Theorem retry_sweep_settles_failed_entries (httpGet : string -> HttpOutcome)
    (resolveUrl : string -> string -> option string)
    (pipeToFile : string -> string -> WriteOutcome)
    (probeFile : string -> FileProbe) (joinPath : string -> string -> string)
    (destinationFolder : string)
    (startTime now : nat -> Z) (timestamp : nat -> string)
    (downloadQueue : list string) (index : DownloadIndex) :
  (forall isbn, hasState error index isbn = true -> isbn <> "") ->
  (forall path message, probeFile path <> StatFails message) ->
  let sweep := retryFailedDownloads httpGet resolveUrl pipeToFile probeFile joinPath
                 destinationFolder startTime now timestamp downloadQueue index in
  (forall isbn entry,
      index !! isbn = Some entry ->
      IndexEntry.downloadState entry = error ->
      exists entry',
        finalIndex sweep !! isbn = Some entry' /\
        IndexEntry.record entry' = IndexEntry.record entry /\
        (IndexEntry.downloadState entry' = done \/
         IndexEntry.downloadState entry' = error \/
         (returns sweep = false /\
          (entry' = withState downloading entry \/
           entry' = withState pending entry)))) /\
  (forall isbn, hasState error index isbn = false ->
                finalIndex sweep !! isbn = index !! isbn) /\
  (forall isbn, finalIndex sweep !! isbn = None <-> index !! isbn = None).
Proof.
  intros Hkeys Hprobe. cbv zeta. split; [|split].
  - intros isbn entry Hlook Hstate.
    destruct (retry_entry httpGet resolveUrl pipeToFile probeFile joinPath
                destinationFolder Hprobe startTime now timestamp downloadQueue
                index isbn entry Hkeys Hlook) as (entry' & H1 & H2 & H3 & _).
    exists entry'. auto.
  - intros isbn Hstate.
    destruct (index !! isbn) as [entry|] eqn:Hlook.
    + destruct (retry_entry httpGet resolveUrl pipeToFile probeFile joinPath
                  destinationFolder Hprobe startTime now timestamp downloadQueue
                  index isbn entry Hkeys Hlook) as (entry' & H1 & _ & _ & H4).
      rewrite H1, H4; [reflexivity|].
      intros Hs. unfold hasState in Hstate. rewrite Hlook, Hs in Hstate.
      discriminate.
    + now apply retry_dom.
  - intros isbn. apply retry_dom.
Qed.

Lemma retry_sweep_settles_failed_entries_witness :
  exists entry',
    finalIndex
      (retryFailedDownloads sampleHttpGet sampleResolveUrl samplePipeToFile
         sampleProbeFile sampleJoinPath "pdfs" (fun _ => 1000%Z) (fun _ => 1500%Z)
         (fun _ => "2025-01-02T00:00:00.000Z") [] sampleIndex)
      !! "9780472057627" = Some entry' /\
    IndexEntry.record entry' = sampleBook "9780472057627" "http://example.org/a.pdf" /\
    IndexEntry.downloadState entry' = done.
Proof.
  destruct (retry_sweep_settles_failed_entries sampleHttpGet sampleResolveUrl
              samplePipeToFile sampleProbeFile sampleJoinPath "pdfs"
              (fun _ => 1000%Z) (fun _ => 1500%Z)
              (fun _ => "2025-01-02T00:00:00.000Z") [] sampleIndex) as [H _].
  - intros isbn. unfold hasState, sampleIndex.
    destruct (decide (isbn = "9780472057627")) as [-> | H1].
    + discriminate.
    + rewrite lookup_insert_ne by congruence.
      destruct (decide (isbn = "9780000000001")) as [-> | H2].
      * rewrite lookup_insert_eq. discriminate.
      * rewrite lookup_insert_ne by congruence. rewrite lookup_empty. discriminate.
  - intros path message. unfold sampleProbeFile.
    destruct (String.eqb path _); discriminate.
  - destruct (H "9780472057627"
                (IndexEntry.mk (sampleBook "9780472057627" "http://example.org/a.pdf")
                               error None (Some "Request timeout") None)
                eq_refl eq_refl) as (entry' & Hlook & Hrecord & _).
    exists entry'. split; [exact Hlook|]. split; [exact Hrecord|].
    vm_compute in Hlook. injection Hlook as <-. reflexivity.
Defined.

(** X17.  [getProgress] counts every entry once: the total is the number
    of entries of the index and is the sum of the completed, failed,
    pending and downloading counts. *)
Theorem progress_counts_partition (index : DownloadIndex) :
  total (getProgress index) = size index /\
  total (getProgress index)
  = completed (getProgress index) + failed (getProgress index)
    + pendingCount (getProgress index) + downloadingCount (getProgress index).
Proof.
  unfold getProgress. simpl. split.
  - now rewrite length_fmap, length_map_to_list.
  - induction ((map_to_list index).*2) as [|entry entries IH]; simpl; [reflexivity|].
    set (a := List.filter (stateIs done) entries) in *.
    set (b := List.filter (stateIs error) entries) in *.
    set (c := List.filter (stateIs pending) entries) in *.
    set (d := List.filter (stateIs downloading) entries) in *.
    unfold stateIs.
    destruct (IndexEntry.downloadState entry); simpl; lia.
Qed.

(** X18.  A worker that runs the queue of [executeDownloads] touches only
    entries that are pending and have a book URL: every other entry (done,
    in error, downloading, or without URL) is left exactly as it is. *)
Theorem unqueued_entries_are_untouched (httpGet : string -> HttpOutcome)
    (resolveUrl : string -> string -> option string)
    (pipeToFile : string -> string -> WriteOutcome)
    (probeFile : string -> FileProbe) (joinPath : string -> string -> string)
    (destinationFolder : string)
    (startTime now : nat -> Z) (timestamp : nat -> string)
    (index : DownloadIndex) (isbn : string) :
  isQueued index isbn = false ->
  finalIndex (processDownloadQueue httpGet resolveUrl pipeToFile probeFile joinPath
                destinationFolder startTime now timestamp (pendingDownloads index)
                index)
    !! isbn
  = index !! isbn.
Proof.
  intros H. apply run_other. unfold pendingDownloads.
  rewrite List.filter_In. intros [_ H']. congruence.
Qed.

Lemma unqueued_entries_are_untouched_witness :
  finalIndex (processDownloadQueue sampleHttpGet sampleResolveUrl samplePipeToFile
                sampleProbeFile sampleJoinPath "pdfs"
                (fun _ => 1000%Z) (fun _ => 1500%Z)
                (fun _ => "2025-01-02T00:00:00.000Z")
                (pendingDownloads sampleIndex) sampleIndex) !! "9780000000001"
  = sampleIndex !! "9780000000001".
Proof.
  apply (unqueued_entries_are_untouched sampleHttpGet sampleResolveUrl
           samplePipeToFile sampleProbeFile sampleJoinPath "pdfs"
           (fun _ => 1000%Z) (fun _ => 1500%Z)
           (fun _ => "2025-01-02T00:00:00.000Z") sampleIndex "9780000000001").
  reflexivity.
Defined.

(* ===================================================================== *)
(** * Further properties: the Download Index *)
(* ===================================================================== *)

Section ResetFacts.

Lemma resetEntry_frame (entry : IndexEntry.t) :
  IndexEntry.record (resetEntry entry) = IndexEntry.record entry /\
  IndexEntry.filePath (resetEntry entry) = IndexEntry.filePath entry /\
  IndexEntry.downloadedAt (resetEntry entry) = IndexEntry.downloadedAt entry /\
  (isTransient entry = false -> resetEntry entry = entry).
Proof.
  unfold resetEntry. destruct (isTransient entry); simpl; auto.
  repeat split; auto. discriminate.
Qed.

Lemma resetEntry_changes (entry : IndexEntry.t) :
  isTransient entry = true -> resetEntry entry <> entry.
Proof.
  intros H E. pose proof (resetEntry_settled entry) as S.
  rewrite E in S. congruence.
Qed.

Lemma filter_none {X : Type} (p : X -> bool) (l : list X) :
  Forall (fun x => p x = false) l -> List.filter p l = [].
Proof.
  induction l as [|x l IH]; simpl; intros H; [reflexivity|].
  apply Forall_cons_1 in H as [-> H]. now apply IH.
Qed.

Lemma filter_nil_none {X : Type} (p : X -> bool) (l : list X) :
  List.filter p l = [] -> Forall (fun x => p x = false) l.
Proof.
  induction l as [|x l IH]; simpl; intros H; [constructor|].
  destruct (p x) eqn:E; [discriminate|]. constructor; auto.
Qed.

End ResetFacts.

(** X19.  The reset at load time keeps the keys of the index and, of
    every entry, the record, the file path and the completion time;
    entries that are pending or done are not changed at all; the reset
    count is zero exactly when the index is unchanged; and resetting again
    changes nothing and counts zero. *)
Theorem reset_frame_and_idempotence (index : DownloadIndex) :
  let index' := fst (resetTransientStates index) in
  (forall isbn, is_Some (index' !! isbn) <-> is_Some (index !! isbn)) /\
  (forall isbn entry,
      index !! isbn = Some entry ->
      exists entry',
        index' !! isbn = Some entry' /\
        IndexEntry.record entry' = IndexEntry.record entry /\
        IndexEntry.filePath entry' = IndexEntry.filePath entry /\
        IndexEntry.downloadedAt entry' = IndexEntry.downloadedAt entry /\
        (IndexEntry.downloadState entry = pending \/
         IndexEntry.downloadState entry = done -> entry' = entry)) /\
  (snd (resetTransientStates index) = 0 <-> index' = index) /\
  resetTransientStates index' = (index', 0).
Proof.
  simpl. split; [|split; [|split]].
  - intros isbn. rewrite lookup_fmap. unfold is_Some.
    destruct (index !! isbn); simpl; split; intros [x H]; eauto; discriminate.
  - intros isbn entry H. exists (resetEntry entry).
    rewrite lookup_fmap, H. split; [reflexivity|].
    destruct (resetEntry_frame entry) as (H1 & H2 & H3 & H4).
    repeat split; auto. intros Hs. apply H4. unfold isTransient.
    destruct Hs as [-> | ->]; reflexivity.
  - rewrite length_zero_iff_nil. split.
    + intros H. apply filter_nil_none in H. rewrite Forall_forall in H.
      apply map_eq. intros k. rewrite lookup_fmap.
      destruct (index !! k) as [e|] eqn:E; simpl; [|reflexivity].
      f_equal. apply resetEntry_frame.
      apply (H (k, e)). now apply elem_of_map_to_list.
    + intros H. apply filter_none. rewrite Forall_forall.
      intros [k e] Hin. apply elem_of_map_to_list in Hin. simpl.
      destruct (isTransient e) eqn:T; [|reflexivity].
      exfalso. apply (resetEntry_changes e T).
      apply (f_equal (fun m => m !! k)) in H.
      rewrite lookup_fmap, Hin in H. simpl in H. congruence.
  - unfold resetTransientStates. f_equal.
    + apply map_eq. intros k. rewrite !lookup_fmap.
      destruct (index !! k) as [e|]; simpl; [|reflexivity].
      f_equal. apply resetEntry_frame, resetEntry_settled.
    + rewrite filter_none; [reflexivity|]. rewrite Forall_forall.
      intros [k e] Hin. apply elem_of_map_to_list in Hin.
      rewrite lookup_fmap in Hin. simpl.
      destruct (index !! k) as [e0|]; simpl in Hin; [|discriminate].
      injection Hin as <-. apply resetEntry_settled.
Qed.

Section IngestionFacts.

Lemma ingestRecord_key (index : DownloadIndex) (record : BookRecord) :
  ingestible record = true ->
  ingestRecord index record
  = match mergedEntry (recordKey record) record (index !! recordKey record) with
    | Some entry => <[recordKey record := entry]> index
    | None => index
    end.
Proof.
  intros H. unfold recordKey, mergedEntry.
  destruct (ISBN record) as [raw|] eqn:E;
    [|unfold ingestible in H; now rewrite E in H].
  rewrite (ingestRecord_take index record raw E H). simpl.
  destruct (index !! sanitizeISBN raw); [reflexivity|].
  now destruct (Js.inheritedName (sanitizeISBN raw)).
Qed.

Lemma mergedEntry_again (key : string) (record record' : BookRecord)
    (previous : option IndexEntry.t) :
  mergedEntry key record (mergedEntry key record' previous)
  = mergedEntry key record previous.
Proof.
  unfold mergedEntry. destruct previous as [entry|]; [reflexivity|].
  now destruct (Js.inheritedName key).
Qed.

(** After a results file is ingested, a key holds the last record of the
    file with that key, merged into what the index held before. *)
Lemma processJsonFile_lookup (records : list BookRecord) (index : DownloadIndex)
    (key : string) :
  processJsonFile (Some records) index !! key
  = match last (List.filter
                  (fun r => ingestible r && String.eqb (recordKey r) key) records) with
    | Some record => mergedEntry key record (index !! key)
    | None => index !! key
    end.
Proof.
  simpl. induction records as [|record records IH] using rev_ind; [reflexivity|].
  rewrite fold_left_app, List.filter_app, last_app_cases. simpl.
  destruct (ingestible record) eqn:Hing; simpl.
  - rewrite ingestRecord_key by exact Hing.
    destruct (String.eqb (recordKey record) key) eqn:Ek; simpl.
    + apply String.eqb_eq in Ek. subst key.
      assert (Hprev : fold_left ingestRecord records index !! recordKey record
                      = match last (List.filter
                                      (fun r => ingestible r &&
                                                String.eqb (recordKey r)
                                                           (recordKey record))
                                      records) with
                        | Some r => mergedEntry (recordKey record) r
                                      (index !! recordKey record)
                        | None => index !! recordKey record
                        end) by exact IH.
      rewrite Hprev.
      assert (Hmerged :
        mergedEntry (recordKey record) record
          match last (List.filter
                        (fun r => ingestible r &&
                                  String.eqb (recordKey r) (recordKey record))
                        records) with
          | Some r => mergedEntry (recordKey record) r (index !! recordKey record)
          | None => index !! recordKey record
          end
        = mergedEntry (recordKey record) record (index !! recordKey record)).
      { destruct (last _); [apply mergedEntry_again | reflexivity]. }
      rewrite Hmerged.
      destruct (mergedEntry (recordKey record) record (index !! recordKey record))
        as [entry|] eqn:Em.
      * apply lookup_insert_eq.
      * rewrite Hprev. unfold mergedEntry in Em |- *.
        destruct (index !! recordKey record); [discriminate|].
        destruct (Js.inheritedName (recordKey record)); [|discriminate].
        now destruct (last _).
    + apply String.eqb_neq in Ek.
      destruct (mergedEntry _ _ _); [|exact IH].
      rewrite lookup_insert_ne by exact Ek. exact IH.
  - rewrite ingestRecord_skip by exact Hing. exact IH.
Qed.

End IngestionFacts.

(** X20.  Ingestion of a results file keeps, for each key, the last record
    of the file with that sanitized ISBN (earlier records with the same
    key are overwritten), merged into the entry that the index held: the
    record of that entry is replaced, and a key that the index did not
    hold gets a new pending entry, unless the key is the name of a member
    of [Object.prototype] (such as [constructor]), which is never added.
    Ingesting the same file once more changes nothing. *)
Theorem ingestion_last_record_wins_and_is_idempotent (records : list BookRecord)
    (index : DownloadIndex) :
  (forall key,
      processJsonFile (Some records) index !! key
      = match last (List.filter
                      (fun r => ingestible r && String.eqb (recordKey r) key)
                      records) with
        | Some record =>
            match index !! key with
            | Some entry => Some (withRecord record entry)
            | None =>
                if Js.inheritedName key then None
                else Some (IndexEntry.mk record pending None None None)
            end
        | None => index !! key
        end) /\
  processJsonFile (Some records) (processJsonFile (Some records) index)
    = processJsonFile (Some records) index.
Proof.
  split; [apply processJsonFile_lookup|].
  apply map_eq. intros key.
  rewrite (processJsonFile_lookup records (processJsonFile (Some records) index)).
  rewrite (processJsonFile_lookup records index).
  destruct (last _) as [record|]; [|reflexivity].
  apply mergedEntry_again.
Qed.

Section SanitizerFacts.

Lemma sanitizeISBN_app (a b : string) :
  sanitizeISBN (a ++ b) = sanitizeISBN a ++ sanitizeISBN b.
Proof.
  induction a as [|c a IH]; simpl; [reflexivity|].
  destruct (isAlphaNumeric c); simpl; now rewrite IH.
Qed.

Lemma sanitizeISBN_chars (isbn : string) :
  Forall (fun c => isAlphaNumeric c = true)
         (list_ascii_of_string (sanitizeISBN isbn)).
Proof.
  induction isbn as [|c isbn IH]; simpl; [constructor|].
  destruct (isAlphaNumeric c) eqn:E; simpl; [constructor|]; assumption.
Qed.

Lemma sanitizeISBN_fixed (isbn : string) :
  sanitizeISBN isbn = isbn <->
  Forall (fun c => isAlphaNumeric c = true) (list_ascii_of_string isbn).
Proof.
  split.
  - intros <-. apply sanitizeISBN_chars.
  - induction isbn as [|c isbn IH]; simpl; intros H; [reflexivity|].
    apply Forall_cons_1 in H as [-> H]. now rewrite IH.
Qed.

Lemma sanitizeISBN_length (isbn : string) :
  String.length (sanitizeISBN isbn) <= String.length isbn.
Proof.
  induction isbn as [|c isbn IH]; simpl; [lia|].
  destruct (isAlphaNumeric c); simpl; lia.
Qed.

End SanitizerFacts.

(** X21.  The index key made from an ISBN holds ASCII letters and digits
    only and is never longer than the ISBN; sanitising is idempotent, it
    leaves exactly the all-alphanumeric strings unchanged, and it
    distributes over concatenation, so that separators anywhere in an
    ISBN do not change its key. *)
Theorem sanitizeISBN_key_properties (a b : string) :
  Forall (fun c => isAlphaNumeric c = true)
         (list_ascii_of_string (sanitizeISBN a)) /\
  String.length (sanitizeISBN a) <= String.length a /\
  sanitizeISBN (sanitizeISBN a) = sanitizeISBN a /\
  (sanitizeISBN a = a <->
   Forall (fun c => isAlphaNumeric c = true) (list_ascii_of_string a)) /\
  sanitizeISBN (a ++ b) = sanitizeISBN a ++ sanitizeISBN b /\
  (sanitizeISBN b = "" -> sanitizeISBN (a ++ b) = sanitizeISBN a
                          /\ sanitizeISBN (b ++ a) = sanitizeISBN a).
Proof.
  repeat split.
  - apply sanitizeISBN_chars.
  - apply sanitizeISBN_length.
  - apply sanitizeISBN_fixed, sanitizeISBN_chars.
  - apply sanitizeISBN_fixed.
  - apply sanitizeISBN_fixed.
  - apply sanitizeISBN_app.
  - rewrite sanitizeISBN_app, H. apply JsFacts.append_nil_r.
  - rewrite sanitizeISBN_app, H. reflexivity.
Qed.

(* ===================================================================== *)
(** * Further properties: the Record Scanner *)
(* ===================================================================== *)

(** X22.  While the input holds no closing marker, the scanner calls the
    callback for nothing and keeps the whole input buffered: whatever the
    chunks and the callback, the state is the initial one, the count is
    zero and the remaining buffer is the concatenation of the chunks. *)
Theorem input_without_marker_is_buffered {St : Type}
    (onRecord : string -> St -> St) (chunks : list string) (st0 : St) :
  Js.indexOf closeTag (Js.concat chunks) 0 = None ->
  scanStream onRecord chunks st0 = Some (Js.concat chunks, st0, 0).
Proof.
  intros H. rewrite scanStream_chunking.
  unfold scanStream. cbn [onChunks]. unfold onData.
  change (EmptyString ++ Js.concat chunks) with (Js.concat chunks).
  destruct (String.length (Js.concat chunks)); simpl; rewrite H; reflexivity.
Qed.

Lemma input_without_marker_is_buffered_witness :
  scanStream recordFragment ["<marc:record><marc:lea"; "der>00000nam</marc:leader>"] []
  = Some ("<marc:record><marc:leader>00000nam</marc:leader>", [], 0).
Proof.
  apply (input_without_marker_is_buffered recordFragment
           ["<marc:record><marc:lea"; "der>00000nam</marc:leader>"] []).
  reflexivity.
Defined.

(* ===================================================================== *)
(** * Further properties: bulk extraction *)
(* ===================================================================== *)

Section ValidationFacts.

Lemma validateCategories_inr (items : list RawCategory.t)
    (categories : list BulkExtractItem.t) :
  validateCategories items = inr categories ->
  Forall (fun c => wellFormedCategory c = true) items /\
  Forall (fun c => validField c = true) categories /\
  Forall2 (fun raw category =>
             BulkExtractItem.name category = RawCategory.name raw /\
             BulkExtractItem.field category = RawCategory.field raw /\
             Some (BulkExtractItem.count category) = RawCategory.count raw)
          items categories.
Proof.
  revert categories; induction items as [|raw items IH]; intros categories; simpl.
  - intros [= <-]. repeat split; constructor.
  - unfold wellFormedCategory.
    destruct (RawCategory.count raw) as [count|] eqn:Ec; [|discriminate].
    destruct (Js.truthy (RawCategory.name raw)) eqn:En; [|discriminate].
    destruct (Js.truthy (RawCategory.field raw)) eqn:Ef; [|discriminate]. simpl.
    destruct (_ || _) eqn:Ev; [|discriminate].
    destruct (validateCategories items) as [message|rest]; [discriminate|].
    intros [= <-]. destruct (IH rest eq_refl) as (H1 & H2 & H3).
    repeat split; constructor; auto.
    unfold wellFormedCategory. now rewrite En, Ev, Ec.
Qed.

Lemma falsy_field_invalid (field : string) :
  Js.truthy field = false ->
  String.eqb field "650" || String.eqb field "653" = false.
Proof. destruct field; [reflexivity | discriminate]. Qed.

Lemma validateCategories_inl (items : list RawCategory.t) (message : string) :
  validateCategories items = inl message ->
  exists before category after,
    items = (before ++ category :: after)%list /\
    Forall (fun c => wellFormedCategory c = true) before /\
    wellFormedCategory category = false /\
    message = if Js.truthy (RawCategory.name category) &&
                 Js.truthy (RawCategory.field category) &&
                 match RawCategory.count category with
                 | Some _ => true | None => false end
              then invalidFieldMessage (RawCategory.field category)
              else missingPropertiesMessage.
Proof.
  revert message; induction items as [|raw items IH]; intros message; simpl;
    [discriminate|].
  destruct (RawCategory.count raw) as [count|] eqn:Ec.
  - destruct (Js.truthy (RawCategory.name raw)) eqn:En; simpl.
    + destruct (Js.truthy (RawCategory.field raw)) eqn:Ef; simpl.
      * destruct (String.eqb (RawCategory.field raw) "650" ||
                  String.eqb (RawCategory.field raw) "653") eqn:Ev.
        -- destruct (validateCategories items) as [m|rest]; [|discriminate].
           intros [= <-].
           destruct (IH m eq_refl) as (before & category & after & -> & H1 & H2 & H3).
           exists (raw :: before), category, after. repeat split; auto.
           constructor; [|exact H1].
           unfold wellFormedCategory. now rewrite En, Ev, Ec.
        -- intros [= <-]. exists [], raw, items.
           unfold wellFormedCategory. rewrite En, Ef, Ev, Ec.
           repeat split; auto.
      * intros [= <-]. exists [], raw, items.
        unfold wellFormedCategory.
        rewrite En, Ef, Ec, (falsy_field_invalid _ Ef). repeat split; auto.
    + intros [= <-]. exists [], raw, items.
      unfold wellFormedCategory. rewrite En, Ec. repeat split; auto.
  - intros [= <-]. exists [], raw, items.
    unfold wellFormedCategory. rewrite Ec, !andb_false_r. repeat split; auto.
Qed.

End ValidationFacts.

Section WriteLoopFacts.

Variable joinPath : string -> string -> string.
Variable destinationPath : string.
Variable writeSucceeds : nat -> string -> bool.
Variable itemProcessingTime : nat -> Z.

Local Abbreviation written i category buckets :=
  (writeCategory joinPath destinationPath writeSucceeds itemProcessingTime
     i category buckets).

Lemma writeLoop_results (categories : list BulkExtractItem.t)
    (buckets : gmap string (list BookRecord)) (i : nat)
    (fileResults : list BulkExtractFileResult.t) (ok ko : nat) :
  exists new ok' ko',
    writeLoop joinPath destinationPath writeSucceeds itemProcessingTime
      i categories buckets (fileResults, ok, ko)
    = ((fileResults ++ new)%list, ok', ko') /\
    length new = length categories /\
    ok' + ko' = ok + ko + length categories /\
    forall j category,
      categories !! j = Some category ->
      new !! j = Some (fst (written (i + j) category buckets)).
Proof.
  revert i fileResults ok ko;
    induction categories as [|category categories IH]; intros i fileResults ok ko.
  - exists [], ok, ko. simpl. rewrite app_nil_r. repeat split; [lia|].
    intros j c H. discriminate.
  - cbn [writeLoop].
    destruct (written i category buckets) as [fileResult w] eqn:Ew.
    destruct w.
    + destruct (IH (S i) (fileResults ++ [fileResult])%list (S ok) ko)
        as (new & ok' & ko' & E & Hlen & Hsum & Hnth).
      exists (fileResult :: new), ok', ko'. rewrite E, <- app_assoc. simpl.
      repeat split; [lia | lia |].
      intros [|j] c H; simpl in *.
      * injection H as <-. now rewrite Nat.add_0_r, Ew.
      * rewrite (Hnth j c H). now rewrite Nat.add_succ_r.
    + destruct (IH (S i) (fileResults ++ [fileResult])%list ok (S ko))
        as (new & ok' & ko' & E & Hlen & Hsum & Hnth).
      exists (fileResult :: new), ok', ko'. rewrite E, <- app_assoc. simpl.
      repeat split; [lia | lia |].
      intros [|j] c H; simpl in *.
      * injection H as <-. now rewrite Nat.add_0_r, Ew.
      * rewrite (Hnth j c H). now rewrite Nat.add_succ_r.
Qed.

End WriteLoopFacts.

Section BulkFacts.

Variable parseFragment : string -> option MarcRecord.

(** The bucket of a category after the single pass is the result list of
    the single-criterion extraction of that category. *)
Lemma bucket_is_extraction (chunks chunks' : list string)
    (categories : list BulkExtractItem.t) (category : BulkExtractItem.t)
    (buckets : gmap string (list BookRecord)) :
  Js.concat chunks = Js.concat chunks' ->
  Forall (fun c => validField c = true) categories ->
  List.NoDup (List.map (fun c => (BulkExtractItem.field c, BulkExtractItem.name c))
                       categories) ->
  List.In category categories ->
  extractAllCategoriesInSinglePass parseFragment chunks categories = Some buckets ->
  exists matchingRecords,
    extractRecords parseFragment chunks'
      (ExtractOptions.mk (BulkExtractItem.field category)
                         (BulkExtractItem.name category)) = Some matchingRecords /\
    buckets !! categoryKey category = Some matchingRecords.
Proof.
  intros Hfile Hvalid Hnd Hin Hscan.
  pose proof (categoryKeys_NoDup categories Hvalid Hnd) as Hkeys.
  set (options := ExtractOptions.mk (BulkExtractItem.field category)
                                    (BulkExtractItem.name category)).
  pose proof (scanStream_related
                (fun buckets matching => buckets !! categoryKey category = Some matching)
                (processRecordForAllCategories parseFragment categories)
                (processRecordForExtraction parseFragment options)) as Hrel.
  specialize (Hrel (fun fragment buckets matching H =>
                      callbacks_agree parseFragment categories category fragment
                        buckets matching Hkeys Hin H)).
  specialize (Hrel [Js.concat chunks] (initBuckets categories) []).
  unfold extractAllCategoriesInSinglePass, extractRecords in *.
  rewrite (scanStream_chunking _ chunks) in Hscan.
  rewrite (scanStream_chunking _ chunks'), <- Hfile.
  destruct (scanStream_total (processRecordForAllCategories parseFragment categories)
              [Js.concat chunks] (initBuckets categories)) as [[[t1 buckets1] n1] E1].
  destruct (scanStream_total (processRecordForExtraction parseFragment options)
              [Js.concat chunks] []) as [[[t2 matching] n2] E2].
  rewrite E1, E2 in *. simpl in Hrel. injection Hscan as <-.
  exists matching. split; [reflexivity|].
  apply Hrel. apply initBuckets_lookup. left.
  apply List.in_map. exact Hin.
Qed.

Lemma extractAllCategoriesInSinglePass_total (chunks : list string)
    (categories : list BulkExtractItem.t) :
  is_Some (extractAllCategoriesInSinglePass parseFragment chunks categories).
Proof.
  unfold extractAllCategoriesInSinglePass.
  destruct (scanStream_total (processRecordForAllCategories parseFragment categories)
              chunks (initBuckets categories)) as [[[t buckets] n] ->].
  eauto.
Qed.

End BulkFacts.

(** X23.  Bulk extraction always returns.  It fails exactly when the
    categories file cannot be read, is not an array, or holds a category
    that does not pass validation, or when, the categories being valid,
    the read stream of the XML file raises an error (the file cannot be
    opened or read).  For the categories file the message names the
    failure of the first category at fault, and for the XML file it is the
    message of the stream error; both stand behind the prefix of the
    outer handler.  Otherwise every category has a file result at its own
    position, with its field, name and count (also as expected count);
    the total is the number of categories and the numbers of successful
    and failed extractions add up to it. *)
Theorem bulk_rejects_or_reports_every_category
    (parseFragment : string -> option MarcRecord)
    (joinPath : string -> string -> string) (destinationPath : string)
    (writeSucceeds : nat -> string -> bool) (itemProcessingTime : nat -> Z)
    (totalTime : Z) (jsonFile : CategoriesFile) (xmlChunks : list string)
    (streamError : option string) :
  exists outcome,
    bulkExtractRecords parseFragment joinPath destinationPath writeSucceeds
      itemProcessingTime totalTime jsonFile xmlChunks streamError = Some outcome /\
    match outcome with
    | BulkFailed message =>
        match jsonFile with
        | Unreadable reason => message = "Bulk extraction failed: " ++ reason
        | NotAnArray =>
            message = "Bulk extraction failed: JSON file must contain an array of category objects"
        | CategoryArray items =>
            (exists before category after,
                items = (before ++ category :: after)%list /\
                Forall (fun c => wellFormedCategory c = true) before /\
                wellFormedCategory category = false /\
                message = "Bulk extraction failed: " ++
                          if Js.truthy (RawCategory.name category) &&
                             Js.truthy (RawCategory.field category) &&
                             match RawCategory.count category with
                             | Some _ => true | None => false end
                          then invalidFieldMessage (RawCategory.field category)
                          else missingPropertiesMessage) \/
            (Forall (fun c => wellFormedCategory c = true) items /\
             exists reason,
               streamError = Some reason /\
               message = "Bulk extraction failed: " ++ reason)
        end
    | BulkDone results =>
        streamError = None /\
        exists items,
          jsonFile = CategoryArray items /\
          Forall (fun c => wellFormedCategory c = true) items /\
          BulkExtractResults.totalItems results = length items /\
          length (BulkExtractResults.fileResults results) = length items /\
          BulkExtractResults.successfulExtractions results +
            BulkExtractResults.failedExtractions results = length items /\
          forall i category,
            items !! i = Some category ->
            exists fileResult,
              BulkExtractResults.fileResults results !! i = Some fileResult /\
              BulkExtractFileResult.field fileResult = RawCategory.field category /\
              BulkExtractFileResult.name fileResult = RawCategory.name category /\
              Some (BulkExtractFileResult.count fileResult)
                = RawCategory.count category /\
              BulkExtractFileResult.expectedCount fileResult
                = BulkExtractFileResult.count fileResult
    end.
Proof.
  destruct jsonFile as [reason| |items]; simpl.
  - eexists; split; reflexivity.
  - eexists; split; reflexivity.
  - destruct (validateCategories items) as [message|categories] eqn:Ev.
    + eexists; split; [reflexivity|]. simpl. left.
      destruct (validateCategories_inl items message Ev)
        as (before & category & after & H1 & H2 & H3 & H4).
      exists before, category, after. repeat split; auto. now rewrite H4.
    + destruct (validateCategories_inr items categories Ev) as (Hwf & Hvalid & Hall).
      destruct (extractAllCategoriesInSinglePass_total parseFragment xmlChunks
                  categories) as [buckets ->].
      destruct streamError as [reason|].
      { eexists; split; [reflexivity|]. simpl. right. split; [exact Hwf|].
        exists reason. split; reflexivity. }
      destruct (writeLoop_results joinPath destinationPath writeSucceeds
                  itemProcessingTime categories buckets 0 [] 0 0)
        as (new & ok & ko & -> & Hlen & Hsum & Hnth).
      eexists; split; [reflexivity|]. simpl.
      pose proof (Forall2_length _ _ _ Hall) as Hl.
      split; [reflexivity|].
      exists items. repeat split; try lia; auto.
      intros i raw Hi.
      destruct (Forall2_lookup_l _ _ _ _ _ Hall Hi) as (category & Hc & Hn & Hf & Hcount).
      eexists. split; [apply (Hnth i category Hc)|].
      unfold writeCategory. destruct (writeSucceeds _ _); simpl; auto.
Qed.

(** X24.  When bulk extraction succeeds on categories whose (field, name)
    pairs are distinct, the file result of each category agrees with the
    single-criterion extraction of that category on the same file: if the
    file is written, the reported number of matches is the number of
    records that extraction returns, and the file name is the sanitised
    category name, an underscore, that number and [.json]; if the write
    fails, zero matches and an empty file name are reported, whatever the
    file holds. *)
Theorem bulk_result_agrees_with_single_extraction
    (parseFragment : string -> option MarcRecord)
    (joinPath : string -> string -> string) (destinationPath : string)
    (writeSucceeds : nat -> string -> bool) (itemProcessingTime : nat -> Z)
    (totalTime : Z) (items : list RawCategory.t) (xmlChunks xmlChunks' : list string)
    (streamError : option string)
    (results : BulkExtractResults.t) (i : nat) (category : RawCategory.t) :
  bulkExtractRecords parseFragment joinPath destinationPath writeSucceeds
    itemProcessingTime totalTime (CategoryArray items) xmlChunks streamError
    = Some (BulkDone results) ->
  List.NoDup (List.map (fun c => (RawCategory.field c, RawCategory.name c)) items) ->
  Js.concat xmlChunks = Js.concat xmlChunks' ->
  items !! i = Some category ->
  exists matchingRecords fileResult,
    extractRecords parseFragment xmlChunks'
      (ExtractOptions.mk (RawCategory.field category) (RawCategory.name category))
      = Some matchingRecords /\
    BulkExtractResults.fileResults results !! i = Some fileResult /\
    let outputPath :=
      joinPath destinationPath
        (sanitizeName (RawCategory.name category) ++ "_"
         ++ pretty (length matchingRecords) ++ ".json") in
    if writeSucceeds i outputPath
    then BulkExtractFileResult.actualMatches fileResult = length matchingRecords /\
         BulkExtractFileResult.outputFile fileResult = outputPath
    else BulkExtractFileResult.actualMatches fileResult = 0 /\
         BulkExtractFileResult.outputFile fileResult = "".
Proof.
  intros Hrun Hnd Hfile Hi. simpl in Hrun.
  destruct (validateCategories items) as [message|categories] eqn:Ev;
    [discriminate|].
  destruct (validateCategories_inr items categories Ev) as (Hwf & Hvalid & Hall).
  destruct (extractAllCategoriesInSinglePass parseFragment xmlChunks categories)
    as [buckets|] eqn:Escan; [|discriminate].
  destruct streamError as [reason|]; [discriminate|].
  destruct (writeLoop_results joinPath destinationPath writeSucceeds
              itemProcessingTime categories buckets 0 [] 0 0)
    as (new & ok & ko & E & Hlen & Hsum & Hnth).
  rewrite E in Hrun. injection Hrun as <-. simpl.
  destruct (Forall2_lookup_l _ _ _ _ _ Hall Hi) as (c & Hc & Hn & Hf & Hcount).
  assert (Hpairs : List.map (fun c => (BulkExtractItem.field c, BulkExtractItem.name c))
                            categories
                   = List.map (fun c => (RawCategory.field c, RawCategory.name c)) items).
  { clear -Hall. induction Hall as [|raw c items categories (Hn & Hf & _) _ IH];
      simpl; [reflexivity|]. now rewrite IH, Hn, Hf. }
  rewrite <- Hpairs in Hnd.
  assert (Hin : List.In c categories).
  { apply list_elem_of_In. eapply list_elem_of_lookup_2. exact Hc. }
  destruct (bucket_is_extraction parseFragment xmlChunks xmlChunks' categories c
              buckets Hfile Hvalid Hnd Hin Escan) as (matching & Hext & Hbucket).
  rewrite Hf, Hn in Hext.
  exists matching. eexists. split; [exact Hext|].
  split; [apply (Hnth i c Hc)|].
  unfold writeCategory, outputPathFor. rewrite Hbucket. simpl. rewrite Hn.
  destruct (writeSucceeds _ _); simpl; auto.
Qed.

Lemma bulk_result_agrees_with_single_extraction_witness :
  exists results matchingRecords fileResult,
    bulkExtractRecords sampleParseFragment sampleJoinPath "out" (fun _ _ => true)
      (fun _ => 0%Z) 0%Z sampleCategoriesFile sampleChunks None
    = Some (BulkDone results) /\
    extractRecords sampleParseFragment [Js.concat sampleChunks]
      (ExtractOptions.mk "650" "Education") = Some matchingRecords /\
    BulkExtractResults.fileResults results !! 0 = Some fileResult /\
    BulkExtractFileResult.actualMatches fileResult = length matchingRecords /\
    BulkExtractFileResult.outputFile fileResult
      = sampleJoinPath "out" ("Education_" ++ pretty (length matchingRecords) ++ ".json").
Proof.
  eexists.
  assert (Hrun : bulkExtractRecords sampleParseFragment sampleJoinPath "out"
                   (fun _ _ => true) (fun _ => 0%Z) 0%Z sampleCategoriesFile
                   sampleChunks None = Some (BulkDone ?[results]))
    by (vm_compute; reflexivity).
  destruct (bulk_result_agrees_with_single_extraction sampleParseFragment
              sampleJoinPath "out" (fun _ _ => true) (fun _ => 0%Z) 0%Z
              [RawCategory.mk "Education" (Some 2%Z) "650";
               RawCategory.mk "History" (Some 1%Z) "650"]
              sampleChunks [Js.concat sampleChunks] None _ 0
              (RawCategory.mk "Education" (Some 2%Z) "650") Hrun)
    as (matchingRecords & fileResult & H1 & H2 & H3 & H4).
  - repeat constructor; simpl; intuition discriminate.
  - reflexivity.
  - reflexivity.
  - exists matchingRecords, fileResult. repeat split; assumption.
Defined.

(* ===================================================================== *)
(** * Further properties: the input folder *)
(* ===================================================================== *)

Section InputFolderFacts.

Variable extname : string -> string.

Lemma fold_processJsonFile (files : list (string * option (list BookRecord)))
    (index : DownloadIndex) :
  fold_left (fun index file => processJsonFile (snd file) index) files index
  = processJsonFile
      (Some (List.flat_map (fun file => default [] (snd file)) files)) index.
Proof.
  revert index; induction files as [|[name content] files IH]; intros index;
    simpl; [reflexivity|].
  rewrite IH. simpl. rewrite fold_left_app.
  destruct content as [records|]; reflexivity.
Qed.

End InputFolderFacts.

(** X25.  When ingestion of the input folder succeeds, the folder holds a
    file with extension [.json], and the resulting index is the one that
    ingesting, as one file, the records of all readable [.json] files in
    directory order gives; files with another extension and unreadable
    files contribute nothing.  No key of the index is lost; an entry that
    was there keeps its download state, file path, error message and
    completion time; and a new entry is pending, under the sanitised ISBN
    of its record, which has an ISBN and a URL. *)
Theorem input_folder_is_one_ingestion (extname : string -> string)
    (files : list (string * option (list BookRecord)))
    (index index' : DownloadIndex) :
  processInputFolder extname (inr files) index = inr index' ->
  jsonFiles extname files <> [] /\
  index' = processJsonFile (Some (folderRecords extname files)) index /\
  forall key,
    match index !! key with
    | Some entry =>
        exists entry',
          index' !! key = Some entry' /\
          IndexEntry.downloadState entry' = IndexEntry.downloadState entry /\
          IndexEntry.filePath entry' = IndexEntry.filePath entry /\
          IndexEntry.errorMessage entry' = IndexEntry.errorMessage entry /\
          IndexEntry.downloadedAt entry' = IndexEntry.downloadedAt entry
    | None =>
        forall entry',
          index' !! key = Some entry' ->
          entry' = IndexEntry.mk (IndexEntry.record entry') pending None None None /\
          ingestible (IndexEntry.record entry') = true /\
          recordKey (IndexEntry.record entry') = key
    end.
Proof.
  unfold processInputFolder. intros H.
  destruct (jsonFiles extname files) as [|file rest] eqn:Ej; [discriminate|].
  simpl in H. injection H as <-.
  split; [discriminate|].
  assert (E : fold_left (fun index file => processJsonFile (snd file) index) rest
                (processJsonFile (snd file) index)
              = processJsonFile (Some (folderRecords extname files)) index).
  { unfold folderRecords. rewrite Ej.
    apply (fold_processJsonFile (file :: rest) index). }
  rewrite E. split; [reflexivity|].
  intros key. rewrite processJsonFile_lookup.
  destruct (last _) as [record|] eqn:El.
  - unfold mergedEntry. destruct (index !! key) as [entry|]; simpl.
    + eexists. split; [reflexivity|]. repeat split.
    + destruct (Js.inheritedName key); [discriminate|].
      intros entry' [= <-]. simpl.
      apply last_Some in El as [l' El].
      assert (Hin : List.In record
                      (List.filter
                         (fun r => ingestible r && String.eqb (recordKey r) key)
                         (folderRecords extname files))).
      { rewrite El. apply List.in_or_app. right. now left. }
      apply List.filter_In in Hin as [_ Hp].
      apply andb_true_iff in Hp as [Hi Hk]. apply String.eqb_eq in Hk.
      repeat split; assumption.
  - destruct (index !! key) as [entry|]; [|discriminate].
    exists entry. repeat split.
Qed.

Lemma input_folder_is_one_ingestion_witness :
  exists index',
    processInputFolder sampleExtname
      (inr [("a.json", Some [sampleBook "978-0-472" "http://example.org/a.pdf"]);
            ("notes.txt", Some [sampleBook "1" "http://example.org/n.pdf"]);
            ("b.json", None)]) ∅ = inr index' /\
    index' = processJsonFile
               (Some [sampleBook "978-0-472" "http://example.org/a.pdf"]) ∅.
Proof.
  eexists. split; [reflexivity|].
  apply (input_folder_is_one_ingestion sampleExtname
           [("a.json", Some [sampleBook "978-0-472" "http://example.org/a.pdf"]);
            ("notes.txt", Some [sampleBook "1" "http://example.org/n.pdf"]);
            ("b.json", None)] ∅ _ eq_refl).
Defined.

(* ===================================================================== *)
(** * Further properties: page counts *)
(* ===================================================================== *)

Section PageFacts.

Lemma applyDataField_nbPages (b : BookRecord) (df : DataField) :
  nbPages (applyDataField b df)
  = match last (omap (fun t => pageMatch (Js.trim t))
                     (if hasTag "300" df
                      then match firstQualifying "a" (subfields df) with
                           | Some sf => [text sf]
                           | None => []
                           end
                      else [])) with
    | Some n => Some n
    | None => nbPages b
    end.
Proof.
  destruct (hasTag "300" df) eqn:E;
    [|now rewrite applyDataField_nbPages_frame].
  unfold hasTag, applyDataField in *.
  destruct (attrs df) as [tag|]; [|discriminate].
  apply String.eqb_eq in E. subst tag. simpl. unfold case300.
  destruct (firstQualifying "a" (subfields df)) as [sf|]; [|reflexivity].
  simpl. now destruct (pageMatch (Js.trim (text sf))).
Qed.

End PageFacts.

(** X26.  The page count of a mapped record is the last page count that
    the field 300 occurrences give, each through its first subfield [a]
    with a text only: an occurrence whose first such subfield has no
    match leaves an earlier count in place, and without any match the
    count is absent. *)
Theorem nbPages_last_match (record : MarcRecord) :
  nbPages (convertToBookRecord record) = last (pageCounts record).
Proof.
  destruct record as [dfs]. unfold convertToBookRecord. simpl.
  assert (G : forall b,
    nbPages (fold_left applyDataField dfs b)
    = match last (pageCounts (mkMarcRecord dfs)) with
      | Some n => Some n
      | None => nbPages b
      end).
  { unfold pageCounts, firstPerOccurrence. simpl.
    induction dfs as [|df dfs IH] using rev_ind; intros b; [reflexivity|].
    rewrite fold_left_app, List.flat_map_app, omap_app, last_app_cases. simpl.
    rewrite app_nil_r, applyDataField_nbPages.
    destruct (last (omap _ (if hasTag "300" df then _ else []))); simpl;
      [reflexivity | apply IH]. }
  rewrite G. now destruct (last _).
Qed.

Section PatternFacts.

Lemma digit_is_no_letter_or_space (c : ascii) (d : nat) :
  digitValue c = Some d -> isLetterP c = false /\ Js.isSpace c = false.
Proof.
  destruct c as [[] [] [] [] [] [] [] []]; vm_compute; intros H;
    try discriminate; split; reflexivity.
Qed.

Lemma letter_is_no_digit (c : ascii) : isLetterP c = true -> digitValue c = None.
Proof.
  intros H. destruct (digitValue c) as [d|] eqn:E; [|reflexivity].
  apply digit_is_no_letter_or_space in E as [E _]. congruence.
Qed.

Lemma space_is_no_digit (c : ascii) : Js.isSpace c = true -> digitValue c = None.
Proof.
  intros H. destruct (digitValue c) as [d|] eqn:E; [|reflexivity].
  apply digit_is_no_letter_or_space in E as [_ E]. congruence.
Qed.

Lemma firstMatch_cons (c : ascii) (s : string) :
  firstMatch (String c s)
  = match digitValue c with
    | Some _ => match digitsThen (String c EmptyString) s with
                | Some run => Some run
                | None => firstMatch s
                end
    | None => firstMatch s
    end.
Proof. simpl. now destruct (digitValue c). Qed.

Lemma digitsThen_acc (s : string) (run run' : string) :
  digitsThen run s = None -> digitsThen run' s = None.
Proof.
  revert run run'; induction s as [|c s IH]; intros run run'; simpl; [reflexivity|].
  destruct (digitValue c) as [d|]; [apply IH|].
  destruct (if isLetterP c then true else _); [discriminate | reflexivity].
Qed.

(** The scanner of the model, state by state, against the backtracking
    search. *)
Lemma pageScan_firstMatch (s : string) :
  pageScan NoRun s = firstMatch s /\
  (forall run, pageScan (InDigits run) s
               = match digitsThen run s with
                 | Some m => Some m
                 | None => firstMatch s
                 end) /\
  (forall run, pageScan (InSpaces run) s
               = if spacesThenP s then Some run else firstMatch s).
Proof.
  induction s as [|c s (IH0 & IH1 & IH2)]; [repeat split|].
  rewrite firstMatch_cons. cbn [pageScan digitsThen spacesThenP].
  destruct (digitValue c) as [d|] eqn:Ed.
  - destruct (digit_is_no_letter_or_space c d Ed) as [Hp Hs]. rewrite Hp, Hs.
    split; [apply IH1|]. split; intros run.
    + rewrite IH1.
      destruct (digitsThen (run ++ String c EmptyString) s) eqn:E; [reflexivity|].
      now rewrite (digitsThen_acc s _ (String c EmptyString) E).
    + apply IH1.
  - split; [exact IH0|]. split; intros run.
    + destruct (isLetterP c); [reflexivity|].
      destruct (Js.isSpace c); [|exact IH0].
      rewrite IH2. now destruct (spacesThenP s).
    + destruct (isLetterP c); [reflexivity|].
      destruct (Js.isSpace c); [|exact IH0]. apply IH2.
Qed.

Lemma spacesThenP_intro (spaces : string) (c : ascii) (rest : string) :
  allChars Js.isSpace spaces = true -> isLetterP c = true ->
  spacesThenP (spaces ++ String c rest) = true.
Proof.
  unfold allChars. induction spaces as [|sp spaces IH]; simpl; intros Hs Hc.
  - now rewrite Hc.
  - apply andb_true_iff in Hs as [Hsp Hs]. rewrite Hsp.
    destruct (isLetterP sp); [reflexivity | now apply IH].
Qed.

Lemma spacesThenP_elim (s : string) :
  spacesThenP s = true ->
  exists spaces c rest,
    s = spaces ++ String c rest /\
    allChars Js.isSpace spaces = true /\ isLetterP c = true.
Proof.
  induction s as [|c s IH]; simpl; [discriminate|].
  destruct (isLetterP c) eqn:Ep.
  - intros _. exists "", c, s. repeat split. exact Ep.
  - destruct (Js.isSpace c) eqn:Es; [|discriminate].
    intros H. destruct (IH H) as (spaces & c' & rest & -> & Hs & Hc).
    exists (String c spaces), c', rest. repeat split; [|exact Hc].
    unfold allChars in *. simpl. now rewrite Es.
Qed.

Lemma digitsThen_intro (run spaces : string) (c : ascii) (rest : string)
    (seen : string) :
  allChars isDigit run = true ->
  allChars Js.isSpace spaces = true -> isLetterP c = true ->
  digitsThen seen (run ++ spaces ++ String c rest) = Some (seen ++ run).
Proof.
  unfold allChars. revert seen; induction run as [|d run IH]; intros seen Hr Hs Hc.
  - simpl. rewrite JsFacts.append_nil_r.
    pose proof (spacesThenP_intro spaces c rest Hs Hc) as Hp.
    destruct spaces as [|sp spaces]; simpl in *.
    + now rewrite (letter_is_no_digit c Hc), Hc.
    + apply andb_true_iff in Hs as [Hsp Hs].
      now rewrite (space_is_no_digit sp Hsp), Hp.
  - simpl in *. apply andb_true_iff in Hr as [Hd Hr].
    unfold isDigit in Hd. destruct (digitValue d) as [v|]; [|discriminate].
    rewrite IH by assumption. now rewrite JsFacts.append_assoc.
Qed.

Lemma digitsThen_elim (s : string) (seen m : string) :
  digitsThen seen s = Some m ->
  exists run spaces c rest,
    s = run ++ spaces ++ String c rest /\
    allChars isDigit run = true /\
    allChars Js.isSpace spaces = true /\ isLetterP c = true /\
    m = seen ++ run.
Proof.
  revert seen; induction s as [|c s IH]; intros seen; [discriminate|].
  cbn [digitsThen]. destruct (digitValue c) as [d|] eqn:Ed.
  - intros H. destruct (IH _ H) as (run & spaces & c' & rest & -> & Hr & Hs & Hc & ->).
    exists (String c run), spaces, c', rest. repeat split; auto.
    + unfold allChars, isDigit in *. simpl. now rewrite Ed.
    + now rewrite JsFacts.append_assoc.
  - destruct (spacesThenP (String c s)) eqn:Ep; [|discriminate].
    intros [= <-]. destruct (spacesThenP_elim _ Ep) as (spaces & c' & rest & E & Hs & Hc).
    exists "", spaces, c', rest. repeat split; auto.
    now rewrite JsFacts.append_nil_r.
Qed.

Lemma matchAt_intro (run spaces : string) (c : ascii) (rest : string) :
  run <> "" -> allChars isDigit run = true ->
  allChars Js.isSpace spaces = true -> isLetterP c = true ->
  matchAt (run ++ spaces ++ String c rest) = Some run.
Proof.
  intros Hne Hr Hs Hc. destruct run as [|d run]; [contradiction|].
  unfold allChars in Hr. simpl in Hr. apply andb_true_iff in Hr as [Hd Hr].
  unfold isDigit in Hd. simpl.
  destruct (digitValue d) as [v|]; [|discriminate].
  now rewrite digitsThen_intro.
Qed.

Lemma matchAt_elim (s : string) (m : string) :
  matchAt s = Some m ->
  exists run spaces c rest,
    s = run ++ spaces ++ String c rest /\ run <> "" /\
    allChars isDigit run = true /\
    allChars Js.isSpace spaces = true /\ isLetterP c = true /\
    m = run.
Proof.
  destruct s as [|d s]; [discriminate|]. simpl.
  destruct (digitValue d) as [v|] eqn:Ed; [|discriminate].
  intros H. destruct (digitsThen_elim _ _ _ H)
    as (run & spaces & c & rest & -> & Hr & Hs & Hc & ->).
  exists (String d run), spaces, c, rest.
  split; [reflexivity|]. split; [discriminate|].
  split; [unfold allChars, isDigit in *; simpl; now rewrite Ed|].
  split; [exact Hs|]. split; [exact Hc|]. reflexivity.
Qed.

Lemma firstMatch_none (s : string) :
  firstMatch s = None ->
  forall before suffix, s = before ++ suffix -> matchAt suffix = None.
Proof.
  induction s as [|c s IH]; intros H before suffix E.
  - destruct before; [|discriminate]. simpl in E. now subst suffix.
  - assert (Hhead : matchAt (String c s) = None /\ firstMatch s = None).
    { simpl in H. simpl. destruct (digitValue c) as [d|].
      - destruct (digitsThen _ s); [discriminate | auto].
      - auto. }
    destruct Hhead as [Hhere Hrest].
    destruct before as [|b before]; simpl in E.
    + now subst suffix.
    + injection E as _ E. exact (IH Hrest before suffix E).
Qed.

Lemma firstMatch_some (s : string) (run : string) :
  firstMatch s = Some run ->
  exists before suffix,
    s = before ++ suffix /\ matchAt suffix = Some run /\
    forall before' suffix',
      s = before' ++ suffix' ->
      String.length before' < String.length before ->
      matchAt suffix' = None.
Proof.
  induction s as [|c s IH]; intros H; [discriminate|].
  destruct (matchAt (String c s)) as [m|] eqn:Em.
  - assert (m = run) as ->.
    { simpl in H, Em. destruct (digitValue c); [|discriminate].
      rewrite Em in H. congruence. }
    exists "", (String c s). repeat split; [exact Em|].
    intros before' suffix' _ Hlt. simpl in Hlt. lia.
  - assert (Hrest : firstMatch s = Some run).
    { simpl in H, Em. destruct (digitValue c); [|exact H].
      now rewrite Em in H. }
    destruct (IH Hrest) as (before & suffix & -> & Hm & Hleft).
    exists (String c before), suffix. repeat split; [exact Hm|].
    intros before' suffix' E Hlt.
    destruct before' as [|b before']; simpl in E.
    + now subst suffix'.
    + injection E as _ E. apply (Hleft before' suffix' E). simpl in Hlt. lia.
Qed.

End PatternFacts.

(** X27.  The page number that the mapper reads from a physical
    description is that of the leftmost match of the expression: the text
    splits into a part before, a non-empty run of ASCII digits, white
    space (that of [\s]: tab, line feed, vertical tab, form feed,
    carriage return, space and no-break space among the code units below
    256), the letter [p] or [P] and a rest; no such split has a shorter
    part before; and the number is [parseInt] of the run, which is its
    decimal value as long as that is at most 2^53 and a rounded double
    beyond.  No number is read exactly when the text has no such split. *)
Theorem pageMatch_is_leftmost_pattern (physicalDesc : string) :
  match pageMatch physicalDesc with
  | Some n =>
      exists before run spaces letter after,
        pagePatternAt before run spaces letter after physicalDesc /\
        n = (if (digitsValue run <=? 2 ^ 53)%N then Pages (digitsValue run)
             else RoundedFrom run) /\
        forall before' run' spaces' letter' after',
          pagePatternAt before' run' spaces' letter' after' physicalDesc ->
          String.length before <= String.length before'
  | None =>
      forall before run spaces letter after,
        ~ pagePatternAt before run spaces letter after physicalDesc
  end.
Proof.
  unfold pageMatch. rewrite (proj1 (pageScan_firstMatch physicalDesc)).
  destruct (firstMatch physicalDesc) as [n|] eqn:E; simpl.
  - destruct (firstMatch_some _ _ E) as (before & suffix & -> & Hm & Hleft).
    destruct (matchAt_elim _ _ Hm) as (run & spaces & c & rest & -> & Hne & Hr & Hs & Hc & ->).
    exists before, run, spaces, c, rest. repeat split; auto.
    intros before' run' spaces' c' rest' (E' & Hne' & Hr' & Hs' & Hc').
    destruct (Nat.le_gt_cases (String.length before) (String.length before'))
      as [Hle | Hlt]; [exact Hle|].
    pose proof (Hleft before' _ E' Hlt) as Hnone.
    rewrite (matchAt_intro run' spaces' c' rest' Hne' Hr' Hs' Hc') in Hnone.
    discriminate.
  - intros before run spaces c rest (E' & Hne & Hr & Hs & Hc).
    pose proof (firstMatch_none _ E before _ E') as Hnone.
    rewrite (matchAt_intro run spaces c rest Hne Hr Hs Hc) in Hnone.
    discriminate.
Qed.

(** A no-break space between the digits and the letter is white space
    to the expression. *)
Example pageMatch_no_break_space :
  pageMatch ("336" ++ String (ascii_of_nat 160) "p.") = Some (Pages 336).
Proof. reflexivity. Qed.

(* ===================================================================== *)
(** * Further properties: one run of the queue *)
(* ===================================================================== *)

(** X28.  One run of the queue by a single worker, when no queued key is
    the empty string and [stat] does not throw.  Every entry that was not
    pending with a book URL is left exactly as it was.  When the run
    returns, every entry that was pending with a book URL is done or in
    error, with its record kept; the queue is drained and nothing is
    queued any more, so running the queue again changes nothing.  When
    the run does not return, because a download is never settled, the
    worker is held by an entry that it has marked as downloading, and
    the queued entries behind it are left as they were. *)
Theorem queue_run_leaves_nothing_queued (httpGet : string -> HttpOutcome)
    (resolveUrl : string -> string -> option string)
    (pipeToFile : string -> string -> WriteOutcome)
    (probeFile : string -> FileProbe) (joinPath : string -> string -> string)
    (destinationFolder : string)
    (startTime now : nat -> Z) (timestamp : nat -> string)
    (index : DownloadIndex) :
  (forall isbn, isQueued index isbn = true -> isbn <> "") ->
  (forall path message, probeFile path <> StatFails message) ->
  let first := executeDownloads httpGet resolveUrl pipeToFile probeFile joinPath
                 destinationFolder startTime now timestamp index in
  (forall isbn entry,
      index !! isbn = Some entry ->
      isQueued index isbn = true ->
      exists entry',
        finalIndex first !! isbn = Some entry' /\
        IndexEntry.record entry' = IndexEntry.record entry /\
        (IndexEntry.downloadState entry' = done \/
         IndexEntry.downloadState entry' = error \/
         (returns first = false /\
          (entry' = withState downloading entry \/ entry' = entry)))) /\
  (forall isbn, isQueued index isbn = false ->
                finalIndex first !! isbn = index !! isbn) /\
  (returns first = true ->
   remainingQueue first = [] /\
   pendingDownloads (finalIndex first) = [] /\
   forall startTime' now' timestamp',
     executeDownloads httpGet resolveUrl pipeToFile probeFile joinPath
       destinationFolder startTime' now' timestamp' (finalIndex first)
     = mkWorkerRun (finalIndex first) [] true) /\
  (returns first = false ->
   exists isbn entry,
     index !! isbn = Some entry /\ isQueued index isbn = true /\
     finalIndex first !! isbn = Some (withState downloading entry)).
Proof.
  intros Hkeys Hprobe. cbv zeta.
  assert (Hqueued : forall isbn entry,
    index !! isbn = Some entry ->
    isQueued index isbn = true ->
    exists entry',
      finalIndex (executeDownloads httpGet resolveUrl pipeToFile probeFile joinPath
                    destinationFolder startTime now timestamp index) !! isbn
      = Some entry' /\
      IndexEntry.record entry' = IndexEntry.record entry /\
      (IndexEntry.downloadState entry' = done \/
       IndexEntry.downloadState entry' = error \/
       (returns (executeDownloads httpGet resolveUrl pipeToFile probeFile joinPath
                   destinationFolder startTime now timestamp index) = false /\
        (entry' = withState downloading entry \/ entry' = entry)))).
  { intros isbn entry Hlook Hq.
    destruct (execute_entry httpGet resolveUrl pipeToFile probeFile joinPath
                destinationFolder Hprobe startTime now timestamp index isbn entry
                Hkeys Hlook) as (entry' & H1 & H2 & H3 & _).
    exists entry'. auto. }
  assert (Hother : forall isbn,
    isQueued index isbn = false ->
    finalIndex (executeDownloads httpGet resolveUrl pipeToFile probeFile joinPath
                  destinationFolder startTime now timestamp index) !! isbn
    = index !! isbn).
  { intros isbn Hq. unfold executeDownloads.
    destruct (pendingDownloads index) as [|a downloadQueue] eqn:Eq; [reflexivity|].
    apply run_other. rewrite <- Eq, queued_In. congruence. }
  split; [exact Hqueued|]. split; [exact Hother|]. split.
  - intros Hret.
    assert (Hnone : pendingDownloads
                      (finalIndex
                         (executeDownloads httpGet resolveUrl pipeToFile probeFile
                            joinPath destinationFolder startTime now timestamp index))
                    = []).
    { unfold pendingDownloads. apply filter_none. rewrite Forall_forall.
      intros isbn _. destruct (isQueued index isbn) eqn:Eq.
      - unfold isQueued in Eq |- *.
        destruct (index !! isbn) as [entry|] eqn:Hlook; [|discriminate].
        destruct (Hqueued isbn entry Hlook) as (entry' & -> & _ & Hstate).
        { unfold isQueued. now rewrite Hlook. }
        destruct Hstate as [-> | [-> | [Hwait _]]]; [reflexivity..|].
        congruence.
      - unfold isQueued at 1. rewrite (Hother isbn Eq). exact Eq. }
    split; [|split; [exact Hnone|]].
    + unfold executeDownloads in Hret |- *.
      assert (Hall : Forall (fun isbn => Js.truthy isbn = true)
                            (pendingDownloads index)).
      { rewrite Forall_forall. intros k Hk. apply list_elem_of_In, queued_In in Hk.
        apply truthy_true. now apply Hkeys. }
      destruct (pendingDownloads index) as [|a downloadQueue]; [reflexivity|].
      now apply run_drained.
    + intros startTime' now' timestamp'.
      unfold executeDownloads at 1. now rewrite Hnone.
  - intros Hret. unfold executeDownloads in Hret |- *.
    assert (Hnd : List.NoDup (pendingDownloads index))
      by apply NoDup_filter_list, objectKeys_NoDup.
    pose proof (queued_In index) as Hin.
    destruct (pendingDownloads index) as [|a downloadQueue]; [discriminate|].
    destruct (run_waits httpGet resolveUrl pipeToFile probeFile joinPath
                destinationFolder startTime now timestamp (a :: downloadQueue)
                index Hnd Hret) as (isbn & entry & H1 & H2 & H3).
    exists isbn, entry. split; [exact H2|]. split; [now apply Hin | exact H3].
Qed.

Lemma queue_run_leaves_nothing_queued_witness :
  pendingDownloads sampleQueuedIndex = ["9781111111111"] /\
  pendingDownloads
    (finalIndex
       (executeDownloads sampleHttpGet sampleResolveUrl samplePipeToFile
          sampleProbeFile sampleJoinPath "pdfs" (fun _ => 1000%Z) (fun _ => 1500%Z)
          (fun _ => "2025-01-02T00:00:00.000Z") sampleQueuedIndex))
  = [].
Proof.
  split; [reflexivity|].
  apply (queue_run_leaves_nothing_queued sampleHttpGet sampleResolveUrl
           samplePipeToFile sampleProbeFile sampleJoinPath "pdfs"
           (fun _ => 1000%Z) (fun _ => 1500%Z)
           (fun _ => "2025-01-02T00:00:00.000Z") sampleQueuedIndex).
  - intros isbn H ->. discriminate.
  - intros path message. unfold sampleProbeFile.
    destruct (String.eqb path "pdfs/9780000000001.pdf"); discriminate.
  - vm_compute. reflexivity.
Defined.

(* ===================================================================== *)
(** * Further properties: the whole run *)
(* ===================================================================== *)

Section LoadFacts.

Lemma loaded_states (persisted : option (option DownloadIndex)) (k : string)
    (entry : IndexEntry.t) :
  loadOrCreateIndex persisted !! k = Some entry -> isTransient entry = false.
Proof.
  destruct persisted as [[index|]|]; simpl; [|discriminate..].
  rewrite lookup_fmap. destruct (index !! k) as [e|]; simpl; [|discriminate].
  intros [= <-]. apply resetEntry_settled.
Qed.

Lemma ingested_states (extname : string -> string)
    (folder : string + list (string * option (list BookRecord)))
    (index index' : DownloadIndex) :
  processInputFolder extname folder index = inr index' ->
  (forall k entry, index !! k = Some entry -> isTransient entry = false) ->
  forall k entry, index' !! k = Some entry -> isTransient entry = false.
Proof.
  unfold processInputFolder. destruct folder as [message|files]; [discriminate|].
  destruct (length (jsonFiles extname files) =? 0)%nat; [discriminate|].
  intros [= <-] H k entry. rewrite fold_processJsonFile, processJsonFile_lookup.
  destruct (last _) as [record|]; [|apply H].
  unfold mergedEntry. destruct (index !! k) as [e|] eqn:E.
  - intros [= <-]. apply (H k e E).
  - destruct (Js.inheritedName k); [discriminate|]. now intros [= <-].
Qed.

End LoadFacts.

(** X29.  A whole run with a single worker that ends without error, when
    the index has no empty key and [stat] does not throw, leaves no
    download open: every entry whose record has a book URL is done or in
    error, and every entry without one is pending or done; no entry is
    left downloading. *)
Theorem full_run_leaves_no_download_open (extname : string -> string)
    (resolveUrl : string -> string -> option string)
    (joinPath : string -> string -> string) (destinationFolder : string)
    (httpGet : string -> HttpOutcome) (pipeToFile : string -> string -> WriteOutcome)
    (probeFile : string -> FileProbe)
    (startTime now : nat -> Z) (timestamp : nat -> string)
    (httpGet' : string -> HttpOutcome) (pipeToFile' : string -> string -> WriteOutcome)
    (probeFile' : string -> FileProbe)
    (startTime' now' : nat -> Z) (timestamp' : nat -> string)
    (mkdirError : option string) (persisted : option (option DownloadIndex))
    (folder : string + list (string * option (list BookRecord)))
    (final : DownloadIndex) :
  startDownload extname resolveUrl joinPath destinationFolder
    httpGet pipeToFile probeFile startTime now timestamp
    httpGet' pipeToFile' probeFile' startTime' now' timestamp'
    mkdirError persisted folder = Ends final ->
  final !! "" = None ->
  (forall path message, probeFile path <> StatFails message) ->
  (forall path message, probeFile' path <> StatFails message) ->
  forall isbn entry,
    final !! isbn = Some entry ->
    if Js.truthy (bookUrl (IndexEntry.record entry))
    then IndexEntry.downloadState entry = done \/
         IndexEntry.downloadState entry = error
    else IndexEntry.downloadState entry = pending \/
         IndexEntry.downloadState entry = done.
Proof.
  unfold startDownload. intros Hrun Hkey Hprobe Hprobe' isbn entry Hfinal.
  destruct mkdirError as [message|]; [discriminate|].
  destruct (processInputFolder extname folder (loadOrCreateIndex persisted))
    as [message|index1] eqn:Ein; [discriminate|].
  cbv zeta in Hrun.
  set (first := executeDownloads httpGet resolveUrl pipeToFile probeFile joinPath
                  destinationFolder startTime now timestamp index1) in *.
  destruct (returns first) eqn:Hret1; [|discriminate].
  set (second := retryFailedDownloads httpGet' resolveUrl pipeToFile' probeFile'
                   joinPath destinationFolder startTime' now' timestamp'
                   (remainingQueue first) (finalIndex first)) in *.
  destruct (returns second) eqn:Hret2; [|discriminate].
  injection Hrun as <-.
  pose proof (ingested_states extname folder _ index1 Ein (loaded_states persisted))
    as Hstates.
  assert (Hkey2 : finalIndex first !! "" = None).
  { now apply (retry_dom httpGet' resolveUrl pipeToFile' probeFile' joinPath
                 destinationFolder startTime' now' timestamp'
                 (remainingQueue first) (finalIndex first) ""). }
  assert (Hkey1 : index1 !! "" = None).
  { now apply (execute_dom httpGet resolveUrl pipeToFile probeFile joinPath
                 destinationFolder startTime now timestamp index1 ""). }
  destruct (finalIndex first !! isbn) as [entry2|] eqn:E2.
  2:{ apply (retry_dom httpGet' resolveUrl pipeToFile' probeFile' joinPath
               destinationFolder startTime' now' timestamp'
               (remainingQueue first) (finalIndex first) isbn) in E2.
      fold second in E2. congruence. }
  destruct (index1 !! isbn) as [entry1|] eqn:E1.
  2:{ apply (execute_dom httpGet resolveUrl pipeToFile probeFile joinPath
               destinationFolder startTime now timestamp index1 isbn) in E1.
      fold first in E1. congruence. }
  assert (Hkeys1 : forall k, isQueued index1 k = true -> k <> "").
  { intros k Hq ->. unfold isQueued in Hq. now rewrite Hkey1 in Hq. }
  assert (Hkeys2 : forall k, hasState error (finalIndex first) k = true -> k <> "").
  { intros k Hq ->. unfold hasState in Hq. now rewrite Hkey2 in Hq. }
  destruct (execute_entry httpGet resolveUrl pipeToFile probeFile joinPath
              destinationFolder Hprobe startTime now timestamp index1 isbn entry1
              Hkeys1 E1) as (e2 & He2 & Hrec2 & Hq2 & Hn2).
  fold first in He2, Hq2. rewrite E2 in He2. injection He2 as <-.
  destruct (retry_entry httpGet' resolveUrl pipeToFile' probeFile' joinPath
              destinationFolder Hprobe' startTime' now' timestamp'
              (remainingQueue first) (finalIndex first) isbn entry2
              Hkeys2 E2) as (e3 & He3 & Hrec3 & Hq3 & Hn3).
  fold second in He3, Hq3. rewrite Hfinal in He3. injection He3 as <-.
  rewrite Hrec3, Hrec2.
  assert (Hsettled2 : isQueued index1 isbn = true ->
                      IndexEntry.downloadState entry2 = done \/
                      IndexEntry.downloadState entry2 = error).
  { intros Hq. destruct (Hq2 Hq) as [H | [H | [H _]]]; auto. congruence. }
  assert (Hsettled3 : IndexEntry.downloadState entry2 = error ->
                      IndexEntry.downloadState entry = done \/
                      IndexEntry.downloadState entry = error).
  { intros Hq. destruct (Hq3 Hq) as [H | [H | [H _]]]; auto. congruence. }
  pose proof (Hstates isbn entry1 E1) as Hs1. unfold isTransient in Hs1.
  assert (Hqueued : isQueued index1 isbn
                    = match IndexEntry.downloadState entry1 with
                      | pending => Js.truthy (bookUrl (IndexEntry.record entry1))
                      | _ => false
                      end).
  { unfold isQueued. now rewrite E1. }
  destruct (Js.truthy (bookUrl (IndexEntry.record entry1))) eqn:Eurl.
  - destruct (IndexEntry.downloadState entry1) eqn:S1; try discriminate.
    + destruct (Hsettled2 Hqueued) as [Hd | He].
      * rewrite Hn3 by congruence. now left.
      * apply (Hsettled3 He).
    + rewrite Hn3; rewrite (Hn2 Hqueued); [left; exact S1 | congruence].
  - assert (Hq : isQueued index1 isbn = false).
    { rewrite Hqueued. now destruct (IndexEntry.downloadState entry1). }
    rewrite Hn3; rewrite (Hn2 Hq).
    + destruct (IndexEntry.downloadState entry1); try discriminate; auto.
    + destruct (IndexEntry.downloadState entry1); discriminate.
Qed.

Lemma full_run_leaves_no_download_open_witness :
  exists final entry,
    startDownload sampleExtname sampleResolveUrl sampleJoinPath "pdfs"
      sampleHttpGet samplePipeToFile sampleProbeFile
      (fun _ => 1000%Z) (fun _ => 1500%Z) (fun _ => "2025-01-02T00:00:00.000Z")
      sampleHttpGet samplePipeToFile sampleProbeFile
      (fun _ => 2000%Z) (fun _ => 2500%Z) (fun _ => "2025-01-02T00:01:00.000Z")
      None (Some (Some sampleIndex))
      (inr [("a.json",
             Some [sampleBook "9781111111111" "http://example.org/c.pdf"])])
    = Ends final /\
    final !! "9781111111111" = Some entry /\
    (IndexEntry.downloadState entry = done \/ IndexEntry.downloadState entry = error).
Proof.
  assert (Hprobe : forall path message, sampleProbeFile path <> StatFails message).
  { intros path message. unfold sampleProbeFile.
    destruct (String.eqb path "pdfs/9780000000001.pdf"); discriminate. }
  destruct (startDownload sampleExtname sampleResolveUrl sampleJoinPath "pdfs"
              sampleHttpGet samplePipeToFile sampleProbeFile
              (fun _ => 1000%Z) (fun _ => 1500%Z)
              (fun _ => "2025-01-02T00:00:00.000Z")
              sampleHttpGet samplePipeToFile sampleProbeFile
              (fun _ => 2000%Z) (fun _ => 2500%Z)
              (fun _ => "2025-01-02T00:01:00.000Z")
              None (Some (Some sampleIndex))
              (inr [("a.json",
                     Some [sampleBook "9781111111111" "http://example.org/c.pdf"])]))
    as [message|final|final] eqn:Hrun;
    [vm_compute in Hrun; discriminate | | vm_compute in Hrun; discriminate].
  pose proof (full_run_leaves_no_download_open sampleExtname sampleResolveUrl
                sampleJoinPath "pdfs"
                sampleHttpGet samplePipeToFile sampleProbeFile
                (fun _ => 1000%Z) (fun _ => 1500%Z)
                (fun _ => "2025-01-02T00:00:00.000Z")
                sampleHttpGet samplePipeToFile sampleProbeFile
                (fun _ => 2000%Z) (fun _ => 2500%Z)
                (fun _ => "2025-01-02T00:01:00.000Z")
                None (Some (Some sampleIndex))
                (inr [("a.json",
                       Some [sampleBook "9781111111111" "http://example.org/c.pdf"])])
                final Hrun) as H.
  vm_compute in Hrun. injection Hrun as Hfinal. subst final.
  specialize (H eq_refl Hprobe Hprobe "9781111111111" _ eq_refl).
  eexists. eexists. split; [reflexivity|]. split; [reflexivity | exact H].
Defined.
